(** * SOC-FeedViz backend: feed ingestion, caching and access gate

    A shallow embedding of [backend/server.js].  JavaScript strings are
    sequences of UTF-16 code units; regular expressions are run by a small
    backtracking matcher that follows the order in which the JavaScript
    engine tries alternatives (leftmost start, greedy quantifiers). *)

From Stdlib Require Import ZArith NArith Ascii String List Lia Sorting.Sorted.
From stdpp Require Import base list gmap.

Local Open Scope N_scope.

(** ** Strings *)

Abbreviation jsstring := (list N).

Definition chr (a : ascii) : N := N_of_ascii a.
Arguments chr : simpl never.

Definition js (s : string) : jsstring := map chr (list_ascii_of_string s).

Definition NL : N := 10.
Definition TAB : N := 9.
Definition SP : N := 32.

(** [String.prototype.startsWith] and [endsWith]. *)
Fixpoint startsWith (s p : jsstring) : bool :=
  match p, s with
  | [], _ => true
  | a :: p', b :: s' => (a =? b) && startsWith s' p'
  | _ :: _, [] => false
  end.

Definition endsWith (s p : jsstring) : bool :=
  startsWith (reverse s) (reverse p).

Definition str_eqb (a b : jsstring) : bool := bool_decide (a = b).

(** [Array.prototype.includes] on an array of strings. *)
Definition includes (l : list jsstring) (x : jsstring) : bool :=
  existsb (str_eqb x) l.

(** A string is truthy when it is not empty. *)
Definition truthy (s : jsstring) : bool :=
  match s with [] => false | _ => true end.

(** [a || b] on values that are a string or undefined/null. *)
Definition or_else (a : option jsstring) (b : option jsstring) : option jsstring :=
  match a with
  | Some s => if truthy s then Some s else b
  | None => b
  end.

(** [a || 'literal']. *)
Definition or_default (a : option jsstring) (d : jsstring) : jsstring :=
  match a with
  | Some s => if truthy s then s else d
  | None => d
  end.

(** ** Character classes *)

(** White space and line terminators: the class [\s], also what [trim]
    strips. *)
Definition is_space (c : N) : bool :=
  (c =? 9) || (c =? 10) || (c =? 11) || (c =? 12) || (c =? 13) || (c =? 32)
  || (c =? 160) || (c =? 5760) || ((8192 <=? c) && (c <=? 8202))
  || (c =? 8232) || (c =? 8233) || (c =? 8239) || (c =? 8287)
  || (c =? 12288) || (c =? 65279).

Definition to_upper (c : N) : N :=
  if (97 <=? c) && (c <=? 122) then c - 32 else c.

(** A pattern character under the [i] flag. *)
Definition ci (a : ascii) : N -> bool := fun c => to_upper c =? to_upper (chr a).
(** A pattern character without the flag. *)
Definition cs (a : ascii) : N -> bool := fun c => c =? chr a.

Definition not_gt : N -> bool := fun c => negb (c =? chr ">").
Definition DQUOTE : N := 34.
Definition SQUOTE : N := 39.
Definition quote : N -> bool := fun c => (c =? DQUOTE) || (c =? SQUOTE).
Definition not_quote : N -> bool := fun c => negb (quote c).
Definition sp_tab : N -> bool := fun c => (c =? SP) || (c =? TAB).
Definition newline : N -> bool := fun c => c =? NL.

(** ** Regular expressions *)

Inductive regex : Type :=
| REps
| RChar (p : N -> bool)
| RStar (p : N -> bool)
| ROpt (p : N -> bool)
| RSeq (r1 r2 : regex)
| RAlt (r1 r2 : regex)
| RCap (r : regex).

(** Greedy [p*]: the longest run first, then shorter ones. *)
Fixpoint star {A} (p : N -> bool) (s : jsstring) (k : jsstring -> option A)
  : option A :=
  match s with
  | c :: s' =>
      if p c then
        match star p s' k with
        | Some a => Some a
        | None => k s
        end
      else k s
  | [] => k []
  end.

(** The matcher, in continuation-passing style; [cap] is the text of capture
    group 1, the only group the program reads. *)
Fixpoint bt {A} (r : regex) (s : jsstring) (cap : option jsstring)
    (k : jsstring -> option jsstring -> option A) : option A :=
  match r with
  | REps => k s cap
  | RChar p =>
      match s with
      | c :: s' => if p c then k s' cap else None
      | [] => None
      end
  | RStar p => star p s (fun s' => k s' cap)
  | ROpt p =>
      match s with
      | c :: s' =>
          if p c then
            match k s' cap with
            | Some a => Some a
            | None => k s cap
            end
          else k s cap
      | [] => k s cap
      end
  | RSeq r1 r2 => bt r1 s cap (fun s1 cap1 => bt r2 s1 cap1 k)
  | RAlt r1 r2 =>
      match bt r1 s cap k with
      | Some a => Some a
      | None => bt r2 s cap k
      end
  | RCap r1 =>
      bt r1 s cap
         (fun s' _ => k s' (Some (take (length s - length s')%nat s)))
  end.

(** A match anchored at the start of [s]: the rest of the input after the
    match and group 1. *)
Definition match_at (r : regex) (s : jsstring)
  : option (jsstring * option jsstring) :=
  bt r s None (fun rest cap => Some (rest, cap)).

Definition match_len (r : regex) (s : jsstring) : option nat :=
  match match_at r s with
  | Some (rest, _) => Some (length s - length rest)%nat
  | None => None
  end.

(** [RegExp.prototype.exec] without the [g] flag: the leftmost match. *)
Fixpoint search (r : regex) (s : jsstring)
  : option (jsstring * option jsstring) :=
  match match_at r s with
  | Some m => Some m
  | None =>
      match s with
      | [] => None
      | _ :: s' => search r s'
      end
  end.

(** [m = s.match(re); m && m[1]] : group 1 of the leftmost match when there
    is a match and the group is truthy. *)
Definition match_group1 (r : regex) (s : jsstring) : option jsstring :=
  match search r s with
  | Some (_, Some g) => if truthy g then Some g else None
  | _ => None
  end.

(** [s.replace(re, rep)] with the [g] flag and a replacement free of [$]:
    [skip] counts the code units of the current match still to be dropped. *)
Fixpoint replace_go (r : regex) (rep : jsstring) (skip : nat) (s : jsstring)
  : jsstring :=
  match s with
  | [] =>
      match skip, match_len r [] with
      | O, Some _ => rep
      | _, _ => []
      end
  | c :: s' =>
      match skip with
      | S n => replace_go r rep n s'
      | O =>
          match match_len r s with
          | Some (S n) => rep ++ replace_go r rep n s'
          | Some O => rep ++ c :: replace_go r rep 0 s'
          | None => c :: replace_go r rep 0 s'
          end
      end
  end.

Definition replace_all (r : regex) (rep : jsstring) (s : jsstring) : jsstring :=
  replace_go r rep 0 s.

Fixpoint drop_space (s : jsstring) : jsstring :=
  match s with
  | c :: s' => if is_space c then drop_space s' else s
  | [] => []
  end.

(** [String.prototype.trim]. *)
Definition trim (s : jsstring) : jsstring :=
  reverse (drop_space (reverse (drop_space s))).

(** [s.substring(0, n)]. *)
Definition substring0 (n : nat) (s : jsstring) : jsstring := take n s.

(** Pattern builders. *)
Definition seq (l : list regex) : regex := fold_right RSeq REps l.
Definition plus (p : N -> bool) : regex := RSeq (RChar p) (RStar p).
Definition lit_ci (s : string) : regex :=
  seq (map (fun a => RChar (ci a)) (list_ascii_of_string s)).
Definition lit (s : string) : regex :=
  seq (map (fun a => RChar (cs a)) (list_ascii_of_string s)).

(** ** The patterns of [parseFeed] (all with the [i] flag)

    In the comments below [Q] stands for the source's class of the two quote
    characters and [NQ] for its complement. *)

(** [/<img[^>]+src=Q(NQ+)Q/i] *)
Definition re_img_src : regex :=
  seq [lit_ci "<img"; plus not_gt; lit_ci "src="; RChar quote;
       RCap (plus not_quote); RChar quote].

(** [/<meta[^>]+property=Qog:imageQ[^>]+content=Q(NQ+)Q/i] *)
Definition re_og_image : regex :=
  seq [lit_ci "<meta"; plus not_gt; lit_ci "property="; RChar quote;
       lit_ci "og:image"; RChar quote; plus not_gt; lit_ci "content=";
       RChar quote; RCap (plus not_quote); RChar quote].

(** [/<meta[^>]+name=Qtwitter:imageQ[^>]+content=Q(NQ+)Q/i] *)
Definition re_twitter_image : regex :=
  seq [lit_ci "<meta"; plus not_gt; lit_ci "name="; RChar quote;
       lit_ci "twitter:image"; RChar quote; plus not_gt; lit_ci "content=";
       RChar quote; RCap (plus not_quote); RChar quote].

(** [/<img[^>]+class=Q NQ* wp-post-image NQ* Q[^>]+src=Q(NQ+)Q/i] *)
Definition re_wp_image : regex :=
  seq [lit_ci "<img"; plus not_gt; lit_ci "class="; RChar quote;
       RStar not_quote; lit_ci "wp-post-image"; RStar not_quote; RChar quote;
       plus not_gt; lit_ci "src="; RChar quote; RCap (plus not_quote);
       RChar quote].

(** [/<img[^>]+src=Q(NQ*\.(jpg|jpeg|png|gif|webp))Q/i]; the inner
    group is group 2, which the program does not read. *)
Definition re_img_ext : regex :=
  seq [lit_ci "<img"; plus not_gt; lit_ci "src="; RChar quote;
       RCap (seq [RStar not_quote; lit_ci ".";
                  RAlt (lit_ci "jpg")
                    (RAlt (lit_ci "jpeg")
                       (RAlt (lit_ci "png")
                          (RAlt (lit_ci "gif") (lit_ci "webp"))))]);
       RChar quote].

(** ** The patterns of [extractArticleContent] and [stripHtml] *)

(** [/<\/p>/gi] *)
Definition re_p_close : regex := lit_ci "</p>".
(** [/<p[^>]*>/gi] *)
Definition re_p_open : regex := seq [lit_ci "<p"; RStar not_gt; lit_ci ">"].
(** [/<br\s*\/?>/gi] *)
Definition re_br : regex :=
  seq [lit_ci "<br"; RStar is_space; ROpt (ci "/"); lit_ci ">"].
(** [/<\/div>/gi] *)
Definition re_div_close : regex := lit_ci "</div>".
(** [/<div[^>]*>/gi] *)
Definition re_div_open : regex := seq [lit_ci "<div"; RStar not_gt; lit_ci ">"].
(** [/<[^>]+>/g] *)
Definition re_tag : regex := seq [lit "<"; plus not_gt; lit ">"].
(** [/[ \t]+/g] *)
Definition re_blanks : regex := plus sp_tab.
(** [/\n[ \t]+/g] *)
Definition re_nl_blanks : regex := seq [RChar newline; plus sp_tab].
(** [/[ \t]+\n/g] *)
Definition re_blanks_nl : regex := seq [plus sp_tab; RChar newline].
(** [/\n{3,}/g] *)
Definition re_nl3 : regex :=
  seq [RChar newline; RChar newline; RChar newline; RStar newline].
(** [/\s+/g] *)
Definition re_spaces : regex := plus is_space.

(** [stripHtml]. *)
Definition stripHtml (html : option jsstring) : jsstring :=
  match html with
  | None => []
  | Some h =>
      if truthy h then
        trim (replace_all re_spaces [SP] (replace_all re_tag [SP] h))
      else []
  end.

(** The normalisation chain of [extractArticleContent]. *)
Definition normalize_content (content : jsstring) : jsstring :=
  trim
    (replace_all re_nl3 [NL; NL]
    (replace_all re_blanks_nl [NL]
    (replace_all re_nl_blanks [NL]
    (replace_all re_blanks [SP]
    (replace_all re_tag [SP]
    (replace_all re_div_open []
    (replace_all re_div_close [NL]
    (replace_all re_br [NL]
    (replace_all re_p_open []
    (replace_all re_p_close [NL; NL] content)))))))))).

(** [if (content.length > 2000) content = content.substring(0, 2000) + '...'] *)
Definition truncate_content (content : jsstring) : jsstring :=
  if (2000 <? length content)%nat
  then substring0 2000 content ++ js "..."
  else content.

(** ** The environment

    Everything the server reaches outside its own code is an oracle of the
    environment: the libraries (MD5, URL and date parsing, path extension,
    the feed and article extractors), the network and the failures of the
    file system.  Wall-clock reads return [now]; the passage of time during
    a cycle is not modelled.  Time values are milliseconds since the epoch;
    a date string the server itself produces with [toISOString] is kept as
    the time value it denotes. *)

Record URL := { url_origin : jsstring; url_pathname : jsstring }.

(** What [fetch] does: reject (network error, timeout, malformed URL), or
    resolve with [response.ok] and a body; [arrayBuffer()] rejects when the
    body cannot be read. *)
Inductive FetchResult :=
| FetchRejects
| FetchResolves (ok : bool) (body : option (list N)).

Record Article := {
  art_content : option jsstring;
  art_description : option jsstring;
  art_image : option jsstring;
  art_author : option jsstring
}.

Inductive ArticleResult :=
| ArticleThrows
| ArticleNull
| ArticleOk (a : Article).

Record Entry := {
  e_title : option jsstring;
  e_link : option jsstring;
  e_description : option jsstring;
  e_content : option jsstring;
  e_published : option jsstring;
  e_updated : option jsstring
}.

Inductive FeedResult :=
| FeedThrows (message : jsstring)
| FeedNoEntries
| FeedOk (entries : list Entry).

Record Env := {
  md5_hex : jsstring -> jsstring;
  parse_url : jsstring -> option URL;
  extname : jsstring -> jsstring;
  date_parse : jsstring -> option Z;
  toISOString : Z -> jsstring;
  now : Z;
  net_fetch : jsstring -> FetchResult;
  write_ok : jsstring -> bool;
  readdir_ok : bool;
  unlink_ok : jsstring -> bool;
  unlink_cache_ok : bool;
  save_ok : bool;
  extractFeed : jsstring -> FeedResult;
  extractArticle : jsstring -> ArticleResult
}.

(** ** Data model *)

Record Feed := { name : jsstring; url : jsstring; icon : jsstring }.

Record Config := { feeds : list Feed; maxItemsPerFeed : nat }.

Definition feedConfig : Config := {|
  feeds := [
    {| name := js "ACSC Advisories";
       url := js "https://www.cyber.gov.au/rss/advisories";
       icon := js "https://www.cyber.gov.au/themes/custom/cyber/favicon.ico" |};
    {| name := js "ACSC Alerts";
       url := js "https://www.cyber.gov.au/rss/alerts";
       icon := js "https://www.cyber.gov.au/themes/custom/cyber/favicon.ico" |};
    {| name := js "Unit 42 Threat Research";
       url := js "https://unit42.paloaltonetworks.com/feed/";
       icon := js "https://unit42.paloaltonetworks.com/wp-content/uploads/2019/11/cropped-unit42-favicon-32x32.png" |};
    {| name := js "The Hacker News";
       url := js "https://feeds.feedburner.com/TheHackersNews";
       icon := js "https://thehackernews.com/images/favicon.ico" |};
    {| name := js "Krebs on Security";
       url := js "https://krebsonsecurity.com/feed/";
       icon := js "https://krebsonsecurity.com/favicon.ico" |};
    {| name := js "Bleeping Computer";
       url := js "https://www.bleepingcomputer.com/feed/";
       icon := js "https://www.bleepingcomputer.com/favicon.ico" |};
    {| name := js "Dark Reading";
       url := js "https://www.darkreading.com/rss_simple.asp";
       icon := js "https://www.darkreading.com/favicon.ico" |} ];
  maxItemsPerFeed := 5
|}.

(** The entry as [parseFeed] returns it. *)
Record RawItem := {
  raw_title : jsstring;
  raw_link : jsstring;
  raw_description : jsstring;
  raw_pubDate : jsstring;
  raw_image : option jsstring
}.

(** The item identifier: feed name, [Date.now()] and the position, which the
    source joins with dashes. *)
Record ItemId := { id_feed : jsstring; id_time : Z; id_index : nat }.

Record FeedItem := {
  id : ItemId;
  title : jsstring;
  link : jsstring;
  description : jsstring;
  fullText : jsstring;
  pubDate : Z;
  source : jsstring;
  sourceIcon : jsstring;
  image : option jsstring;
  author : option jsstring
}.

Record SourceStatus := {
  success : bool;
  itemCount : nat;
  error : option jsstring
}.

Record Snapshot := {
  lastUpdated : option Z;
  items : list FeedItem;
  feedStatus : gmap jsstring SourceStatus;
  feedTimestamps : gmap jsstring Z
}.

Definition empty_snapshot : Snapshot :=
  {| lastUpdated := None; items := []; feedStatus := ∅; feedTimestamps := ∅ |}.

(** What [processFeed] returns. *)
Record ProcessResult := {
  res_success : bool;
  res_feedName : jsstring;
  res_error : option jsstring;
  res_items : list FeedItem
}.

(** The mutable state of the server and of its cache directory:
    [images_dir] is the listing of the image directory ([None] when the
    directory is missing), [cache_file] the persisted snapshot, [requests]
    the URLs handed to [fetch], latest first. *)
Record World := {
  images_dir : option (gset jsstring);
  cache_file : option Snapshot;
  cachedFeeds : Snapshot;
  isRefreshing : bool;
  requests : list jsstring
}.

Definition set_images (d : option (gset jsstring)) (w : World) : World :=
  {| images_dir := d; cache_file := cache_file w; cachedFeeds := cachedFeeds w;
     isRefreshing := isRefreshing w; requests := requests w |}.
Definition set_cache_file (f : option Snapshot) (w : World) : World :=
  {| images_dir := images_dir w; cache_file := f; cachedFeeds := cachedFeeds w;
     isRefreshing := isRefreshing w; requests := requests w |}.
Definition set_cachedFeeds (s : Snapshot) (w : World) : World :=
  {| images_dir := images_dir w; cache_file := cache_file w; cachedFeeds := s;
     isRefreshing := isRefreshing w; requests := requests w |}.
Definition set_isRefreshing (b : bool) (w : World) : World :=
  {| images_dir := images_dir w; cache_file := cache_file w;
     cachedFeeds := cachedFeeds w; isRefreshing := b; requests := requests w |}.
Definition log_request (u : jsstring) (w : World) : World :=
  {| images_dir := images_dir w; cache_file := cache_file w;
     cachedFeeds := cachedFeeds w; isRefreshing := isRefreshing w;
     requests := u :: requests w |}.

(** ** Computations that may throw *)

Inductive outcome (A : Type) : Type :=
| Ret (a : A)
| Throw (message : jsstring).
Arguments Ret {A} a.
Arguments Throw {A} message.

Definition M (A : Type) : Type := World -> outcome A * World.

Definition ret {A} (a : A) : M A := fun w => (Ret a, w).
Definition throw {A} (e : jsstring) : M A := fun w => (Throw e, w).
Definition bind {A B} (m : M A) (k : A -> M B) : M B :=
  fun w =>
    match m w with
    | (Ret a, w') => k a w'
    | (Throw e, w') => (Throw e, w')
    end.
(** [try { m } catch (error) { h error.message }] *)
Definition try_catch {A} (m : M A) (h : jsstring -> M A) : M A :=
  fun w =>
    match m w with
    | (Ret a, w') => (Ret a, w')
    | (Throw e, w') => h e w'
    end.

Notation "'let*' x ':=' m 'in' k" := (bind m (fun x => k))
  (at level 10, x name, m at level 100, k at level 200).

(** ** The image cache *)

(** [fs.existsSync(path.join(IMAGES_DIR, filename))] *)
Definition image_exists (filename : jsstring) : M bool :=
  fun w =>
    (Ret match images_dir w with
         | Some d => bool_decide (filename ∈ d)
         | None => false
         end, w).

(** [await fetch(url, ...)]: the request is logged, a rejection throws. *)
Definition fetch (env : Env) (u : jsstring) : M (bool * option (list N)) :=
  fun w =>
    match net_fetch env u with
    | FetchRejects => (Throw (js "fetch failed"), log_request u w)
    | FetchResolves ok body => (Ret (ok, body), log_request u w)
    end.

(** [Buffer.from(await response.arrayBuffer())] *)
Definition arrayBuffer (body : option (list N)) : M (list N) :=
  match body with
  | Some b => ret b
  | None => throw (js "body unusable")
  end.

(** [fs.writeFileSync(path.join(IMAGES_DIR, filename), buffer)]: throws when
    the directory is missing or the write fails. *)
Definition write_image (env : Env) (filename : jsstring) : M unit :=
  fun w =>
    match images_dir w with
    | Some d =>
        if write_ok env filename
        then (Ret tt, set_images (Some ({[filename]} ∪ d)) w)
        else (Throw (js "write failed"), w)
    | None => (Throw (js "ENOENT"), w)
    end.

(** [path.extname(new URL(u).pathname) || dflt], [None] when [new URL]
    throws. *)
Definition url_ext (env : Env) (u : jsstring) (dflt : jsstring)
  : option jsstring :=
  match parse_url env u with
  | Some p => Some (or_default (Some (extname env (url_pathname p))) dflt)
  | None => None
  end.

Definition urlToFilename (env : Env) (u : jsstring) : jsstring :=
  let hash := md5_hex env u in
  match url_ext env u (js ".jpg") with
  | Some ext => hash ++ ext
  | None => hash ++ js ".jpg"
  end.

Definition download (env : Env) (u filename : jsstring) : M (option jsstring) :=
  let* exists_ := image_exists filename in
  if (exists_ : bool) then ret (Some (js "/images/" ++ filename))
  else
    let* response := fetch env u in
    if negb (fst response) then ret None
    else
      let* buffer := arrayBuffer (snd response) in
      let* done_ := write_image env filename in
      ret (Some (js "/images/" ++ filename)).

Definition cacheImage (env : Env) (imageUrl : jsstring) : M (option jsstring) :=
  try_catch (download env imageUrl (urlToFilename env imageUrl))
            (fun _ => ret None).

Definition is_alnum (c : N) : bool :=
  ((48 <=? c) && (c <=? 57)) || ((65 <=? c) && (c <=? 90))
  || ((97 <=? c) && (c <=? 122)).

Definition to_lower (c : N) : N :=
  if (65 <=? c) && (c <=? 90) then c + 32 else c.

(** [feedName.replace(/[^a-z0-9]/gi, '-').toLowerCase()] *)
Definition safeName (feedName : jsstring) : jsstring :=
  map (fun c => to_lower (if is_alnum c then c else chr "-")) feedName.

Definition faviconFilename (env : Env) (iconUrl feedName : jsstring) : jsstring :=
  let ext :=
    match url_ext env iconUrl (js ".ico") with
    | Some e => e
    | None => js ".ico"
    end in
  js "favicon-" ++ safeName feedName ++ ext.

Definition cacheFavicon (env : Env) (iconUrl feedName : jsstring)
  : M (option jsstring) :=
  try_catch (download env iconUrl (faviconFilename env iconUrl feedName))
            (fun _ => ret None).

(** The file is in the image directory. *)
Definition cached (filename : jsstring) (w : World) : bool :=
  match images_dir w with
  | Some d => bool_decide (filename ∈ d)
  | None => false
  end.

(** The failures of a download that the guard turns into [null]. *)
Definition download_fails (env : Env) (u f : jsstring) (w : World) : Prop :=
  net_fetch env u = FetchRejects
  \/ (exists b, net_fetch env u = FetchResolves false b)
  \/ net_fetch env u = FetchResolves true None
  \/ write_ok env f = false
  \/ images_dir w = None.

(** ** The content extractor *)

Record ArticleContent := {
  ac_fullText : option jsstring;
  ac_image : option jsstring;
  ac_author : option jsstring
}.

Definition no_content : ArticleContent :=
  {| ac_fullText := None; ac_image := None; ac_author := None |}.

Definition extractArticleContent (env : Env) (articleUrl : jsstring)
  : ArticleContent :=
  match extractArticle env articleUrl with
  | ArticleThrows => no_content
  | ArticleNull => no_content
  | ArticleOk article =>
      let content :=
        truncate_content
          (normalize_content (or_default (art_content article) [])) in
      {| ac_fullText := or_else (Some content) (or_else (art_description article) None);
         ac_image := or_else (art_image article) None;
         ac_author := or_else (art_author article) None |}
  end.

(** ** The feed reader *)

(** The image of one entry: the five patterns on the description, nested as
    in the source, then the first pattern on the content field. *)
Definition entry_image (entry : Entry) : option jsstring :=
  let image :=
    match e_description entry with
    | Some d =>
        if truthy d then
          match match_group1 re_img_src d with
          | Some u => Some u
          | None =>
              match match_group1 re_og_image d with
              | Some u => Some u
              | None =>
                  match match_group1 re_twitter_image d with
                  | Some u => Some u
                  | None =>
                      match match_group1 re_wp_image d with
                      | Some u => Some u
                      | None =>
                          match match_group1 re_img_ext d with
                          | Some u => Some u
                          | None => None
                          end
                      end
                  end
              end
          end
        else None
    | None => None
    end in
  match image with
  | Some u => Some u
  | None =>
      match e_content entry with
      | Some c => if truthy c then match_group1 re_img_src c else None
      | None => None
      end
  end.

Definition parse_entry (env : Env) (entry : Entry) : RawItem :=
  {| raw_title := or_default (e_title entry) (js "No title");
     raw_link := or_default (e_link entry) (js "#");
     raw_description := or_default (e_description entry) [];
     raw_pubDate :=
       or_default (or_else (e_published entry) (e_updated entry))
                  (toISOString env (now env));
     raw_image := entry_image entry |}.

Definition parseFeed (env : Env) (feedUrl : jsstring) : M (list RawItem) :=
  match extractFeed env feedUrl with
  | FeedThrows e => throw e
  | FeedNoEntries => ret []
  | FeedOk entries => ret (map (parse_entry env) entries)
  end.

(** ** The feed processor *)

(** [new Date(s).toISOString()]: a [RangeError] on an invalid date. *)
Definition date_toISOString (env : Env) (s : jsstring) : M Z :=
  match date_parse env s with
  | Some t => ret t
  | None => throw (js "Invalid time value")
  end.

(** The body of the inner [try] of [processFeed]: the item built from one
    raw entry, given the items pushed so far. *)
Definition build_item (env : Env) (feed : Feed) (cachedIcon : option jsstring)
    (pushed : nat) (rawItem : RawItem) : M FeedItem :=
  let articleContent := extractArticleContent env (raw_link rawItem) in
  let* images :=
    match or_else (ac_image articleContent) (raw_image rawItem) with
    | Some best =>
        let best' :=
          if startsWith best (js "/") then
            match parse_url env (raw_link rawItem) with
            | Some u => url_origin u ++ best
            | None => best
            end
          else best in
        let* cached := cacheImage env best' in
        ret (Some best', cached)
    | None => ret (None, None)
    end in
  let bestImage := fst images in
  let cachedImageUrl := snd images in
  let* date := date_toISOString env (raw_pubDate rawItem) in
  ret {| id := {| id_feed := name feed; id_time := now env; id_index := pushed |};
         title := raw_title rawItem;
         link := raw_link rawItem;
         description :=
           substring0 300 (stripHtml (Some (raw_description rawItem)));
         fullText :=
           or_default (ac_fullText articleContent)
                      (stripHtml (Some (raw_description rawItem)));
         pubDate := date;
         source := name feed;
         sourceIcon := or_default cachedIcon (icon feed);
         image := or_else cachedImageUrl bestImage;
         author := or_else (ac_author articleContent) None |}.

(** The [for] loop: an item that throws is skipped. *)
Fixpoint process_items (env : Env) (feed : Feed) (cachedIcon : option jsstring)
    (items : list FeedItem) (rawItems : list RawItem) : M (list FeedItem) :=
  match rawItems with
  | [] => ret items
  | rawItem :: rest =>
      let* items' :=
        try_catch
          (let* item := build_item env feed cachedIcon (length items) rawItem in
           ret (items ++ [item]))
          (fun _ => ret items) in
      process_items env feed cachedIcon items' rest
  end.

Definition processFeed (env : Env) (cfg : Config) (feed : Feed)
  : M ProcessResult :=
  try_catch
    (let* rawItems := parseFeed env (url feed) in
     let limitedItems := take (maxItemsPerFeed cfg) rawItems in
     let* cachedIcon := cacheFavicon env (icon feed) (name feed) in
     let* items := process_items env feed cachedIcon [] limitedItems in
     ret {| res_success := true; res_feedName := name feed;
            res_error := None; res_items := items |})
    (fun message =>
       ret {| res_success := false; res_feedName := name feed;
              res_error := Some message; res_items := [] |}).

(** ** The aggregation cycle *)

(** [Array.prototype.sort]: the engine's sort is stable (the server needs a
    Node version with a global [fetch], whose sort is), and with a consistent
    comparator every stable sort gives the same array, here by insertion;
    [cmp a b > 0] puts [b] first. *)
Fixpoint sort_insert {A} (cmp : A -> A -> Z) (x : A) (l : list A) : list A :=
  match l with
  | [] => [x]
  | y :: l' => if (0 <? cmp y x)%Z then x :: y :: l' else y :: sort_insert cmp x l'
  end.

Definition js_sort {A} (cmp : A -> A -> Z) (l : list A) : list A :=
  fold_left (fun sorted x => sort_insert cmp x sorted) l [].

(** [(a, b) => new Date(b.pubDate) - new Date(a.pubDate)] *)
Definition by_date_desc (a b : FeedItem) : Z := (pubDate b - pubDate a)%Z.

(** [Promise.all(feeds.map(processFeed))], the sources taken in turn: a
    source only runs between the awaits of the others, and the order in which
    their steps interleave is not modelled. *)
Fixpoint process_all (env : Env) (cfg : Config) (l : list Feed)
  : M (list ProcessResult) :=
  match l with
  | [] => ret []
  | feed :: rest =>
      let* r := processFeed env cfg feed in
      let* rs := process_all env cfg rest in
      ret (r :: rs)
  end.

Definition status_of (r : ProcessResult) : SourceStatus :=
  {| success := res_success r;
     itemCount := length (res_items r);
     error := or_else (res_error r) None |}.

(** The loop over the results: the two maps and the merged items. *)
Definition collect_step (env : Env)
    (acc : gmap jsstring SourceStatus * gmap jsstring Z * list FeedItem)
    (r : ProcessResult)
  : gmap jsstring SourceStatus * gmap jsstring Z * list FeedItem :=
  let '(st, ts, all) := acc in
  (<[res_feedName r := status_of r]> st,
   <[res_feedName r := now env]> ts,
   all ++ res_items r).

Definition collect (env : Env) (results : list ProcessResult)
  : gmap jsstring SourceStatus * gmap jsstring Z * list FeedItem :=
  fold_left (collect_step env) results (∅, ∅, []).

(** [fs.writeFileSync(FEED_CACHE_FILE, ...)] inside its own [try]. *)
Definition save_cache (env : Env) : M unit :=
  fun w =>
    (Ret tt, if save_ok env then set_cache_file (Some (cachedFeeds w)) w else w).

(** The cycle after the guard, from [Promise.all] to the return. *)
Definition cycle_body (env : Env) (cfg : Config) : M Snapshot :=
  let* results := process_all env cfg (feeds cfg) in
  let '(st, ts, allItems) := collect env results in
  let snapshot :=
    {| lastUpdated := Some (now env);
       items := js_sort by_date_desc allItems;
       feedStatus := st;
       feedTimestamps := ts |} in
  let* published := (fun w => (Ret tt, set_cachedFeeds snapshot w)) in
  let* saved := save_cache env in
  let* idle := (fun w => (Ret tt, set_isRefreshing false w)) in
  fun w => (Ret (cachedFeeds w), w).

(** [fetchAllFeeds] run to completion. *)
Definition fetchAllFeeds (env : Env) (cfg : Config) : M Snapshot :=
  fun w =>
    if isRefreshing w then (Ret (cachedFeeds w), w)
    else cycle_body env cfg (set_isRefreshing true w).

(** A cycle is asynchronous: the call runs up to [Promise.all] at once and
    the rest happens later.  [running] counts the cycles that have passed
    the guard and not yet finished. *)
Record Server := { world : World; running : nat }.

(** The synchronous start of [fetchAllFeeds()]: the stale snapshot when a
    cycle is in progress, otherwise the flag is raised and a cycle starts. *)
Definition enter_cycle (s : Server) : Server * option Snapshot :=
  if isRefreshing (world s) then (s, Some (cachedFeeds (world s)))
  else ({| world := set_isRefreshing true (world s); running := S (running s) |},
        None).

(** The asynchronous end of a started cycle. *)
Definition complete_cycle (env : Env) (cfg : Config) (s : Server) : Server :=
  match running s with
  | O => s
  | S n => {| world := snd (cycle_body env cfg (world s)); running := n |}
  end.

(** ** The access gate *)

(** [s.split(sep)] for a separator of one code unit. *)
Fixpoint split_on (sep : N) (s : jsstring) : list jsstring :=
  match s with
  | [] => [[]]
  | c :: s' =>
      if c =? sep then [] :: split_on sep s'
      else match split_on sep s' with
           | h :: t => (c :: h) :: t
           | [] => [[c]]
           end
  end.

(** [parts.join(sep)] *)
Fixpoint join (sep : jsstring) (parts : list jsstring) : jsstring :=
  match parts with
  | [] => []
  | [p] => p
  | p :: rest => p ++ sep ++ join sep rest
  end.

Definition digit_val (radix : Z) (c : N) : option Z :=
  let v :=
    if (48 <=? c) && (c <=? 57) then Some (Z.of_N c - 48)%Z
    else if (97 <=? c) && (c <=? 122) then Some (Z.of_N c - 87)%Z
    else if (65 <=? c) && (c <=? 90) then Some (Z.of_N c - 55)%Z
    else None in
  match v with
  | Some d => if (d <? radix)%Z then Some d else None
  | None => None
  end.

Fixpoint parse_digits (radix : Z) (acc : option Z) (s : jsstring) : option Z :=
  match s with
  | [] => acc
  | c :: s' =>
      match digit_val radix c with
      | Some d =>
          parse_digits radix
            (Some (match acc with Some a => a * radix + d | None => d end)%Z) s'
      | None => acc
      end
  end.

(** [parseInt(s)] without a radix; [None] is [NaN]. *)
Definition parseInt (s : jsstring) : option Z :=
  let s1 := drop_space s in
  let '(negative, s2) :=
    match s1 with
    | c :: t =>
        if c =? chr "-" then (true, t)
        else if c =? chr "+" then (false, t)
        else (false, s1)
    | [] => (false, s1)
    end in
  let '(radix, s3) :=
    if startsWith s2 (js "0x") || startsWith s2 (js "0X")
    then (16%Z, drop 2 s2) else (10%Z, s2) in
  match parse_digits radix None s3 with
  | Some n => Some (if negative then - n else n)%Z
  | None => None
  end.

(** [parts.slice(0, n / 8)] where [n] is the result of [parseInt]: the end
    index is truncated toward zero, [NaN] counts as 0 and a negative index
    counts from the end. *)
Definition slice_eighth {A} (parts : list A) (n : option Z) : list A :=
  match n with
  | None => []
  | Some n =>
      let k := Z.quot n 8 in
      if (k <? 0)%Z
      then take (Z.to_nat (Z.max (Z.of_nat (length parts) + k) 0)) parts
      else take (Z.to_nat k) parts
  end.

(** [process.env.ALLOWED_IPS || '127.0.0.1,::1,localhost'], split on commas
    and trimmed. *)
Definition parse_allowed (env_var : option jsstring) : list jsstring :=
  map trim (split_on (chr ",") (or_default env_var (js "127.0.0.1,::1,localhost"))).

Definition is_localhost (ip : jsstring) : bool :=
  str_eqb ip (js "::1") || str_eqb ip (js "127.0.0.1") || str_eqb ip (js "localhost").

(** The test of one entry in the loop over the CIDR ranges. *)
Definition cidr_match (ip allowed : jsstring) : bool :=
  existsb (fun c => c =? chr "/") allowed
  && match split_on (chr "/") allowed with
     | network :: prefix :: _ =>
         startsWith ip
           (join (js ".")
                 (slice_eighth (split_on (chr ".") network) (parseInt prefix)))
     | _ => false
     end.

Definition isIpAllowed (ALLOWED_IPS : list jsstring) (ip : jsstring) : bool :=
  if includes ALLOWED_IPS (js "*") then true
  else if includes ALLOWED_IPS ip then true
  else if str_eqb ip (js "::1") || str_eqb ip (js "127.0.0.1")
          || str_eqb ip (js "localhost")
  then existsb (fun allowed =>
                  str_eqb allowed (js "127.0.0.1") || str_eqb allowed (js "::1")
                  || str_eqb allowed (js "localhost")) ALLOWED_IPS
  else existsb (cidr_match ip) ALLOWED_IPS.

Inductive Method := GET | POST | DELETE | OTHER.

Record Request := {
  req_method : Method;
  req_path : jsstring;
  x_forwarded_for : option jsstring;
  x_real_ip : option jsstring;
  connection_remoteAddress : option jsstring;
  socket_remoteAddress : option jsstring;
  req_ip : option jsstring
}.

Definition getClientIp (req : Request) : jsstring :=
  or_default
    (or_else
       (match x_forwarded_for req with
        | Some h =>
            match split_on (chr ",") h with
            | first :: _ => Some (trim first)
            | [] => None
            end
        | None => None
        end)
       (or_else (x_real_ip req)
          (or_else (connection_remoteAddress req)
             (or_else (socket_remoteAddress req) (req_ip req)))))
    (js "unknown").

Inductive LastUpdated := Never | UpdatedAt (t : Z).

(** The fields of [getCacheStats] other than the formatted cache size. *)
Record Stats := {
  stat_feeds : nat;
  stat_articles : nat;
  stat_images : nat;
  stat_lastUpdated : LastUpdated
}.

Inductive Body :=
| ErrorBody (error : jsstring)
| MessageBody (message : jsstring)
| StatusBody (stats : Stats) (feedStatus : gmap jsstring SourceStatus)
| FeedsBody (snapshot : Snapshot).

Record Response := { status : nat; body : Body }.

(** The paths the gate lets through unchecked. *)
Definition always_allowed (path : jsstring) : bool :=
  startsWith path (js "/images/") || endsWith path (js ".html")
  || endsWith path (js ".css") || endsWith path (js ".js").

(** [Some] response when the gate answers, [None] when it calls [next()]. *)
Definition ipAllowListMiddleware (ALLOWED_IPS : list jsstring) (req : Request)
  : option Response :=
  if always_allowed (req_path req) then None
  else
    let clientIp := getClientIp req in
    if negb (isIpAllowed ALLOWED_IPS clientIp)
    then Some {| status := 403; body := ErrorBody (js "Access denied") |}
    else None.

(** ** The cache store and the routes *)

Definition getCacheStats (env : Env) (cfg : Config) (w : World) : Stats :=
  {| stat_feeds := length (feeds cfg);
     stat_articles := length (items (cachedFeeds w));
     stat_images :=
       match images_dir w with
       | Some d => if readdir_ok env then size d else 0%nat
       | None => 0%nat
       end;
     stat_lastUpdated :=
       match lastUpdated (cachedFeeds w) with
       | Some t => UpdatedAt t
       | None => Never
       end |}.

(** [fs.readdirSync(IMAGES_DIR)] *)
Definition readdir_images (env : Env) : M (list jsstring) :=
  fun w =>
    match images_dir w with
    | Some d =>
        if readdir_ok env then (Ret (elements d), w)
        else (Throw (js "readdir failed"), w)
    | None => (Throw (js "ENOENT"), w)
    end.

(** [fs.unlinkSync(path.join(IMAGES_DIR, file))] *)
Definition unlink_image (env : Env) (file : jsstring) : M unit :=
  fun w =>
    if unlink_ok env file
    then (Ret tt,
          set_images (match images_dir w with
                      | Some d => Some (d ∖ {[file]})
                      | None => None
                      end) w)
    else (Throw (js "unlink failed"), w).

Fixpoint unlink_images (env : Env) (files : list jsstring) : M unit :=
  match files with
  | [] => ret tt
  | file :: rest =>
      let* removed := unlink_image env file in
      unlink_images env rest
  end.

(** [fs.unlinkSync(FEED_CACHE_FILE)] *)
Definition unlink_cache_file (env : Env) : M unit :=
  fun w =>
    if unlink_cache_ok env then (Ret tt, set_cache_file None w)
    else (Throw (js "unlink failed"), w).

(** The [try] block of the [DELETE /api/cache] route. *)
Definition clear_cache (env : Env) : M Response :=
  let* dir_removed :=
    (fun w =>
       match images_dir w with
       | Some _ => (let* files := readdir_images env in
                    unlink_images env files) w
       | None => (Ret tt, w)
       end) in
  let* file_removed :=
    (fun w =>
       match cache_file w with
       | Some _ => unlink_cache_file env w
       | None => (Ret tt, w)
       end) in
  let* reset := (fun w => (Ret tt, set_cachedFeeds empty_snapshot w)) in
  ret {| status := 200; body := MessageBody (js "Cache cleared successfully") |}.

Definition route_delete_cache (env : Env) : M Response :=
  try_catch (clear_cache env)
            (fun message => ret {| status := 500; body := ErrorBody message |}).

Definition route_status (env : Env) (cfg : Config) (w : World) : Response :=
  {| status := 200;
     body := StatusBody (getCacheStats env cfg w) (feedStatus (cachedFeeds w)) |}.

Definition route_feeds (w : World) : Response :=
  {| status := 200; body := FeedsBody (cachedFeeds w) |}.

(** [POST /api/refresh]: the call to [fetchAllFeeds()] is not awaited. *)
Definition route_refresh (s : Server) : Response * Server :=
  if isRefreshing (world s)
  then ({| status := 409; body := ErrorBody (js "Refresh already in progress") |},
        s)
  else ({| status := 200; body := MessageBody (js "Refresh started") |},
        fst (enter_cycle s)).

(** The endpoints of [shared/api/endpoints.js]. *)
Definition FEEDS : jsstring := js "/api/feeds".
Definition STATUS : jsstring := js "/api/status".
Definition REFRESH : jsstring := js "/api/refresh".
Definition CACHE : jsstring := js "/api/cache".

(** One request through the gate and the API routes; [None] when no API
    route answers and the request is left to the static file handlers. *)
Definition handle (env : Env) (cfg : Config) (ALLOWED_IPS : list jsstring)
    (req : Request) (s : Server) : option Response * Server :=
  match ipAllowListMiddleware ALLOWED_IPS req with
  | Some denied => (Some denied, s)
  | None =>
      match req_method req with
      | GET =>
          if str_eqb (req_path req) FEEDS then (Some (route_feeds (world s)), s)
          else if str_eqb (req_path req) STATUS
          then (Some (route_status env cfg (world s)), s)
          else (None, s)
      | POST =>
          if str_eqb (req_path req) REFRESH
          then (Some (fst (route_refresh s)), snd (route_refresh s))
          else (None, s)
      | DELETE =>
          if str_eqb (req_path req) CACHE then
            match route_delete_cache env (world s) with
            | (Ret r, w') => (Some r, {| world := w'; running := running s |})
            | (Throw _, w') => (None, {| world := w'; running := running s |})
            end
          else (None, s)
      | OTHER => (None, s)
      end
  end.

(** What can happen to the server. *)
Inductive Event :=
| Call_fetchAllFeeds
| Cycle_completes
| Incoming (req : Request).

Definition step (env : Env) (cfg : Config) (ALLOWED_IPS : list jsstring)
    (ev : Event) (s : Server) : Server :=
  match ev with
  | Call_fetchAllFeeds => fst (enter_cycle s)
  | Cycle_completes => complete_cycle env cfg s
  | Incoming req => snd (handle env cfg ALLOWED_IPS req s)
  end.

(** The states the server can be in: it starts idle. *)
Inductive reachable (env : Env) (cfg : Config) (ALLOWED_IPS : list jsstring)
  : Server -> Prop :=
| reach_init w :
    isRefreshing w = false ->
    reachable env cfg ALLOWED_IPS {| world := w; running := 0 |}
| reach_step ev s :
    reachable env cfg ALLOWED_IPS s ->
    reachable env cfg ALLOWED_IPS (step env cfg ALLOWED_IPS ev s).

(** The allow-list rule as the code has it. *)
Definition allow_rule (ALLOWED_IPS : list jsstring) (ip : jsstring) : Prop :=
  js "*" ∈ ALLOWED_IPS
  \/ ip ∈ ALLOWED_IPS
  \/ (is_localhost ip = true /\ exists a, a ∈ ALLOWED_IPS /\ is_localhost a = true)
  \/ (is_localhost ip = false
      /\ exists a, a ∈ ALLOWED_IPS /\ cidr_match ip a = true).

(** A decimal number of at most [bound], written with digits only. *)
Definition decimal_upto (bound : Z) (s : jsstring) : option Z :=
  if truthy s && forallb (fun c => (48 <=? c) && (c <=? 57)) s then
    match parse_digits 10 None s with
    | Some n => if (n <=? bound)%Z then Some n else None
    | None => None
    end
  else None.

(** A dotted IPv4 address as a 32-bit number. *)
Definition ipv4 (s : jsstring) : option Z :=
  match map (decimal_upto 255) (split_on (chr ".") s) with
  | [Some a; Some b; Some c; Some d] =>
      Some (((a * 256 + b) * 256 + c) * 256 + d)%Z
  | _ => None
  end.

(** The CIDR match as the specification words it, read as the notation
    means: the entry is [network/prefix] with an IPv4 network and a prefix
    length from 0 to 32, and the address is an IPv4 address whose leading
    [prefix] bits are those of the network. *)
Definition spec_cidr_match (ip allowed : jsstring) : bool :=
  match split_on (chr "/") allowed with
  | [network; prefix] =>
      match ipv4 ip, ipv4 network, decimal_upto 32 prefix with
      | Some i, Some n, Some len =>
          (Z.shiftr i (32 - len) =? Z.shiftr n (32 - len))%Z
      | _, _, _ => false
      end
  | _ => false
  end.

(** The rule as the specification words it: exact match, loopback alias
    with a loopback entry, or CIDR match, for every address alike. *)
Definition spec_allow_rule (ALLOWED_IPS : list jsstring) (ip : jsstring)
  : Prop :=
  js "*" ∈ ALLOWED_IPS
  \/ ip ∈ ALLOWED_IPS
  \/ (is_localhost ip = true /\ exists a, a ∈ ALLOWED_IPS /\ is_localhost a = true)
  \/ (exists a, a ∈ ALLOWED_IPS /\ spec_cidr_match ip a = true).

(** A file-system operation of the cache clear fails. *)
Definition clear_fails (env : Env) (w : World) : Prop :=
  (exists d, images_dir w = Some d
             /\ (readdir_ok env = false
                 \/ exists f, f ∈ d /\ unlink_ok env f = false))
  \/ (cache_file w <> None /\ unlink_cache_ok env = false).

(** ** Order of the published items *)

(** Newest first. *)
Definition newest_first (l : list FeedItem) : Prop :=
  StronglySorted (fun a b => (pubDate b <= pubDate a)%Z) l.

(** The items of [l] dated [t], in the order they have in [l]. *)
Definition dated (t : Z) (l : list FeedItem) : list FeedItem :=
  List.filter (fun i => (pubDate i =? t)%Z) l.

(** The items the sources returned, in the order of the configuration. *)
Definition merged (results : list ProcessResult) : list FeedItem :=
  concat (map res_items results).

(** ** What the patterns accept

    The set of texts a pattern can match, used to reason about the matcher
    without following its search order. *)
Inductive lang : regex -> jsstring -> Prop :=
| lang_eps : lang REps []
| lang_char p c : p c = true -> lang (RChar p) [c]
| lang_star p m : Forall (fun c => p c = true) m -> lang (RStar p) m
| lang_opt_skip p : lang (ROpt p) []
| lang_opt_take p c : p c = true -> lang (ROpt p) [c]
| lang_seq r1 r2 m1 m2 :
    lang r1 m1 -> lang r2 m2 -> lang (RSeq r1 r2) (m1 ++ m2)
| lang_alt_l r1 r2 m : lang r1 m -> lang (RAlt r1 r2) m
| lang_alt_r r1 r2 m : lang r2 m -> lang (RAlt r1 r2) m
| lang_cap r m : lang r m -> lang (RCap r) m.

(** A global replacement leaves [s] alone when, at every position, the
    pattern finds nothing or finds one code unit equal to the replacement. *)
Fixpoint fixed_by (r : regex) (rep : jsstring) (s : jsstring) : Prop :=
  match s with
  | [] => match_len r [] = None
  | c :: s' =>
      (match_len r s = None \/ (match_len r s = Some 1%nat /\ rep = [c]))
      /\ fixed_by r rep s'
  end.

(** An HTML tag as the source recognises one: a [<], at least one code unit
    other than [>], then a [>].  [tag_starts] looks for one at the head. *)
Definition tag_starts (s : jsstring) : bool :=
  match s with
  | c :: d :: u =>
      if c =? chr "<" then
        if not_gt d then existsb (fun e => e =? chr ">") u else false
      else false
  | _ => false
  end.

Fixpoint has_tag (s : jsstring) : bool :=
  match s with
  | [] => false
  | _ :: s' => if tag_starts s then true else has_tag s'
  end.

(** White space that the normalisation would rewrite: a tab, two blanks in a
    row, a blank next to a newline, three newlines in a row. *)
Fixpoint tidy (s : jsstring) : bool :=
  match s with
  | [] => true
  | c :: s' =>
      negb (c =? TAB)
      && match s' with
         | [] => true
         | d :: u =>
             negb (sp_tab c && sp_tab d)
             && negb (newline c && sp_tab d)
             && negb (sp_tab c && newline d)
             && negb (newline c && newline d
                      && match u with e :: _ => newline e | [] => false end)
         end
      && tidy s'
  end.

(** No white space at either end. *)
Definition trimmed (s : jsstring) : bool :=
  match s, reverse s with
  | c :: _, d :: _ => negb (is_space c) && negb (is_space d)
  | _, _ => true
  end.

(** A pattern whose every match has the shape of a tag. *)
Definition tag_shaped (r : regex) : Prop :=
  forall m, lang r m ->
    exists d u, m = chr "<" :: d :: u /\ not_gt d = true
                /\ existsb (fun e => e =? chr ">") u = true.

(** The flag is up exactly while one cycle is under way. *)
Definition flag_matches (s : Server) : Prop :=
  running s = if isRefreshing (world s) then 1%nat else 0%nat.

(** ** The image chain as a list of matchers

    The matchers in the order of the specification, each with the field it
    reads; the first one that finds something wins. *)
Fixpoint first_match (chain : list (regex * option jsstring)) : option jsstring :=
  match chain with
  | [] => None
  | (r, Some text) :: rest =>
      match match_group1 r text with
      | Some u => Some u
      | None => first_match rest
      end
  | (_, None) :: rest => first_match rest
  end.

Definition image_matchers (entry : Entry) : list (regex * option jsstring) :=
  [ (re_img_src, e_description entry);
    (re_og_image, e_description entry);
    (re_twitter_image, e_description entry);
    (re_wp_image, e_description entry);
    (re_img_ext, e_description entry);
    (re_img_src, e_content entry) ].

(** ** An environment for the examples *)

Module Sample.

Definition hex_digit (c : N) : N :=
  let d := c mod 16 in if d <? 10 then 48 + d else 87 + d.

(** A stand-in for MD5: 32 hexadecimal digits computed from the text. *)
Definition hash (u : jsstring) : jsstring :=
  map hex_digit (take 32 (u ++ repeat 0 32)).

Fixpoint until_slash (s : jsstring) : jsstring * jsstring :=
  match s with
  | [] => ([], [])
  | c :: s' =>
      if c =? chr "/" then ([], s)
      else let '(h, p) := until_slash s' in (c :: h, p)
  end.

(** Absolute http(s) URLs only. *)
Definition parse (u : jsstring) : option URL :=
  if startsWith u (js "https://") then
    let '(host, p) := until_slash (drop 8 u) in
    Some {| url_origin := js "https://" ++ host;
            url_pathname := if truthy p then p else js "/" |}
  else if startsWith u (js "http://") then
    let '(host, p) := until_slash (drop 7 u) in
    Some {| url_origin := js "http://" ++ host;
            url_pathname := if truthy p then p else js "/" |}
  else None.

Fixpoint ext_go (s : jsstring) (acc : jsstring) : jsstring :=
  match s with
  | [] => acc
  | c :: s' =>
      if c =? chr "/" then ext_go s' []
      else if c =? chr "." then ext_go s' (c :: s')
      else ext_go s' acc
  end.

(** From the last dot of the last path component. *)
Definition ext (p : jsstring) : jsstring := ext_go p [].

Definition midnight : Z := 1704067200000.
Definition midnight_iso : jsstring := js "2024-01-01T00:00:00.000Z".

Definition parse_date (s : jsstring) : option Z :=
  if str_eqb s midnight_iso then Some midnight
  else if str_eqb s (js "2023-12-31T00:00:00.000Z")
  then Some (midnight - 86400000)%Z
  else if str_eqb s (js "2024-01-01T01:00:00.000Z")
  then Some (midnight + 3600000)%Z
  else None.

Definition env (feed : jsstring -> FeedResult)
    (article : jsstring -> ArticleResult)
    (net : jsstring -> FetchResult) : Env :=
  {| md5_hex := hash;
     parse_url := parse;
     extname := ext;
     date_parse := parse_date;
     toISOString := fun _ => midnight_iso;
     now := midnight;
     net_fetch := net;
     write_ok := fun _ => true;
     readdir_ok := true;
     unlink_ok := fun _ => true;
     unlink_cache_ok := true;
     save_ok := true;
     extractFeed := feed;
     extractArticle := article |}.

Definition world : World :=
  {| images_dir := Some ∅; cache_file := None; cachedFeeds := empty_snapshot;
     isRefreshing := false; requests := [] |}.

Definition entry (published : option jsstring) (descr : jsstring) : Entry :=
  {| e_title := Some (js "Advisory");
     e_link := Some (js "https://news.example/a/1");
     e_description := Some descr;
     e_content := None;
     e_published := published;
     e_updated := None |}.

Definition feed : Feed :=
  {| name := js "Example Feed"; url := js "https://news.example/feed";
     icon := js "https://news.example/favicon.ico" |}.

Definition online : jsstring -> FetchResult :=
  fun _ => FetchResolves true (Some [137; 80; 78; 71]).

Definition no_article : jsstring -> ArticleResult := fun _ => ArticleNull.

Definition feed_down : Feed :=
  {| name := js "Down Feed"; url := js "https://down.example/feed";
     icon := js "https://down.example/favicon.ico" |}.

Definition feed_other : Feed :=
  {| name := js "Other Feed"; url := js "https://other.example/feed";
     icon := js "https://other.example/favicon.ico" |}.

(** One feed times out, the others have one entry each. *)
Definition one_down (u : jsstring) : FeedResult :=
  if str_eqb u (js "https://down.example/feed")
  then FeedThrows (js "Request timed out")
  else FeedOk [entry (Some midnight_iso) (js "<p>Patch now</p>")].

Definition item_at (t : Z) (n : string) : FeedItem :=
  {| id := {| id_feed := js n; id_time := midnight; id_index := 0 |};
     title := js n; link := js "#"; description := []; fullText := [];
     pubDate := t; source := js n; sourceIcon := []; image := None;
     author := None |}.

(** Three sources with one entry each, dated T, T - 1 day, T + 1 hour. *)
Definition three_dates (u : jsstring) : FeedResult :=
  if str_eqb u (js "https://news.example/feed")
  then FeedOk [entry (Some midnight_iso) (js "<p>first</p>")]
  else if str_eqb u (js "https://down.example/feed")
  then FeedOk [entry (Some (js "2023-12-31T00:00:00.000Z")) (js "<p>second</p>")]
  else FeedOk [entry (Some (js "2024-01-01T01:00:00.000Z")) (js "<p>third</p>")].

Definition three_sources : Config :=
  {| feeds := [feed; feed_down; feed_other]; maxItemsPerFeed := 5 |}.

(** A server that has published one item and cached two files. *)
Definition populated : World :=
  {| images_dir := Some ({[js "0a1b.png"]} ∪ {[js "favicon-example-feed.ico"]});
     cache_file :=
       Some {| lastUpdated := Some midnight; items := [item_at midnight "a"];
               feedStatus := ∅; feedTimestamps := ∅ |};
     cachedFeeds :=
       {| lastUpdated := Some midnight; items := [item_at midnight "a"];
          feedStatus := ∅; feedTimestamps := ∅ |};
     isRefreshing := false;
     requests := [] |}.

(** The same environment on a file system that refuses deletions. *)
Definition read_only (e : Env) : Env :=
  {| md5_hex := md5_hex e; parse_url := parse_url e; extname := extname e;
     date_parse := date_parse e; toISOString := toISOString e; now := now e;
     net_fetch := net_fetch e; write_ok := fun _ => false;
     readdir_ok := readdir_ok e; unlink_ok := fun _ => false;
     unlink_cache_ok := false; save_ok := false;
     extractFeed := extractFeed e; extractArticle := extractArticle e |}.

(** A request for the feeds coming from the loopback address. *)
Definition from_loopback : Request :=
  {| req_method := GET; req_path := js "/api/feeds";
     x_forwarded_for := None; x_real_ip := None;
     connection_remoteAddress := Some (js "127.0.0.1");
     socket_remoteAddress := Some (js "127.0.0.1");
     req_ip := Some (js "127.0.0.1") |}.

(** A request for the feeds through a proxy, from a private address. *)
Definition from_lan : Request :=
  {| req_method := GET; req_path := js "/api/feeds";
     x_forwarded_for := Some (js "10.10.1.7, 172.16.0.1"); x_real_ip := None;
     connection_remoteAddress := Some (js "127.0.0.1");
     socket_remoteAddress := Some (js "127.0.0.1");
     req_ip := Some (js "127.0.0.1") |}.

(** A description with an image tag and an og:image meta tag. *)
Definition two_images : jsstring :=
  js "<meta property='og:image' content='https://cdn.example/og.png'><p>Text <img alt='x' src='https://cdn.example/inline.png'></p>".

(** A plain body of 5,000 code units. *)
Definition plain_body : jsstring :=
  mjoin (repeat (js "Patch it now" ++ [NL]) 384) ++ js "(x < y).".

End Sample.

(** ** The request log *)

Record LogEntry := {
  log_timestamp : Z;
  log_ip : jsstring;
  log_method : Method;
  log_path : jsstring;
  log_userAgent : jsstring
}.

Definition MAX_LOG_ENTRIES : nat := 100.

(** [logRequest]: the entry goes to the front and the last entry is popped
    once the log is over its maximum; [user_agent] is the request's
    [user-agent] header. *)
Definition logRequest (env : Env) (user_agent : option jsstring) (req : Request)
    (requestLog : list LogEntry) : list LogEntry :=
  let logEntry :=
    {| log_timestamp := now env;
       log_ip := getClientIp req;
       log_method := req_method req;
       log_path := req_path req;
       log_userAgent := substring0 50 (or_default user_agent (js "Unknown")) |} in
  let log := logEntry :: requestLog in
  if (MAX_LOG_ENTRIES <? length log)%nat then removelast log else log.

(** The log after a sequence of requests that reach [logRequest] (it is
    mounted behind the gate, so these are the requests the gate passed),
    oldest request first. *)
Definition log_requests (env : Env) (reqs : list (option jsstring * Request))
  : list LogEntry :=
  fold_left (fun log r => logRequest env (fst r) (snd r) log) reqs [].

(** ** The size of the cache directory *)

(** What [getDirectorySize] meets on disk: a file, a directory with its
    entries in the order [readdirSync] lists them, a directory that
    [readdirSync] cannot read, an entry that [statSync] cannot stat. *)
Inductive FsNode :=
| FsFile (size : N)
| FsDir (entries : list FsNode)
| FsUnreadable
| FsUnstatable.

(** [getDirectorySize]: the [try] spans the whole loop, so an entry that
    cannot be examined ends the loop with what was summed before it. *)
Fixpoint getDirectorySize (dir : FsNode) : N :=
  match dir with
  | FsDir entries =>
      (fix loop (l : list FsNode) : N :=
         match l with
         | [] => 0
         | FsUnstatable :: _ => 0
         | FsFile size :: rest => size + loop rest
         | d :: rest => getDirectorySize d + loop rest
         end) entries
  | _ => 0
  end.

(** The bytes of all the files under a node. *)
Fixpoint total_bytes (n : FsNode) : N :=
  match n with
  | FsFile size => size
  | FsDir entries =>
      (fix sum (l : list FsNode) : N :=
         match l with
         | [] => 0
         | e :: rest => total_bytes e + sum rest
         end) entries
  | _ => 0
  end.

(** Every directory can be read and every entry examined. *)
Fixpoint fs_healthy (n : FsNode) : bool :=
  match n with
  | FsFile _ => true
  | FsDir entries =>
      (fix all (l : list FsNode) : bool :=
         match l with
         | [] => true
         | e :: rest => fs_healthy e && all rest
         end) entries
  | _ => false
  end.

(** ** Start of the process *)

Definition FETCH_INTERVAL : Z := 10 * 60 * 1000.

(** [loadCache]: the persisted snapshot replaces the one in memory; when the
    file is missing, or cannot be read or parsed ([readable] false), the
    snapshot in memory stays. *)
Definition loadCache (readable : bool) (w : World) : World :=
  match cache_file w with
  | Some data => if readable then set_cachedFeeds data w else w
  | None => w
  end.

(** The test of the [app.listen] callback: fetch at once when there is no
    snapshot, no item, or the snapshot is older than the interval. *)
Definition startup_fetches (env : Env) (w : World) : bool :=
  match lastUpdated (cachedFeeds w) with
  | None => true
  | Some t =>
      if (length (items (cachedFeeds w)) =? 0)%nat then true
      else (FETCH_INTERVAL <? now env - t)%Z
  end.

Definition startup (env : Env) (cfg : Config) (readable : bool) (w : World)
  : World :=
  let w1 := loadCache readable w in
  if startup_fetches env w1 then snd (fetchAllFeeds env cfg w1) else w1.

(** A new process on the same disk: the module variables have their initial
    values, the files are the ones left behind. *)
Definition restart (w : World) : World :=
  {| images_dir := images_dir w; cache_file := cache_file w;
     cachedFeeds := empty_snapshot; isRefreshing := false; requests := [] |}.

(** ** The image helpers of the front end ([src/utils/imageUtils.js]) *)

(** [getBackendImageUrl]; [backend] is [import.meta.env.VITE_BACKEND_URL]. *)
Definition getBackendImageUrl (backend : option jsstring)
    (imagePath : option jsstring) : option jsstring :=
  match imagePath with
  | None => None
  | Some path =>
      if negb (truthy path) then None
      else if startsWith path (js "http://") || startsWith path (js "https://")
      then Some path
      else if startsWith path (js "/images/") then
        let backendUrl := or_default backend [] in
        if truthy backendUrl then Some (backendUrl ++ path) else Some path
      else Some path
  end.

(** [isCachedImage], as a truth value. *)
Definition isCachedImage (u : option jsstring) : bool :=
  match u with
  | Some s => truthy s && startsWith s (js "/images/")
  | None => false
  end.

(** ** Shapes of texts and states used in the properties *)

(** No white space at the start. *)
Definition starts_clean (s : jsstring) : Prop :=
  match s with
  | c :: _ => is_space c = false
  | [] => True
  end.

(** The length of the run of code units of the class [p] at the start. *)
Fixpoint run_length (p : N -> bool) (s : jsstring) : nat :=
  match s with
  | c :: s' => if p c then S (run_length p s') else O
  | [] => O
  end.

(** Every white-space code unit is a plain space and is followed by a code
    unit that is not white space, when one follows. *)
Fixpoint single_spaced (s : jsstring) : bool :=
  match s with
  | [] => true
  | c :: s' =>
      (if is_space c
       then (c =? SP)
            && match s' with d :: _ => negb (is_space d) | [] => true end
       else true)
      && single_spaced s'
  end.

(** The image URL an item is built with: a URL that starts with a slash is
    put after the origin of the article, when the link of the article is a
    URL. *)
Definition resolve_image (env : Env) (articleLink best : jsstring) : jsstring :=
  if startsWith best (js "/") then
    match parse_url env articleLink with
    | Some u => url_origin u ++ best
    | None => best
    end
  else best.

(** The date of the raw entry is one [new Date] accepts. *)
Definition date_parses (env : Env) (rawItem : RawItem) : bool :=
  match date_parse env (raw_pubDate rawItem) with
  | Some _ => true
  | None => false
  end.

(** [articleContent.image || rawItem.image], put after the origin of the
    article when it starts with a slash: the [bestImage] of one turn of the
    loop of [processFeed]. *)
Definition best_image (env : Env) (rawItem : RawItem) : option jsstring :=
  match or_else (ac_image (extractArticleContent env (raw_link rawItem)))
                (raw_image rawItem) with
  | Some best => Some (resolve_image env (raw_link rawItem) best)
  | None => None
  end.

(** The [cachedImageUrl] of one turn: what [cacheImage] returns for the best
    image in the state of that turn, and null when there is no image. *)
Definition cache_best (env : Env) (rawItem : RawItem) : M (option jsstring) :=
  match best_image env rawItem with
  | Some u => cacheImage env u
  | None => ret None
  end.

(** The fields of an item built from a raw entry, its position apart, where
    [cachedIcon] is what [cacheFavicon] returned for the source and
    [cachedImageUrl] what [cacheImage] returned for the image of the entry:
    [sourceIcon] is [cachedIcon || feed.icon] and [image] is
    [cachedImageUrl || bestImage]. *)
Definition built_from (env : Env) (feed : Feed)
    (cachedIcon cachedImageUrl : option jsstring)
    (rawItem : RawItem) (item : FeedItem) : Prop :=
  id_feed (id item) = name feed
  /\ id_time (id item) = now env
  /\ title item = raw_title rawItem
  /\ link item = raw_link rawItem
  /\ description item = substring0 300 (stripHtml (Some (raw_description rawItem)))
  /\ date_parse env (raw_pubDate rawItem) = Some (pubDate item)
  /\ source item = name feed
  /\ sourceIcon item = or_default cachedIcon (icon feed)
  /\ image item = or_else cachedImageUrl (best_image env rawItem)
  /\ fullText item
     = or_default (ac_fullText (extractArticleContent env (raw_link rawItem)))
                  (stripHtml (Some (raw_description rawItem)))
  /\ author item
     = or_else (ac_author (extractArticleContent env (raw_link rawItem))) None.

(** The loop of [processFeed] from one state to another, with [pushed] items
    in the array when it starts: the image of every entry is cached in turn,
    in the state the turns before it left, and an entry whose date parses is
    pushed with what the cache returned at its turn, while an entry whose
    date does not parse is passed over after its image was cached. *)
Inductive built_in_turn (env : Env) (feed : Feed) (cachedIcon : option jsstring)
  : World -> nat -> list RawItem -> list FeedItem -> World -> Prop :=
| turn_done w pushed :
    built_in_turn env feed cachedIcon w pushed [] [] w
| turn_pushed w pushed rawItem rest cachedImageUrl w1 item items w2 :
    cache_best env rawItem w = (Ret cachedImageUrl, w1) ->
    built_from env feed cachedIcon cachedImageUrl rawItem item ->
    id_index (id item) = pushed ->
    built_in_turn env feed cachedIcon w1 (S pushed) rest items w2 ->
    built_in_turn env feed cachedIcon w pushed (rawItem :: rest) (item :: items) w2
| turn_skipped w pushed rawItem rest cachedImageUrl w1 items w2 :
    cache_best env rawItem w = (Ret cachedImageUrl, w1) ->
    date_parse env (raw_pubDate rawItem) = None ->
    built_in_turn env feed cachedIcon w1 pushed rest items w2 ->
    built_in_turn env feed cachedIcon w pushed (rawItem :: rest) items w2.

(** ** The feed reader

    [extractFeed] is the reader of the package [@extractus/feed-extractor].
    [parseFeed] gives it a timeout and request headers and leaves its reading
    options at their defaults, under which the reader normalises the
    entries: the publish date of an entry goes through the reader's
    [toISODateString], which gives the ISO form of the date of the feed when
    [new Date] accepts it and the empty string when the date is missing or
    is not accepted, and the entries carry no [updated] field. *)
Definition toISODateString (env : Env) (dstr : option jsstring) : jsstring :=
  match dstr with
  | Some d =>
      if truthy d then
        match date_parse env d with
        | Some t => toISOString env t
        | None => []
        end
      else []
  | None => []
  end.

(** [entry] is what the reader delivers for an entry that the feed dates
    [dstr]. *)
Definition delivered (env : Env) (dstr : option jsstring) (entry : Entry) : Prop :=
  e_published entry = Some (toISODateString env dstr)
  /\ e_updated entry = None.

(** What a cycle can rely on in the result of one source. *)
Definition result_of (env : Env) (feed : Feed) (r : ProcessResult) : Prop :=
  res_feedName r = name feed
  /\ Forall (fun item => id_feed (id item) = name feed /\ source item = name feed)
            (res_items r)
  /\ (forall k item, res_items r !! k = Some item -> id_index (id item) = k)
  /\ match extractFeed env (url feed) with
     | FeedThrows message =>
         r = {| res_success := false; res_feedName := name feed;
                res_error := Some message; res_items := [] |}
     | _ => res_success r = true /\ res_error r = None
     end.

(** The status and timestamp maps are plain objects: an assignment under a
    name makes a key of it, except under [__proto__], which sets the prototype
    of the object and makes no key.  The finite maps of the model stand for
    these objects when no source has that name. *)
Definition proto_free (names : list jsstring) : Prop :=
  includes names (js "__proto__") = false.

(** The snapshot a cycle builds from the results of its sources. *)
Definition cycle_snapshot (env : Env) (results : list ProcessResult) : Snapshot :=
  {| lastUpdated := Some (now env);
     items := js_sort by_date_desc (snd (collect env results));
     feedStatus := fst (fst (collect env results));
     feedTimestamps := snd (fst (collect env results)) |}.

(** Processing sources does not touch the published snapshot, the persisted
    one or the flag; it only adds files and requests. *)
Definition only_caches (w w' : World) : Prop :=
  cachedFeeds w' = cachedFeeds w
  /\ cache_file w' = cache_file w
  /\ isRefreshing w' = isRefreshing w
  /\ (exists more, requests w' = more ++ requests w)
  /\ match images_dir w, images_dir w' with
     | Some d, Some d' => d ⊆ d'
     | None, None => True
     | _, _ => False
     end.

(** The snapshot of a cycle in which every source failed. *)
Definition all_failed (message : Feed -> jsstring) (l : list Feed)
  : list ProcessResult :=
  map (fun feed => {| res_success := false; res_feedName := name feed;
                      res_error := Some (message feed); res_items := [] |}) l.

(** ** More sample data *)

Module Fixture.

(** Six entries; the second has a date that does not parse. *)
Definition six_entries : list Entry :=
  [ Sample.entry (Some Sample.midnight_iso) (js "<p>one</p>");
    Sample.entry (Some (js "yesterday-ish")) (js "<p>two</p>");
    Sample.entry (Some (js "2023-12-31T00:00:00.000Z")) (js "<p>three</p>");
    Sample.entry None (js "<p>four <img src='/img/4.png'></p>");
    Sample.entry (Some (js "2024-01-01T01:00:00.000Z")) (js "<p>five</p>");
    Sample.entry (Some Sample.midnight_iso) (js "<p>six</p>") ].

Definition env : Env :=
  Sample.env (fun _ => FeedOk six_entries) Sample.no_article Sample.online.

(** Every source is down. *)
Definition outage : Env :=
  Sample.env (fun _ => FeedThrows (js "Request timed out")) Sample.no_article
             Sample.online.

(** The environment a while later. *)
Definition later (minutes : Z) (e : Env) : Env :=
  {| md5_hex := md5_hex e; parse_url := parse_url e; extname := extname e;
     date_parse := date_parse e; toISOString := toISOString e;
     now := (now e + minutes * 60000)%Z;
     net_fetch := net_fetch e; write_ok := write_ok e;
     readdir_ok := readdir_ok e; unlink_ok := unlink_ok e;
     unlink_cache_ok := unlink_cache_ok e; save_ok := save_ok e;
     extractFeed := extractFeed e; extractArticle := extractArticle e |}.

End Fixture.

(* ================================================================= *)
(** * Properties *)

Example ex_img : match_group1 re_img_src (js "<p>x</p><IMG alt='a' src='http://a/b.png' width='3'>") = Some (js "http://a/b.png").
Proof. vm_compute. reflexivity. Qed.

Example ex_wp_image_needs_backtracking :
  match_group1 re_img_src (js "<img class='x>wp-post-image' src='a.png'>") = None
  /\ match_group1 re_wp_image (js "<img class='x>wp-post-image' src='a.png'>")
     = Some (js "a.png")
  /\ match_group1 re_img_src (js "<img data-src='x' src='/a/b.JPEG'>")
     = Some (js "/a/b.JPEG").
Proof. vm_compute. repeat split. Qed.

Example ex_norm : normalize_content (js "<p>Hello   <b>world</b></p><p>next<br/>line</p> ") = js "Hello world" ++ [NL;NL] ++ js "next" ++ [NL] ++ js "line".
Proof. vm_compute. reflexivity. Qed.

(** ** The matcher only returns texts of the pattern *)

Lemma star_sound {A} p s (k : jsstring -> option A) a :
  star p s k = Some a ->
  exists m rest, s = m ++ rest /\ Forall (fun c => p c = true) m /\ k rest = Some a.
Proof.
  revert a. induction s as [|c s IH]; intros a H; simpl in H.
  - exists [], []. auto.
  - destruct (p c) eqn:Hc.
    + destruct (star p s k) eqn:Hs.
      * inversion H; subst. destruct (IH _ eq_refl) as (m & rest & -> & Hm & Hk).
        exists (c :: m), rest. repeat split; auto.
      * exists [], (c :: s). auto.
    + exists [], (c :: s). auto.
Qed.

Lemma bt_sound {A} r : forall s cap (k : jsstring -> option jsstring -> option A) a,
  bt r s cap k = Some a ->
  exists m rest cap', s = m ++ rest /\ lang r m /\ k rest cap' = Some a.
Proof.
  induction r as [|p|p|p|r1 IH1 r2 IH2|r1 IH1 r2 IH2|r IH]; intros s cap k a H; simpl in H.
  - exists [], s, cap. repeat split; auto. constructor.
  - destruct s as [|c s]; [discriminate|]. destruct (p c) eqn:Hc; [|discriminate].
    exists [c], s, cap. repeat split; auto. by constructor.
  - apply star_sound in H as (m & rest & -> & Hm & Hk).
    exists m, rest, cap. repeat split; auto. by constructor.
  - destruct s as [|c s].
    + exists [], [], cap. repeat split; auto. constructor.
    + destruct (p c) eqn:Hc.
      * destruct (k s cap) eqn:Hk.
        -- inversion H; subst. exists [c], s, cap. repeat split; auto. by constructor.
        -- exists [], (c :: s), cap. repeat split; auto. constructor.
      * exists [], (c :: s), cap. repeat split; auto. constructor.
  - apply IH1 in H as (m1 & rest1 & cap1 & -> & L1 & H).
    apply IH2 in H as (m2 & rest & cap2 & -> & L2 & H).
    exists (m1 ++ m2), rest, cap2. rewrite <- app_assoc. repeat split; auto.
    by constructor.
  - destruct (bt r1 s cap k) eqn:H1.
    + inversion H; subst. apply IH1 in H1 as (m & rest & cap' & -> & L & Hk).
      exists m, rest, cap'. repeat split; auto. by apply lang_alt_l.
    + apply IH2 in H as (m & rest & cap' & -> & L & Hk).
      exists m, rest, cap'. repeat split; auto. by apply lang_alt_r.
  - apply IH in H as (m & rest & cap' & -> & L & Hk).
    eexists m, rest, _. repeat split; eauto. by constructor.
Qed.

Lemma match_at_sound r s rest cap :
  match_at r s = Some (rest, cap) -> exists m, s = m ++ rest /\ lang r m.
Proof.
  unfold match_at. intros H. apply bt_sound in H as (m & rest' & cap' & -> & L & Hk).
  inversion Hk; subst. eauto.
Qed.

Lemma match_len_sound r s n :
  match_len r s = Some n -> exists m rest, s = m ++ rest /\ lang r m /\ n = length m.
Proof.
  unfold match_len. destruct (match_at r s) as [[rest cap]|] eqn:H; [|discriminate].
  intros [= <-]. apply match_at_sound in H as (m & -> & L).
  exists m, rest. repeat split; auto. rewrite length_app. lia.
Qed.

Lemma replace_all_fixed r rep s : fixed_by r rep s -> replace_all r rep s = s.
Proof.
  unfold replace_all. induction s as [|c s IH]; simpl.
  - intros ->. reflexivity.
  - intros [[H | [H ->]] Hs].
    + unfold fixed_by in Hs. simpl in H. rewrite H. f_equal. by apply IH.
    + simpl in H. rewrite H. simpl. f_equal. by apply IH.
Qed.

(** ** Tag patterns find nothing in a text without tags *)

Ltac inv_lang :=
  repeat match goal with
  | H : lang (RSeq _ _) _ |- _ => inversion H; subst; clear H
  | H : lang (RChar _) _ |- _ => inversion H; subst; clear H
  | H : lang REps _ |- _ => inversion H; subst; clear H
  | H : lang (RStar _) _ |- _ => inversion H; subst; clear H
  | H : lang (ROpt _) _ |- _ => inversion H; subst; clear H
  end.

Ltac unfold_re H :=
  cbv beta iota delta [seq lit_ci lit plus fold_right map list_ascii_of_string] in H.

Lemma ci_upper a c : ci a c = true -> to_upper c = to_upper (chr a).
Proof. unfold ci. by intros ?%N.eqb_eq. Qed.

Lemma to_upper_low c x : to_upper c = x -> (x < 65 \/ 90 < x) -> c = x.
Proof.
  unfold to_upper. destruct ((97 <=? c) && (c <=? 122)) eqn:E; [|done].
  apply andb_true_iff in E as [?%N.leb_le ?%N.leb_le]. lia.
Qed.

Lemma ci_is_lt c : ci "<" c = true -> c = chr "<".
Proof. intros H%ci_upper. apply to_upper_low in H; [done|]. vm_compute. left. done. Qed.

Lemma ci_is_gt c : ci ">" c = true -> c = chr ">".
Proof. intros H%ci_upper. apply to_upper_low in H; [done|]. vm_compute. left. done. Qed.

Lemma ci_not_gt a c :
  ci a c = true -> to_upper (chr a) <> chr ">" -> not_gt c = true.
Proof.
  intros H%ci_upper Hne. unfold not_gt. apply negb_true_iff, N.eqb_neq.
  intros ->. apply Hne. rewrite <- H. reflexivity.
Qed.

Lemma has_gt_end (u : jsstring) :
  existsb (fun e => e =? chr ">") (u ++ [chr ">"]) = true.
Proof. rewrite existsb_app. simpl. by rewrite orb_true_r. Qed.

Lemma has_gt_cons c (u : jsstring) :
  existsb (fun e => e =? chr ">") u = true ->
  existsb (fun e => e =? chr ">") (c :: u) = true.
Proof. simpl. intros ->. by rewrite orb_true_r. Qed.

Lemma has_gt_app (v u : jsstring) :
  existsb (fun e => e =? chr ">") u = true ->
  existsb (fun e => e =? chr ">") (v ++ u) = true.
Proof. rewrite existsb_app. intros ->. by rewrite orb_true_r. Qed.

Ltac tag_first :=
  assumption || (eapply ci_not_gt; [eassumption | by vm_compute]).

Ltac tag_last :=
  repeat (apply (has_gt_end []) || apply has_gt_end
          || apply has_gt_cons || apply has_gt_app).

Ltac tag_shape :=
  intros m H; unfold_re H; inv_lang;
  repeat match goal with
  | H : ci "<" _ = true |- _ => apply ci_is_lt in H; subst
  | H : ci ">" _ = true |- _ => apply ci_is_gt in H; subst
  | H : cs "<" _ = true |- _ => apply N.eqb_eq in H; subst
  | H : cs ">" _ = true |- _ => apply N.eqb_eq in H; subst
  end;
  cbn [app]; rewrite ?app_nil_r;
  eexists _, _; (split; [reflexivity | split; [tag_first | tag_last]]).

Lemma shaped_p_close : tag_shaped re_p_close.
Proof. unfold re_p_close. tag_shape. Qed.

Lemma shaped_p_open : tag_shaped re_p_open.
Proof. unfold re_p_open. tag_shape. Qed.

Lemma shaped_br : tag_shaped re_br.
Proof. unfold re_br. tag_shape. Qed.

Lemma shaped_div_close : tag_shaped re_div_close.
Proof. unfold re_div_close. tag_shape. Qed.

Lemma shaped_div_open : tag_shaped re_div_open.
Proof. unfold re_div_open. tag_shape. Qed.

Lemma shaped_tag : tag_shaped re_tag.
Proof. unfold re_tag. tag_shape. Qed.

Lemma tag_free_fixed r rep s :
  tag_shaped r -> has_tag s = false -> fixed_by r rep s.
Proof.
  intros Hr. induction s as [|c s IH]; cbn [has_tag fixed_by].
  - intros _. destruct (match_len r []) eqn:E; [|done].
    apply match_len_sound in E as (m & rest & Hs & L & _).
    apply Hr in L as (d & u & -> & _). discriminate.
  - destruct (tag_starts (c :: s)) eqn:Hc; [discriminate|].
    intros Hs. split; [|by apply IH]. left.
    destruct (match_len r (c :: s)) eqn:E; [|done]. exfalso.
    apply match_len_sound in E as (m & rest & Heq & L & _).
    apply Hr in L as (d & u & -> & Hd & Hu).
    injection Heq as -> ->. unfold tag_starts in Hc.
    rewrite N.eqb_refl, Hd, existsb_app, Hu in Hc. discriminate.
Qed.

(** ** White-space patterns leave a tidy text alone *)

Lemma blanks_fixed s : tidy s = true -> fixed_by re_blanks [SP] s.
Proof.
  induction s as [|c s IH]; [reflexivity|].
  intros H. cbn [tidy] in H.
  apply andb_true_iff in H as [H Hs]. apply andb_true_iff in H as [Htab H].
  split; [|by apply IH]. clear IH Hs.
  unfold match_len, match_at, re_blanks, plus. cbn [bt].
  destruct (sp_tab c) eqn:Hc; [|by left]. right.
  assert (c = SP) as ->.
  { unfold sp_tab in Hc. apply orb_true_iff in Hc as [?%N.eqb_eq | E]; [done|].
    rewrite E in Htab. discriminate. }
  split; [|done].
  destruct s as [|d u]; [reflexivity|]. cbn [star].
  destruct (sp_tab d); [cbn in H; discriminate|]. cbn [length]. f_equal. lia.
Qed.

Lemma nl_blanks_fixed s : tidy s = true -> fixed_by re_nl_blanks [NL] s.
Proof.
  induction s as [|c s IH]; [reflexivity|].
  intros H. cbn [tidy] in H.
  apply andb_true_iff in H as [H Hs]. apply andb_true_iff in H as [Htab H].
  split; [|by apply IH]. clear IH Hs. left.
  unfold match_len, match_at, re_nl_blanks, plus, seq. cbn [fold_right bt].
  destruct (newline c) eqn:Hc; [|done].
  destruct s as [|d u]; [done|].
  destruct (sp_tab d) eqn:Hd; [|done].
  rewrite !andb_true_r in H. cbn in H. rewrite !andb_false_r in H. discriminate.
Qed.

Lemma blanks_nl_fixed s : tidy s = true -> fixed_by re_blanks_nl [NL] s.
Proof.
  induction s as [|c s IH]; [reflexivity|].
  intros H. cbn [tidy] in H.
  apply andb_true_iff in H as [H Hs]. apply andb_true_iff in H as [Htab H].
  split; [|by apply IH]. clear IH Hs. left.
  unfold match_len, match_at, re_blanks_nl, plus, seq. cbn [fold_right bt].
  destruct (sp_tab c) eqn:Hc; [|done].
  destruct s as [|d u]; [done|]. cbn [star andb negb] in *.
  destruct (sp_tab d) eqn:Hd; [discriminate|].
  destruct (newline d) eqn:Hn; [|done].
  cbn in H. rewrite ?andb_false_r in H. discriminate.
Qed.

Lemma nl3_fixed s : tidy s = true -> fixed_by re_nl3 [NL; NL] s.
Proof.
  induction s as [|c s IH]; [reflexivity|].
  intros H. cbn [tidy] in H.
  apply andb_true_iff in H as [H Hs]. apply andb_true_iff in H as [Htab H].
  split; [|by apply IH]. clear IH Hs. left.
  unfold match_len, match_at, re_nl3, seq. cbn [fold_right bt].
  destruct (newline c) eqn:Hc; [|done].
  destruct s as [|d u]; [done|].
  destruct (newline d) eqn:Hd; [|done].
  destruct u as [|e u]; [done|].
  destruct (newline e) eqn:He; [|done].
  cbn in H. rewrite ?andb_false_r in H. discriminate.
Qed.

Lemma trim_trimmed s : trimmed s = true -> trim s = s.
Proof.
  unfold trimmed, trim. destruct s as [|c s]; [reflexivity|].
  destruct (reverse (c :: s)) as [|d t] eqn:E.
  - intros _. apply (f_equal (@length N)) in E. rewrite length_reverse in E. discriminate.
  - intros [Hc Hd]%andb_true_iff.
    cbn [drop_space]. apply negb_true_iff in Hc, Hd. rewrite Hc, E.
    cbn [drop_space]. rewrite Hd, <- E. apply reverse_involutive.
Qed.

Lemma normalize_plain s :
  has_tag s = false -> tidy s = true -> trimmed s = true ->
  normalize_content s = s.
Proof.
  intros Htag Htidy Htrim. unfold normalize_content.
  rewrite (replace_all_fixed re_p_close) by (apply tag_free_fixed; [apply shaped_p_close | done]).
  rewrite (replace_all_fixed re_p_open) by (apply tag_free_fixed; [apply shaped_p_open | done]).
  rewrite (replace_all_fixed re_br) by (apply tag_free_fixed; [apply shaped_br | done]).
  rewrite (replace_all_fixed re_div_close) by (apply tag_free_fixed; [apply shaped_div_close | done]).
  rewrite (replace_all_fixed re_div_open) by (apply tag_free_fixed; [apply shaped_div_open | done]).
  rewrite (replace_all_fixed re_tag) by (apply tag_free_fixed; [apply shaped_tag | done]).
  rewrite (replace_all_fixed re_blanks) by by apply blanks_fixed.
  rewrite (replace_all_fixed re_nl_blanks) by by apply nl_blanks_fixed.
  rewrite (replace_all_fixed re_blanks_nl) by by apply blanks_nl_fixed.
  rewrite (replace_all_fixed re_nl3) by by apply nl3_fixed.
  by apply trim_trimmed.
Qed.

(** ** The content extractor *)

(** C5: an extracted body of 5,000 characters with no HTML tag and no white
    space that the normalisation would rewrite yields a [fullText] of exactly
    2003 characters: its first 2000 characters followed by the three-character
    ellipsis. *)
Theorem long_plain_body_truncated env articleUrl article body :
  extractArticle env articleUrl = ArticleOk article ->
  art_content article = Some body ->
  length body = 5000%nat ->
  has_tag body = false -> tidy body = true -> trimmed body = true ->
  ac_fullText (extractArticleContent env articleUrl)
    = Some (take 2000 body ++ js "...")
  /\ length (take 2000 body ++ js "...") = 2003%nat.
Proof.
  intros Hart Hc Hlen Htag Htidy Htrim.
  assert (Hl : length (take 2000 body ++ js "...") = 2003%nat).
  { rewrite length_app, length_take, Hlen. reflexivity. }
  split; [|exact Hl].
  unfold extractArticleContent. rewrite Hart, Hc. cbn [ac_fullText].
  assert (Hb : or_default (Some body) [] = body).
  { destruct body; [discriminate|reflexivity]. }
  rewrite Hb, (normalize_plain body Htag Htidy Htrim).
  unfold truncate_content, substring0. rewrite Hlen.
  change (2000 <? 5000)%nat with true. cbn iota.
  unfold or_else.
  destruct (take 2000 body ++ js "...") eqn:E; [discriminate|reflexivity].
Qed.

Lemma long_plain_body_truncated_witness :
  ac_fullText
    (extractArticleContent
       (Sample.env (fun _ => FeedNoEntries)
          (fun _ => ArticleOk {| art_content := Some Sample.plain_body;
                                 art_description := None;
                                 art_image := None;
                                 art_author := None |})
          Sample.online)
       (js "https://news.example/a/1"))
    = Some (take 2000 Sample.plain_body ++ js "...")
  /\ length (take 2000 Sample.plain_body ++ js "...") = 2003%nat.
Proof.
  apply (long_plain_body_truncated _ _
           {| art_content := Some Sample.plain_body; art_description := None;
              art_image := None; art_author := None |} Sample.plain_body);
    vm_compute; reflexivity.
Defined.

(** ** The feed reader *)

Lemma no_match_in_empty :
  match_group1 re_img_src [] = None /\ match_group1 re_og_image [] = None
  /\ match_group1 re_twitter_image [] = None /\ match_group1 re_wp_image [] = None
  /\ match_group1 re_img_ext [] = None.
Proof. vm_compute. repeat split. Qed.

Lemma entry_image_first_match entry :
  entry_image entry = first_match (image_matchers entry).
Proof.
  destruct no_match_in_empty as (E1 & E2 & E3 & E4 & E5).
  unfold entry_image, image_matchers. cbn [first_match].
  assert (Hc : match e_content entry with
               | Some c => if truthy c then match_group1 re_img_src c else None
               | None => None
               end
               = match e_content entry with
                 | Some text =>
                     match match_group1 re_img_src text with
                     | Some u => Some u
                     | None => None
                     end
                 | None => None
                 end).
  { destruct (e_content entry) as [[|c t]|]; [by rewrite E1| |done].
    cbn [truthy]. by destruct (match_group1 re_img_src (c :: t)). }
  rewrite Hc. clear Hc.
  destruct (e_description entry) as [[|c d]|]; [|cbn [truthy]|done].
  - by rewrite E1, E2, E3, E4, E5.
  - destruct (match_group1 re_img_src (c :: d)); [done|].
    destruct (match_group1 re_og_image (c :: d)); [done|].
    destruct (match_group1 re_twitter_image (c :: d)); [done|].
    destruct (match_group1 re_wp_image (c :: d)); [done|].
    by destruct (match_group1 re_img_ext (c :: d)).
Qed.

(** C4: for every entry of a feed, [parseFeed] picks the image by trying the
    six matchers in order (image tag, og:image, twitter:image, WordPress
    featured image, image tag with a common extension, all on the description,
    then the image tag on the content field); the first match wins and there
    is no image when none matches.  In particular a description with both an
    image tag and an og:image meta tag of a different URL yields the URL of
    the image tag. *)
Theorem parseFeed_image_chain env feedUrl entries w :
  extractFeed env feedUrl = FeedOk entries ->
  exists rawItems,
    parseFeed env feedUrl w = (Ret rawItems, w)
    /\ map raw_image rawItems
       = map (fun entry => first_match (image_matchers entry)) entries
    /\ forall entry d u1 u2,
         entry ∈ entries ->
         e_description entry = Some d ->
         match_group1 re_img_src d = Some u1 ->
         match_group1 re_og_image d = Some u2 ->
         u1 <> u2 ->
         raw_image (parse_entry env entry) = Some u1
         /\ parse_entry env entry ∈ rawItems.
Proof.
  intros Hfeed. exists (map (parse_entry env) entries). split; [|split].
  - unfold parseFeed. by rewrite Hfeed.
  - rewrite map_map. apply map_ext. intros entry. apply entry_image_first_match.
  - intros entry d u1 u2 Hin Hd H1 _ _. split.
    + cbn [parse_entry raw_image]. rewrite entry_image_first_match.
      unfold image_matchers. cbn [first_match]. by rewrite Hd, H1.
    + apply list_elem_of_In, in_map, list_elem_of_In, Hin.
Qed.

Lemma parseFeed_image_chain_witness :
  match_group1 re_img_src Sample.two_images
    = Some (js "https://cdn.example/inline.png")
  /\ match_group1 re_og_image Sample.two_images
      = Some (js "https://cdn.example/og.png")
  /\ exists rawItems,
       parseFeed
         (Sample.env (fun _ => FeedOk [Sample.entry None Sample.two_images])
                     Sample.no_article Sample.online)
         (js "https://news.example/feed") Sample.world
       = (Ret rawItems, Sample.world)
       /\ map raw_image rawItems = [Some (js "https://cdn.example/inline.png")].
Proof.
  split; [vm_compute; reflexivity|]. split; [vm_compute; reflexivity|].
  destruct (parseFeed_image_chain
              (Sample.env (fun _ => FeedOk [Sample.entry None Sample.two_images])
                          Sample.no_article Sample.online)
              (js "https://news.example/feed")
              [Sample.entry None Sample.two_images] Sample.world eq_refl)
    as (rawItems & Hrun & Himg & Hfirst).
  exists rawItems. split; [exact Hrun|].
  destruct (Hfirst (Sample.entry None Sample.two_images) Sample.two_images
                   (js "https://cdn.example/inline.png")
                   (js "https://cdn.example/og.png"))
    as [_ _]; [apply list_elem_of_here | reflexivity | vm_compute; reflexivity
              | vm_compute; reflexivity | vm_compute; discriminate |].
  rewrite Himg. vm_compute. reflexivity.
Defined.

(** ** The image cache *)

Lemma download_cached env u f w :
  cached f w = true -> download env u f w = (Ret (Some (js "/images/" ++ f)), w).
Proof.
  unfold download, bind, image_exists, cached. intros H.
  destruct (images_dir w); [|discriminate]. by rewrite H.
Qed.

(** What a download does when the file is not there yet. *)
Lemma download_fresh env u f w :
  cached f w = false ->
  download env u f w =
    match net_fetch env u with
    | FetchRejects => (Throw (js "fetch failed"), log_request u w)
    | FetchResolves false _ => (Ret None, log_request u w)
    | FetchResolves true None => (Throw (js "body unusable"), log_request u w)
    | FetchResolves true (Some _) =>
        match images_dir w with
        | Some d =>
            if write_ok env f
            then (Ret (Some (js "/images/" ++ f)),
                  set_images (Some ({[f]} ∪ d)) (log_request u w))
            else (Throw (js "write failed"), log_request u w)
        | None => (Throw (js "ENOENT"), log_request u w)
        end
    end.
Proof.
  unfold download, bind, image_exists, cached, fetch. intros H.
  destruct (images_dir w) as [d|] eqn:Hd.
  - rewrite H. destruct (net_fetch env u) as [|[] [b|]]; try reflexivity.
    cbn. unfold write_image. cbn. rewrite Hd.
    by destruct (write_ok env f).
  - destruct (net_fetch env u) as [|[] [b|]]; try reflexivity.
    cbn. unfold write_image. cbn. by rewrite Hd.
Qed.

Lemma download_some env u f w ref w1 :
  download env u f w = (Ret (Some ref), w1) ->
  ref = js "/images/" ++ f /\ cached f w1 = true
  /\ (requests w1 = requests w \/ requests w1 = u :: requests w).
Proof.
  destruct (cached f w) eqn:Hc.
  - rewrite (download_cached _ _ _ _ Hc). intros [= <- <-]. auto.
  - rewrite (download_fresh _ _ _ _ Hc).
    destruct (net_fetch env u) as [|[] [b|]]; try discriminate.
    destruct (images_dir w) as [d|]; [|discriminate].
    destruct (write_ok env f); [|discriminate].
    intros [= <- <-]. repeat split; [|by right].
    unfold cached. cbn. apply bool_decide_eq_true. set_solver.
Qed.

Lemma guarded_download_total env u f w :
  exists r w',
    try_catch (download env u f) (fun _ => ret None) w = (Ret r, w')
    /\ (r = None \/ r = Some (js "/images/" ++ f)).
Proof.
  unfold try_catch. destruct (cached f w) eqn:Hc.
  - rewrite (download_cached _ _ _ _ Hc). eauto.
  - rewrite (download_fresh _ _ _ _ Hc).
    destruct (net_fetch env u) as [|[] [b|]]; cbn; eauto.
    destruct (images_dir w) as [d|]; cbn; eauto.
    destruct (write_ok env f); cbn; eauto.
Qed.

Lemma guarded_download_failure env u f w :
  cached f w = false -> download_fails env u f w ->
  fst (try_catch (download env u f) (fun _ => ret None) w) = Ret None.
Proof.
  intros Hc Hf. unfold try_catch. rewrite (download_fresh _ _ _ _ Hc).
  destruct (net_fetch env u) as [|[] [b|]] eqn:Hn; cbn; try reflexivity.
  destruct (images_dir w) as [d|] eqn:Hd; cbn; [|reflexivity].
  destruct (write_ok env f) eqn:Hw; cbn; [|reflexivity].
  destruct Hf as [?|[[? ?]|[?|[?|?]]]]; congruence.
Qed.

(** C3: after a first call of [cacheImage] that succeeds, a second call with
    the same URL returns the same local reference and sends no request: the
    file is at its deterministic path, and the state, the log of requests
    included, is unchanged.  The first call sends at most one request. *)
Theorem cacheImage_second_call_is_cached env imageUrl w ref w1 :
  cacheImage env imageUrl w = (Ret (Some ref), w1) ->
  cacheImage env imageUrl w1 = (Ret (Some ref), w1)
  /\ requests (snd (cacheImage env imageUrl w1)) = requests w1
  /\ ref = js "/images/" ++ urlToFilename env imageUrl
  /\ cached (urlToFilename env imageUrl) w1 = true
  /\ (requests w1 = requests w \/ requests w1 = imageUrl :: requests w).
Proof.
  unfold cacheImage, try_catch.
  destruct (download env imageUrl (urlToFilename env imageUrl) w)
    as [[r|e] w0] eqn:E; [|discriminate].
  intros [= -> ->]. apply download_some in E as (-> & Hc & Hreq).
  rewrite (download_cached _ _ _ _ Hc). auto.
Qed.

Lemma cacheImage_second_call_is_cached_witness :
  requests (snd (cacheImage (Sample.env (fun _ => FeedNoEntries)
                               Sample.no_article Sample.online)
                            (js "https://cdn.example/inline.png") Sample.world))
    = [js "https://cdn.example/inline.png"]
  /\ cacheImage (Sample.env (fun _ => FeedNoEntries) Sample.no_article Sample.online)
       (js "https://cdn.example/inline.png")
       (snd (cacheImage (Sample.env (fun _ => FeedNoEntries)
                           Sample.no_article Sample.online)
                        (js "https://cdn.example/inline.png") Sample.world))
     = (Ret (Some (js "/images/"
                   ++ Sample.hash (js "https://cdn.example/inline.png")
                   ++ js ".png")),
        snd (cacheImage (Sample.env (fun _ => FeedNoEntries)
                           Sample.no_article Sample.online)
                        (js "https://cdn.example/inline.png") Sample.world)).
Proof.
  split; [vm_compute; reflexivity|].
  apply (cacheImage_second_call_is_cached _ _ Sample.world).
  vm_compute. reflexivity.
Defined.

(** C10: [cacheImage] and [cacheFavicon] never throw.  For every URL, also
    one that [new URL] rejects, and every state they return [null] or the
    local reference; when the file is not cached yet, a rejected fetch
    (network error, timeout, malformed URL), a response that is not ok, an
    unreadable body and a failed write all give [null]. *)
Theorem cache_functions_never_throw env imageUrl iconUrl feedName w :
  (exists r w',
      cacheImage env imageUrl w = (Ret r, w')
      /\ (r = None \/ r = Some (js "/images/" ++ urlToFilename env imageUrl)))
  /\ (exists r w',
        cacheFavicon env iconUrl feedName w = (Ret r, w')
        /\ (r = None
            \/ r = Some (js "/images/" ++ faviconFilename env iconUrl feedName)))
  /\ (cached (urlToFilename env imageUrl) w = false ->
      download_fails env imageUrl (urlToFilename env imageUrl) w ->
      fst (cacheImage env imageUrl w) = Ret None)
  /\ (cached (faviconFilename env iconUrl feedName) w = false ->
      download_fails env iconUrl (faviconFilename env iconUrl feedName) w ->
      fst (cacheFavicon env iconUrl feedName w) = Ret None)
  /\ (parse_url env imageUrl = None ->
      urlToFilename env imageUrl = md5_hex env imageUrl ++ js ".jpg").
Proof.
  repeat split.
  - apply guarded_download_total.
  - apply guarded_download_total.
  - apply guarded_download_failure.
  - apply guarded_download_failure.
  - intros H. unfold urlToFilename, url_ext. by rewrite H.
Qed.

Lemma cache_functions_never_throw_witness :
  fst (cacheImage (Sample.env (fun _ => FeedNoEntries) Sample.no_article
                              (fun _ => FetchRejects))
                  (js "not a url") Sample.world) = Ret None
  /\ fst (cacheFavicon (Sample.env (fun _ => FeedNoEntries) Sample.no_article
                                   (fun _ => FetchResolves false None))
                       (js "https://news.example/favicon.ico")
                       (js "Example Feed") Sample.world) = Ret None.
Proof.
  split.
  - apply (cache_functions_never_throw
             (Sample.env (fun _ => FeedNoEntries) Sample.no_article
                         (fun _ => FetchRejects))
             (js "not a url") (js "https://news.example/favicon.ico")
             (js "Example Feed") Sample.world).
    + vm_compute. reflexivity.
    + left. reflexivity.
  - apply (cache_functions_never_throw
             (Sample.env (fun _ => FeedNoEntries) Sample.no_article
                         (fun _ => FetchResolves false None))
             (js "not a url") (js "https://news.example/favicon.ico")
             (js "Example Feed") Sample.world).
    + vm_compute. reflexivity.
    + right. left. exists None. reflexivity.
Defined.

(** ** The feed processor *)

Lemma cacheImage_total env u w :
  exists r w', cacheImage env u w = (Ret r, w').
Proof. destruct (guarded_download_total env u (urlToFilename env u) w) as (r & w' & H & _). eauto. Qed.

Lemma cacheFavicon_total env u n w :
  exists r w', cacheFavicon env u n w = (Ret r, w').
Proof. destruct (guarded_download_total env u (faviconFilename env u n) w) as (r & w' & H & _). eauto. Qed.

Lemma build_item_bad_date env feed cachedIcon pushed rawItem w :
  date_parse env (raw_pubDate rawItem) = None ->
  exists e w', build_item env feed cachedIcon pushed rawItem w = (Throw e, w').
Proof.
  intros Hd. unfold build_item, bind at 1.
  destruct (or_else (ac_image (extractArticleContent env (raw_link rawItem)))
                    (raw_image rawItem)) as [best|].
  - unfold bind at 1.
    match goal with |- context [cacheImage env ?u w] =>
      destruct (cacheImage_total env u w) as (r & w' & ->) end.
    cbn. unfold bind, date_toISOString. rewrite Hd. cbn. eauto.
  - cbn. unfold bind, date_toISOString. rewrite Hd. cbn. eauto.
Qed.

Lemma build_item_total env feed cachedIcon pushed rawItem w :
  exists o w', build_item env feed cachedIcon pushed rawItem w = (o, w').
Proof. destruct (build_item env feed cachedIcon pushed rawItem w). eauto. Qed.

Lemma process_items_total env feed cachedIcon rawItems :
  forall items w,
    exists items' w',
      process_items env feed cachedIcon items rawItems w = (Ret items', w').
Proof.
  induction rawItems as [|rawItem rest IH]; intros items w; cbn [process_items].
  - unfold ret. eauto.
  - unfold bind at 1, try_catch, bind at 1.
    destruct (build_item env feed cachedIcon (length items) rawItem w) as [[item|e] w1];
      cbn; apply IH.
Qed.

Lemma processFeed_total env cfg feed w :
  exists r w', processFeed env cfg feed w = (Ret r, w').
Proof.
  unfold processFeed, try_catch, bind at 1.
  destruct (parseFeed env (url feed) w) as [[rawItems|e] w1]; [|cbn; eauto].
  unfold bind at 1.
  destruct (cacheFavicon_total env (icon feed) (name feed) w1) as (ic & w2 & ->).
  unfold bind at 1.
  destruct (process_items_total env feed ic (take (maxItemsPerFeed cfg) rawItems) [] w2)
    as (its & w3 & ->).
  cbn. eauto.
Qed.

(** With a date that parses the same entry is emitted. *)
Example parseable_date_emits_item :
  map pubDate
      (match fst (processFeed
                    (Sample.env (fun _ => FeedOk [Sample.entry (Some Sample.midnight_iso)
                                                               (js "<p>Patch now</p>")])
                                Sample.no_article Sample.online)
                    feedConfig Sample.feed Sample.world) with
       | Ret r => res_items r
       | Throw _ => []
       end)
  = [Sample.midnight].
Proof. vm_compute. reflexivity. Qed.

(** ** The aggregation cycle: isolation of a failing source *)

Lemma process_all_total env cfg l :
  forall w, exists rs w',
    process_all env cfg l w = (Ret rs, w') /\ length rs = length l.
Proof.
  induction l as [|feed rest IH]; intros w; cbn [process_all].
  - exists [], w. auto.
  - unfold bind at 1.
    destruct (processFeed_total env cfg feed w) as (r & w1 & ->).
    unfold bind at 1.
    destruct (IH w1) as (rs & w2 & -> & Hlen).
    exists (r :: rs), w2. cbn. auto.
Qed.

Lemma process_all_cons env cfg feed rest w r w1 rs w2 :
  processFeed env cfg feed w = (Ret r, w1) ->
  process_all env cfg rest w1 = (Ret rs, w2) ->
  process_all env cfg (feed :: rest) w = (Ret (r :: rs), w2).
Proof.
  intros H1 H2. cbn [process_all]. unfold bind at 1. rewrite H1.
  unfold bind at 1. by rewrite H2.
Qed.

Lemma process_all_app env cfg l1 l2 :
  forall w rs1 w1 rs2 w2,
    process_all env cfg l1 w = (Ret rs1, w1) ->
    process_all env cfg l2 w1 = (Ret rs2, w2) ->
    process_all env cfg (l1 ++ l2) w = (Ret (rs1 ++ rs2), w2).
Proof.
  induction l1 as [|feed rest IH]; intros w rs1 w1 rs2 w2 H1 H2.
  - cbn in H1. injection H1 as <- <-. exact H2.
  - cbn [process_all] in H1. unfold bind at 1 in H1.
    destruct (processFeed env cfg feed w) as [[r|e] wa] eqn:Hr; [|discriminate].
    unfold bind at 1 in H1.
    destruct (process_all env cfg rest wa) as [[rs|e] wb] eqn:Hrs; [|discriminate].
    cbn in H1. injection H1 as <- <-.
    change ((feed :: rest) ++ l2) with (feed :: (rest ++ l2)).
    change ((r :: rs) ++ rs2) with (r :: (rs ++ rs2)).
    eapply process_all_cons; [exact Hr|]. eapply IH; eauto.
Qed.

Lemma processFeed_reader_throws env cfg feed message w :
  extractFeed env (url feed) = FeedThrows message ->
  processFeed env cfg feed w
  = (Ret {| res_success := false; res_feedName := name feed;
            res_error := Some message; res_items := [] |}, w).
Proof.
  intros H. unfold processFeed, try_catch, bind at 1, parseFeed. by rewrite H.
Qed.

(** C6: when the feed read of a source throws, [processFeed] returns
    [success: false], the thrown message and no items for it, and the state is
    left as it was; in the cycle the results of the sources before and after
    it are the ones the cycle gives without that source. *)
Theorem failing_source_is_isolated env cfg feed message before after w :
  extractFeed env (url feed) = FeedThrows message ->
  (forall w0,
      processFeed env cfg feed w0
      = (Ret {| res_success := false; res_feedName := name feed;
                res_error := Some message; res_items := [] |}, w0))
  /\ exists rs1 rs2 w',
       process_all env cfg (before ++ feed :: after) w
       = (Ret (rs1 ++ {| res_success := false; res_feedName := name feed;
                         res_error := Some message; res_items := [] |} :: rs2),
          w')
       /\ process_all env cfg (before ++ after) w = (Ret (rs1 ++ rs2), w')
       /\ length rs1 = length before /\ length rs2 = length after.
Proof.
  intros H. split; [intros w0; by apply processFeed_reader_throws|].
  destruct (process_all_total env cfg before w) as (rs1 & w1 & H1 & L1).
  destruct (process_all_total env cfg after w1) as (rs2 & w2 & H2 & L2).
  exists rs1, rs2, w2. repeat split; auto.
  - eapply process_all_app; [exact H1|].
    eapply process_all_cons; [by apply processFeed_reader_throws | exact H2].
  - eapply process_all_app; eauto.
Qed.

Lemma failing_source_is_isolated_witness :
  exists rs1 rs2 w',
    process_all (Sample.env Sample.one_down Sample.no_article Sample.online)
                feedConfig [Sample.feed; Sample.feed_down; Sample.feed_other]
                Sample.world
    = (Ret (rs1 ++ {| res_success := false; res_feedName := js "Down Feed";
                      res_error := Some (js "Request timed out");
                      res_items := [] |} :: rs2), w')
    /\ process_all (Sample.env Sample.one_down Sample.no_article Sample.online)
                   feedConfig [Sample.feed; Sample.feed_other] Sample.world
       = (Ret (rs1 ++ rs2), w')
    /\ length rs1 = 1%nat /\ length rs2 = 1%nat.
Proof.
  apply (failing_source_is_isolated
           (Sample.env Sample.one_down Sample.no_article Sample.online)
           feedConfig Sample.feed_down (js "Request timed out")
           [Sample.feed] [Sample.feed_other] Sample.world).
  vm_compute. reflexivity.
Defined.

(** ** The aggregation cycle: order of the snapshot *)

Lemma sort_insert_perm x l : sort_insert by_date_desc x l ≡ₚ x :: l.
Proof.
  induction l as [|y l IH]; cbn [sort_insert]; [done|].
  destruct (0 <? by_date_desc y x)%Z; [done|].
  rewrite IH. apply Permutation_swap.
Qed.

Lemma sort_insert_sorted x l :
  newest_first l -> newest_first (sort_insert by_date_desc x l).
Proof.
  unfold newest_first. induction 1 as [|y l Hs IH Hy]; cbn [sort_insert].
  - repeat constructor.
  - destruct (0 <? by_date_desc y x)%Z eqn:E.
    + apply Z.ltb_lt in E. unfold by_date_desc in E.
      constructor; [by constructor|].
      constructor; [lia|].
      eapply Forall_impl; [exact Hy|]. cbn. intros; lia.
    + apply Z.ltb_ge in E. unfold by_date_desc in E.
      constructor; [exact IH|].
      rewrite sort_insert_perm. constructor; [lia | exact Hy].
Qed.

Lemma sort_insert_dated t x l :
  newest_first l ->
  dated t (sort_insert by_date_desc x l) = dated t l ++ dated t [x].
Proof.
  unfold newest_first, dated. induction 1 as [|y l Hs IH Hy]; cbn [sort_insert].
  - by rewrite app_nil_l.
  - destruct (0 <? by_date_desc y x)%Z eqn:E.
    + apply Z.ltb_lt in E. unfold by_date_desc in E.
      cbn [List.filter]. destruct (pubDate x =? t)%Z eqn:Hx; [|by rewrite app_nil_r].
      apply Z.eqb_eq in Hx.
      assert (Hy' : (pubDate y =? t)%Z = false) by (apply Z.eqb_neq; lia).
      rewrite Hy'.
      assert (Hl : List.filter (fun i => (pubDate i =? t)%Z) l = []).
      { clear -Hy Hx E. induction Hy as [|z l Hz _ IHl]; [done|].
        cbn [List.filter].
        assert ((pubDate z =? t)%Z = false) as -> by (apply Z.eqb_neq; lia).
        exact IHl. }
      by rewrite Hl.
    + cbn [List.filter]. rewrite IH.
      by destruct (pubDate y =? t)%Z.
Qed.

Lemma fold_insert_spec l :
  forall acc,
    newest_first acc ->
    let out := fold_left (fun sorted x => sort_insert by_date_desc x sorted) l acc in
    newest_first out /\ out ≡ₚ acc ++ l
    /\ forall t, dated t out = dated t acc ++ dated t l.
Proof.
  induction l as [|x l IH]; intros acc Hacc; cbn [fold_left].
  - cbn zeta. rewrite app_nil_r. repeat split; auto.
    intros t. unfold dated. cbn. by rewrite app_nil_r.
  - destruct (IH (sort_insert by_date_desc x acc) (sort_insert_sorted x acc Hacc))
      as (Hs & Hp & Hd).
    cbn zeta. repeat split; [exact Hs| |].
    + rewrite Hp, sort_insert_perm.
      change (acc ++ x :: l) with (acc ++ [x] ++ l).
      rewrite (Permutation_app_comm acc), <- !app_assoc.
      cbn. constructor. apply Permutation_app_comm.
    + intros t. rewrite Hd, (sort_insert_dated t x acc Hacc), <- app_assoc.
      f_equal. unfold dated. cbn [List.filter].
      by destruct (pubDate x =? t)%Z.
Qed.

Lemma js_sort_spec l :
  newest_first (js_sort by_date_desc l)
  /\ js_sort by_date_desc l ≡ₚ l
  /\ forall t, dated t (js_sort by_date_desc l) = dated t l.
Proof.
  destruct (fold_insert_spec l [] (SSorted_nil _)) as (Hs & Hp & Hd).
  unfold js_sort. repeat split; auto.
Qed.

Lemma collect_items env results :
  forall st ts all,
    snd (fold_left (collect_step env) results (st, ts, all))
    = all ++ merged results.
Proof.
  unfold merged.
  induction results as [|r rs IH]; intros st ts all; cbn [fold_left map concat].
  - by rewrite app_nil_r.
  - cbn [collect_step]. rewrite IH. by rewrite <- app_assoc.
Qed.

Lemma cycle_body_run env cfg w results w1 :
  process_all env cfg (feeds cfg) w = (Ret results, w1) ->
  exists snapshot w',
    cycle_body env cfg w = (Ret snapshot, w')
    /\ cachedFeeds w' = snapshot
    /\ isRefreshing w' = false
    /\ images_dir w' = images_dir w1
    /\ items snapshot = js_sort by_date_desc (merged results)
    /\ lastUpdated snapshot = Some (now env).
Proof.
  intros H. unfold cycle_body, bind at 1. rewrite H.
  pose proof (collect_items env results ∅ ∅ []) as Hc.
  unfold collect.
  destruct (fold_left (collect_step env) results (∅, ∅, [])) as [[st ts] allItems].
  cbn [snd app] in Hc. subst allItems.
  unfold bind, save_cache. cbn.
  eexists _, _. split; [reflexivity|].
  destruct (save_ok env); cbn; auto 10.
Qed.

Lemma sort_three a b c T :
  pubDate a = T -> pubDate b = (T - 86400000)%Z -> pubDate c = (T + 3600000)%Z ->
  js_sort by_date_desc [a; b; c] = [c; a; b].
Proof.
  intros Ha Hb Hc. unfold js_sort. cbn [fold_left sort_insert].
  unfold by_date_desc. rewrite Ha, Hb.
  assert ((0 <? T - 86400000 - T)%Z = false) as -> by (apply Z.ltb_ge; lia).
  cbn [sort_insert]. rewrite Ha, Hc.
  assert ((0 <? T + 3600000 - T)%Z = true) as -> by (apply Z.ltb_lt; lia).
  reflexivity.
Qed.

(** C7: the items of the snapshot published by a cycle are the items merged
    from all sources, sorted by date, newest first, and items of the same date
    keep the order they had in the merged sequence; items dated T, T - 1 day
    and T + 1 hour come out as T + 1 hour, T, T - 1 day. *)
Theorem snapshot_sorted_by_date env cfg w :
  isRefreshing w = false ->
  exists results w1,
    process_all env cfg (feeds cfg) (set_isRefreshing true w) = (Ret results, w1)
    /\ let published := items (cachedFeeds (snd (fetchAllFeeds env cfg w))) in
       fst (fetchAllFeeds env cfg w)
         = Ret (cachedFeeds (snd (fetchAllFeeds env cfg w)))
       /\ newest_first published
       /\ published ≡ₚ merged results
       /\ (forall t, dated t published = dated t (merged results))
       /\ (forall a b c T,
              merged results = [a; b; c] ->
              pubDate a = T -> pubDate b = (T - 86400000)%Z ->
              pubDate c = (T + 3600000)%Z ->
              published = [c; a; b]).
Proof.
  intros Hidle.
  destruct (process_all_total env cfg (feeds cfg) (set_isRefreshing true w))
    as (results & w1 & Hrun & _).
  exists results, w1. split; [exact Hrun|].
  destruct (cycle_body_run _ _ _ _ _ Hrun) as (snap & w' & Hc & Hsnap & _ & _ & Hitems & _).
  unfold fetchAllFeeds. rewrite Hidle, Hc. cbn [fst snd]. rewrite Hsnap, Hitems.
  destruct (js_sort_spec (merged results)) as (Hs & Hp & Hd).
  repeat split; auto.
  intros a b c T -> Ha Hb Hcc. by apply (sort_three a b c T).
Qed.

Lemma snapshot_sorted_by_date_witness :
  isRefreshing Sample.world = false
  /\ map (fun i => (pubDate i, source i))
         (items (cachedFeeds
                   (snd (fetchAllFeeds
                           (Sample.env Sample.three_dates Sample.no_article
                                       Sample.online)
                           Sample.three_sources Sample.world))))
     = [ ((Sample.midnight + 3600000)%Z, js "Other Feed");
         (Sample.midnight, js "Example Feed");
         ((Sample.midnight - 86400000)%Z, js "Down Feed") ].
Proof.
  split; [reflexivity|].
  destruct (snapshot_sorted_by_date
              (Sample.env Sample.three_dates Sample.no_article Sample.online)
              Sample.three_sources Sample.world eq_refl)
    as (results & w1 & Hrun & _ & _ & _ & _ & Hex).
  vm_compute in Hrun. injection Hrun as <- <-.
  rewrite (Hex _ _ _ Sample.midnight eq_refl eq_refl eq_refl eq_refl).
  vm_compute. reflexivity.
Defined.

(** ** The cache store *)

Lemma set_images_same w d : images_dir w = d -> set_images d w = w.
Proof. intros <-. by destruct w. Qed.

Lemma unlink_images_ok env files :
  forall w d,
    images_dir w = Some d ->
    (forall f, f ∈ files -> unlink_ok env f = true) ->
    unlink_images env files w
    = (Ret tt, set_images (Some (d ∖ list_to_set files)) w).
Proof.
  induction files as [|f rest IH]; intros w d Hd Hok; cbn [unlink_images].
  - unfold ret. f_equal. symmetry. apply set_images_same. rewrite Hd. f_equal.
    set_solver.
  - unfold bind, unlink_image. rewrite (Hok f) by apply list_elem_of_here.
    rewrite Hd.
    rewrite (IH _ (d ∖ {[f]})); [|reflexivity|].
    + f_equal. unfold set_images. cbn. f_equal. f_equal. set_solver.
    + intros g Hg. apply Hok. by apply list_elem_of_further.
Qed.

Lemma unlink_images_fail env files :
  forall w,
    (exists f, f ∈ files /\ unlink_ok env f = false) ->
    exists e w', unlink_images env files w = (Throw e, w').
Proof.
  induction files as [|f rest IH]; intros w (g & Hg & Hfail).
  - by apply elem_of_nil in Hg.
  - cbn [unlink_images]. unfold bind, unlink_image.
    destruct (unlink_ok env f) eqn:Hf; [|eauto].
    apply elem_of_cons in Hg as [->|Hg]; [congruence|].
    apply IH. eauto.
Qed.

Lemma unlink_all_or_not env (files : list jsstring) :
  (forall f, f ∈ files -> unlink_ok env f = true)
  \/ (exists f, f ∈ files /\ unlink_ok env f = false).
Proof.
  induction files as [|f rest [IH|(g & Hg & Hfail)]].
  - left. intros f Hf. by apply elem_of_nil in Hf.
  - destruct (unlink_ok env f) eqn:Hf.
    + left. intros g [->|Hg]%elem_of_cons; auto.
    + right. exists f. split; [apply list_elem_of_here|done].
  - right. exists g. split; [by apply list_elem_of_further|done].
Qed.

Lemma unlink_images_flag env files :
  forall w, isRefreshing (snd (unlink_images env files w)) = isRefreshing w.
Proof.
  induction files as [|f rest IH]; intros w; cbn [unlink_images]; [done|].
  unfold bind, unlink_image. destruct (unlink_ok env f); [|done].
  by rewrite IH.
Qed.

Lemma route_delete_cache_flag env w :
  isRefreshing (snd (route_delete_cache env w)) = isRefreshing w.
Proof.
  unfold route_delete_cache, try_catch, clear_cache, bind at 1.
  assert (H1 : forall w0,
             isRefreshing
               (snd (match images_dir w0 with
                     | Some _ => (let* files := readdir_images env in
                                  unlink_images env files) w0
                     | None => (Ret tt, w0)
                     end)) = isRefreshing w0).
  { intros w0. destruct (images_dir w0) as [d|] eqn:Hd; [|done].
    unfold bind, readdir_images. rewrite Hd.
    destruct (readdir_ok env); [|done]. apply unlink_images_flag. }
  specialize (H1 w).
  destruct (match images_dir w with
            | Some _ => _
            | None => _
            end) as [[[]|e] w1]; cbn [snd] in H1; [|by cbn].
  unfold bind at 1.
  destruct (cache_file w1) as [c|].
  - unfold unlink_cache_file. destruct (unlink_cache_ok env); cbn; exact H1.
  - cbn. exact H1.
Qed.

(** C8: [DELETE /api/cache] always answers.  When no file-system operation
    fails it answers with the message, every file of the image directory and
    the persisted snapshot are gone and the snapshot in memory is the empty
    one, so that [GET /api/status] right after reports 0 images, 0 articles
    and [Never]; when an operation fails it answers 500 with an error body. *)
Theorem cache_clear_complete env cfg w :
  exists resp w',
    route_delete_cache env w = (Ret resp, w')
    /\ (clear_fails env w ->
        status resp = 500%nat /\ exists message, body resp = ErrorBody message)
    /\ (~ clear_fails env w ->
        resp = {| status := 200;
                  body := MessageBody (js "Cache cleared successfully") |}
        /\ images_dir w' = (fun _ => ∅) <$> images_dir w
        /\ cache_file w' = None
        /\ cachedFeeds w' = empty_snapshot
        /\ route_status env cfg w'
           = {| status := 200;
                body := StatusBody {| stat_feeds := length (feeds cfg);
                                      stat_articles := 0;
                                      stat_images := 0;
                                      stat_lastUpdated := Never |} ∅ |}).
Proof.
  unfold route_delete_cache, try_catch, clear_cache, bind at 1.
  (* the image directory *)
  assert (Hdir :
    (exists e w1,
        match images_dir w with
        | Some _ => (let* files := readdir_images env in
                     unlink_images env files) w
        | None => (Ret tt, w)
        end = (Throw e, w1)
        /\ clear_fails env w)
    \/ (match images_dir w with
        | Some _ => (let* files := readdir_images env in
                     unlink_images env files) w
        | None => (Ret tt, w)
        end = (Ret tt, set_images ((fun _ => ∅) <$> images_dir w) w)
        /\ ~ (exists d, images_dir w = Some d
                        /\ (readdir_ok env = false
                            \/ exists f, f ∈ d /\ unlink_ok env f = false)))).
  { destruct (images_dir w) as [d|] eqn:Hd.
    - unfold bind, readdir_images. rewrite Hd.
      destruct (readdir_ok env) eqn:Hr.
      + destruct (unlink_all_or_not env (elements d)) as [Hok|Hfail].
        * right. split.
          -- rewrite (unlink_images_ok env _ w d Hd Hok). cbn.
             do 3 f_equal. set_solver.
          -- intros (d' & [= <-] & [?|(f & Hf & Hff)]); [done|].
             rewrite Hok in Hff; [done|]. by apply elem_of_elements.
        * left. destruct (unlink_images_fail env _ w Hfail) as (e & w1 & ->).
          exists e, w1. split; [done|]. left. exists d. split; [done|]. right.
          destruct Hfail as (f & Hf & Hff). exists f.
          split; [by apply elem_of_elements|done].
      + left. eexists _, _. split; [done|]. left. exists d. auto.
    - right. split.
      + f_equal. symmetry. by apply set_images_same.
      + by intros (d & ? & _). }
  destruct Hdir as [(e & w1 & -> & Hfails) | [-> Hnodir]].
  { cbn. eexists _, _. split; [reflexivity|]. split; [|done].
    intros _. cbn. eauto. }
  unfold bind at 1. cbn [cache_file set_images].
  destruct (cache_file w) as [c|] eqn:Hc.
  - unfold unlink_cache_file. destruct (unlink_cache_ok env) eqn:Hu.
    + cbn. eexists _, _. split; [reflexivity|]. split.
      * intros [Hf|[_ ?]]; [by destruct Hnodir | congruence].
      * intros _. repeat split.
        unfold route_status, getCacheStats. cbn.
        destruct (images_dir w); cbn; [|done].
        destruct (readdir_ok env); done.
    + cbn. eexists _, _. split; [reflexivity|]. split.
      * intros _. cbn. eauto.
      * intros Hn. exfalso. apply Hn. right. by rewrite Hc.
  - cbn. eexists _, _. split; [reflexivity|]. split.
    + intros [Hf|[? _]]; [by destruct Hnodir | done].
    + intros _. repeat split.
      * cbn. by rewrite Hc.
      * unfold route_status, getCacheStats. cbn.
        destruct (images_dir w); cbn; [|done].
        destruct (readdir_ok env); done.
Qed.

Lemma cache_clear_complete_witness :
  stat_images (getCacheStats
                 (Sample.env (fun _ => FeedNoEntries) Sample.no_article Sample.online)
                 feedConfig Sample.populated) = 2%nat
  /\ route_status
       (Sample.env (fun _ => FeedNoEntries) Sample.no_article Sample.online)
       feedConfig
       (snd (route_delete_cache
               (Sample.env (fun _ => FeedNoEntries) Sample.no_article Sample.online)
               Sample.populated))
     = {| status := 200;
          body := StatusBody {| stat_feeds := 7; stat_articles := 0;
                                stat_images := 0; stat_lastUpdated := Never |} ∅ |}
  /\ status (match fst (route_delete_cache
                          (Sample.read_only
                             (Sample.env (fun _ => FeedNoEntries) Sample.no_article
                                         Sample.online))
                          Sample.populated) with
             | Ret r => r
             | Throw _ => {| status := 0; body := ErrorBody [] |}
             end) = 500%nat.
Proof.
  split; [vm_compute; reflexivity|]. split.
  - destruct (cache_clear_complete
                (Sample.env (fun _ => FeedNoEntries) Sample.no_article Sample.online)
                feedConfig Sample.populated) as (resp & w' & -> & _ & Hok).
    cbn [snd]. apply Hok.
    intros [(d & Hd & [H|(f & _ & H)])|[_ H]]; discriminate.
  - destruct (cache_clear_complete
                (Sample.read_only
                   (Sample.env (fun _ => FeedNoEntries) Sample.no_article
                               Sample.online))
                feedConfig Sample.populated) as (resp & w' & -> & Hfail & _).
    cbn [fst]. apply Hfail. right. split; [discriminate|reflexivity].
Defined.

(** ** At most one cycle *)

Lemma cycle_body_idle env cfg w :
  isRefreshing (snd (cycle_body env cfg w)) = false.
Proof.
  destruct (process_all_total env cfg (feeds cfg) w) as (results & w1 & Hrun & _).
  destruct (cycle_body_run _ _ _ _ _ Hrun) as (snap & w' & -> & _ & H & _).
  exact H.
Qed.

Lemma step_flag_matches env cfg ALLOWED_IPS ev s :
  flag_matches s -> flag_matches (step env cfg ALLOWED_IPS ev s).
Proof.
  unfold flag_matches. intros Hs. destruct ev as [| |req]; cbn [step].
  - unfold enter_cycle. destruct (isRefreshing (world s)) eqn:E; cbn.
    + by rewrite E.
    + by rewrite Hs.
  - unfold complete_cycle. destruct (running s) as [|n] eqn:Hn; [congruence|].
    cbn. rewrite cycle_body_idle.
    destruct (isRefreshing (world s)); congruence.
  - unfold handle. destruct (ipAllowListMiddleware ALLOWED_IPS req); [done|].
    destruct (req_method req); cbn [snd]; try done.
    + destruct (str_eqb (req_path req) FEEDS); [done|].
      by destruct (str_eqb (req_path req) STATUS).
    + destruct (str_eqb (req_path req) REFRESH); [|done].
      unfold route_refresh, enter_cycle.
      destruct (isRefreshing (world s)) eqn:E; cbn.
      * by rewrite E.
      * by rewrite Hs.
    + destruct (str_eqb (req_path req) CACHE); [|done].
      pose proof (route_delete_cache_flag env (world s)) as Hf.
      destruct (route_delete_cache env (world s)) as [[r|e] w']; cbn in *;
        by rewrite Hf.
Qed.

Lemma reachable_flag_matches env cfg ALLOWED_IPS s :
  reachable env cfg ALLOWED_IPS s -> flag_matches s.
Proof.
  induction 1 as [w Hw|ev s _ IH].
  - unfold flag_matches. cbn. by rewrite Hw.
  - by apply step_flag_matches.
Qed.

(** C2: while a cycle is running no second cycle starts.  In every state the
    server can reach with a cycle under way, a call of [fetchAllFeeds] returns
    the current snapshot and changes nothing, and [POST /api/refresh] is
    answered 409 with an error body and starts nothing: the one cycle is
    still the only one. *)
Theorem refresh_while_running_is_refused env cfg ALLOWED_IPS s :
  reachable env cfg ALLOWED_IPS s ->
  (0 < running s)%nat ->
  running s = 1%nat
  /\ enter_cycle s = (s, Some (cachedFeeds (world s)))
  /\ fetchAllFeeds env cfg (world s) = (Ret (cachedFeeds (world s)), world s)
  /\ route_refresh s
     = ({| status := 409; body := ErrorBody (js "Refresh already in progress") |},
        s)
  /\ (forall req,
         req_method req = POST -> req_path req = REFRESH ->
         ipAllowListMiddleware ALLOWED_IPS req = None ->
         handle env cfg ALLOWED_IPS req s
         = (Some {| status := 409;
                    body := ErrorBody (js "Refresh already in progress") |}, s))
  /\ running (step env cfg ALLOWED_IPS Call_fetchAllFeeds s) = 1%nat.
Proof.
  intros Hr Hrun. apply reachable_flag_matches in Hr. unfold flag_matches in Hr.
  destruct (isRefreshing (world s)) eqn:Hflag; [|lia].
  assert (He : enter_cycle s = (s, Some (cachedFeeds (world s))))
    by (unfold enter_cycle; by rewrite Hflag).
  assert (Hroute : route_refresh s
     = ({| status := 409; body := ErrorBody (js "Refresh already in progress") |}, s))
    by (unfold route_refresh; by rewrite Hflag).
  repeat split; auto.
  - unfold fetchAllFeeds. by rewrite Hflag.
  - intros req Hm Hp Hgate. unfold handle. rewrite Hgate, Hm, Hp.
    assert (str_eqb REFRESH REFRESH = true) as -> by reflexivity.
    by rewrite Hroute.
  - cbn [step]. by rewrite He.
Qed.

(** In every state the server can reach at most one cycle is under way. *)
Lemma at_most_one_cycle env cfg ALLOWED_IPS s :
  reachable env cfg ALLOWED_IPS s -> (running s <= 1)%nat.
Proof.
  intros Hr%reachable_flag_matches. unfold flag_matches in Hr.
  destruct (isRefreshing (world s)); lia.
Qed.

Lemma refresh_while_running_is_refused_witness :
  route_refresh
    (step (Sample.env (fun _ => FeedNoEntries) Sample.no_article Sample.online)
          feedConfig (parse_allowed None) Call_fetchAllFeeds
          {| world := Sample.world; running := 0 |})
  = ({| status := 409; body := ErrorBody (js "Refresh already in progress") |},
     step (Sample.env (fun _ => FeedNoEntries) Sample.no_article Sample.online)
          feedConfig (parse_allowed None) Call_fetchAllFeeds
          {| world := Sample.world; running := 0 |}).
Proof.
  apply (refresh_while_running_is_refused
           (Sample.env (fun _ => FeedNoEntries) Sample.no_article Sample.online)
           feedConfig (parse_allowed None)).
  - apply reach_step, reach_init. reflexivity.
  - cbn. constructor.
Defined.

(** ** The access gate *)

Lemma str_eqb_eq a b : str_eqb a b = true <-> a = b.
Proof. unfold str_eqb. apply bool_decide_eq_true. Qed.

Lemma includes_elem l x : includes l x = true <-> x ∈ l.
Proof.
  unfold includes. rewrite existsb_exists. split.
  - intros (y & Hy & ->%str_eqb_eq). by apply list_elem_of_In.
  - intros H. exists x. split; [by apply list_elem_of_In|by apply str_eqb_eq].
Qed.

Lemma existsb_elem {A} (f : A -> bool) (l : list A) :
  existsb f l = true <-> exists a, a ∈ l /\ f a = true.
Proof.
  rewrite existsb_exists. split; intros (a & Ha & Hf); exists a;
    (split; [by apply list_elem_of_In|done]).
Qed.

Lemma localhost_entry a :
  str_eqb a (js "127.0.0.1") || str_eqb a (js "::1") || str_eqb a (js "localhost")
  = is_localhost a.
Proof.
  unfold is_localhost.
  by destruct (str_eqb a (js "127.0.0.1")), (str_eqb a (js "::1")).
Qed.

Lemma isIpAllowed_rule ALLOWED_IPS ip :
  isIpAllowed ALLOWED_IPS ip = true <-> allow_rule ALLOWED_IPS ip.
Proof.
  unfold isIpAllowed, allow_rule.
  fold (is_localhost ip).
  destruct (includes ALLOWED_IPS (js "*")) eqn:Hstar.
  { apply includes_elem in Hstar. tauto. }
  destruct (includes ALLOWED_IPS ip) eqn:Hexact.
  { apply includes_elem in Hexact. tauto. }
  assert (Hns : ~ js "*" ∈ ALLOWED_IPS).
  { intros H%includes_elem. congruence. }
  assert (Hne : ~ ip ∈ ALLOWED_IPS).
  { intros H%includes_elem. congruence. }
  destruct (is_localhost ip) eqn:Hl.
  - rewrite existsb_elem. split.
    + intros (a & Ha & Hla). rewrite localhost_entry in Hla. eauto 10.
    + intros [?|[?|[[_ (a & Ha & Hla)]|[? _]]]]; try done.
      exists a. by rewrite localhost_entry.
  - rewrite existsb_elem. split.
    + intros (a & Ha & Hc). eauto 10.
    + intros [?|[?|[[? _]|[_ H]]]]; done.
Qed.

Lemma clear_cache_answer env w r w' :
  clear_cache env w = (Ret r, w') -> status r = 200%nat.
Proof.
  unfold clear_cache, bind.
  destruct (match images_dir w with
            | Some _ => _
            | None => _
            end) as [[[]|e] w1]; [|discriminate].
  destruct (match cache_file w1 with
            | Some _ => _
            | None => _
            end) as [[[]|e] w2]; [|discriminate].
  cbn. by intros [= <- _].
Qed.

Lemma routes_never_forbid env cfg ALLOWED_IPS req s r :
  ipAllowListMiddleware ALLOWED_IPS req = None ->
  fst (handle env cfg ALLOWED_IPS req s) = Some r -> status r <> 403%nat.
Proof.
  intros Hgate. unfold handle. rewrite Hgate.
  destruct (req_method req); cbn [fst].
  - destruct (str_eqb (req_path req) FEEDS); [by intros [= <-]|].
    destruct (str_eqb (req_path req) STATUS); [by intros [= <-]|done].
  - destruct (str_eqb (req_path req) REFRESH); [|done].
    unfold route_refresh. destruct (isRefreshing (world s)); by intros [= <-].
  - destruct (str_eqb (req_path req) CACHE); [|done].
    unfold route_delete_cache, try_catch.
    destruct (clear_cache env (world s)) as [[r0|e] w'] eqn:E; cbn.
    + intros [= <-]. by rewrite (clear_cache_answer _ _ _ _ E).
    + by intros [= <-].
  - done.
Qed.

(** The early return of the loopback branch, on every list: a caller at a
    loopback alias is judged by the loopback entries alone, so without the
    wildcard and without a loopback entry it is refused, whatever ranges are
    configured. *)
Lemma loopback_caller_skips_ranges ALLOWED_IPS ip :
  is_localhost ip = true ->
  js "*" ∉ ALLOWED_IPS ->
  (forall a, a ∈ ALLOWED_IPS -> is_localhost a = false) ->
  isIpAllowed ALLOWED_IPS ip = false.
Proof.
  intros Hl Hs Hno. destruct (isIpAllowed ALLOWED_IPS ip) eqn:E; [|done].
  apply isIpAllowed_rule in E as [?|[Hin|[[_ (a & Ha & Hla)]|[Hf _]]]].
  - done.
  - apply Hno in Hin. congruence.
  - apply Hno in Ha. congruence.
  - congruence.
Qed.

(** C9 (the code departs from the claim): with the range 127.0.0.0/8
    configured, a caller at 127.0.0.1 is inside the range, so the stated rule
    accepts it, and the gate answers 403 with an error body; a caller at
    127.0.0.2 goes through the range test and passes, and a caller at
    128.0.0.1, outside the range, is refused. *)
Theorem loopback_refused_inside_range :
  always_allowed (req_path Sample.from_loopback) = false
  /\ getClientIp Sample.from_loopback = js "127.0.0.1"
  /\ spec_cidr_match (js "127.0.0.1") (js "127.0.0.0/8") = true
  /\ spec_allow_rule (parse_allowed (Some (js "127.0.0.0/8"))) (js "127.0.0.1")
  /\ ipAllowListMiddleware (parse_allowed (Some (js "127.0.0.0/8")))
                           Sample.from_loopback
     = Some {| status := 403; body := ErrorBody (js "Access denied") |}
  /\ spec_cidr_match (js "127.0.0.2") (js "127.0.0.0/8") = true
  /\ isIpAllowed (parse_allowed (Some (js "127.0.0.0/8"))) (js "127.0.0.2") = true
  /\ spec_cidr_match (js "128.0.0.1") (js "127.0.0.0/8") = false
  /\ isIpAllowed (parse_allowed (Some (js "127.0.0.0/8"))) (js "128.0.0.1") = false.
Proof.
  split; [vm_compute; reflexivity|]. split; [vm_compute; reflexivity|].
  split; [vm_compute; reflexivity|]. split.
  { right. right. right. exists (js "127.0.0.0/8").
    split; [|vm_compute; reflexivity].
    apply list_elem_of_In. vm_compute. left. reflexivity. }
  split.
  { unfold ipAllowListMiddleware.
    assert (always_allowed (req_path Sample.from_loopback) = false) as ->
      by (vm_compute; reflexivity).
    rewrite (loopback_caller_skips_ranges
               (parse_allowed (Some (js "127.0.0.0/8")))
               (getClientIp Sample.from_loopback)); [reflexivity| | |].
    - vm_compute. reflexivity.
    - intros H%list_elem_of_In. vm_compute in H. by destruct H as [H|[]].
    - intros a H%list_elem_of_In. vm_compute in H. destruct H as [<-|[]].
      vm_compute. reflexivity. }
  repeat split; vm_compute; reflexivity.
Qed.

(** The CIDR test compares text: the first [prefix / 8] components of the
    network, joined by dots, must start the address. *)
Example cidr_is_a_text_prefix :
  cidr_match (js "10.10.1.7") (js "10.10.1.0/24") = true
  /\ cidr_match (js "10.10.2.7") (js "10.10.1.0/24") = false
  /\ cidr_match (js "10.10.10.7") (js "10.10.1.0/24") = true
  /\ cidr_match (js "203.0.113.9") (js "10.0.0.0/4") = true.
Proof. vm_compute. repeat split. Qed.

(** An entry without any date takes the time of the read. *)
Example missing_date_defaults_to_now :
  map pubDate
      (match fst (processFeed
                    (Sample.env (fun _ => FeedOk [Sample.entry None (js "<p>Patch now</p>")])
                                Sample.no_article Sample.online)
                    feedConfig Sample.feed Sample.world) with
       | Ret r => res_items r
       | Throw _ => []
       end)
  = [now (Sample.env (fun _ => FeedNoEntries) Sample.no_article Sample.online)].
Proof. vm_compute. reflexivity. Qed.

(* ================================================================= *)
(** * Further properties of the server *)

(** ** The access gate *)

(** X1: the gate judges the first entry of the [X-Forwarded-For] header when
    there is one: the caller's address is that entry, trimmed, whatever the
    connection says, and the request passes exactly when that entry is
    allowed. *)
Theorem forwarded_header_decides_gate ALLOWED_IPS req h first rest :
  x_forwarded_for req = Some h ->
  split_on (chr ",") h = first :: rest ->
  truthy (trim first) = true ->
  always_allowed (req_path req) = false ->
  getClientIp req = trim first
  /\ (ipAllowListMiddleware ALLOWED_IPS req = None
      <-> isIpAllowed ALLOWED_IPS (trim first) = true)
  /\ (ipAllowListMiddleware ALLOWED_IPS req
      = Some {| status := 403; body := ErrorBody (js "Access denied") |}
      <-> isIpAllowed ALLOWED_IPS (trim first) = false).
Proof.
  intros Hh Hsplit Htruthy Hpath.
  assert (Hip : getClientIp req = trim first).
  { unfold getClientIp. rewrite Hh, Hsplit. unfold or_else at 1.
    rewrite Htruthy. unfold or_default. by rewrite Htruthy. }
  split; [exact Hip|].
  unfold ipAllowListMiddleware. rewrite Hpath, Hip.
  destruct (isIpAllowed ALLOWED_IPS (trim first)); cbn; split; split;
    intros; congruence.
Qed.

Lemma forwarded_header_decides_gate_witness :
  getClientIp Sample.from_lan = js "10.10.1.7"
  /\ (ipAllowListMiddleware (parse_allowed (Some (js "10.10.1.7"))) Sample.from_lan
      = None
      <-> isIpAllowed (parse_allowed (Some (js "10.10.1.7"))) (js "10.10.1.7")
          = true).
Proof.
  destruct (forwarded_header_decides_gate
              (parse_allowed (Some (js "10.10.1.7"))) Sample.from_lan
              (js "10.10.1.7, 172.16.0.1") (js "10.10.1.7") [js " 172.16.0.1"])
    as (H1 & H2 & _); try (vm_compute; reflexivity).
  split; [exact H1 | exact H2].
Defined.

(** X2: the three loopback aliases stand for one another: with any of them
    configured, a caller at any of them is allowed; and the default list
    allows exactly the callers at a loopback alias. *)
Theorem loopback_aliases_interchangeable :
  (forall ALLOWED_IPS a ip,
      a ∈ ALLOWED_IPS -> is_localhost a = true -> is_localhost ip = true ->
      isIpAllowed ALLOWED_IPS ip = true)
  /\ (forall ip, isIpAllowed (parse_allowed None) ip = is_localhost ip).
Proof.
  split.
  - intros ALLOWED_IPS a ip Ha Hla Hlip. apply isIpAllowed_rule.
    right. right. left. eauto.
  - intros ip.
    assert (parse_allowed None = [js "127.0.0.1"; js "::1"; js "localhost"])
      as -> by (vm_compute; reflexivity).
    unfold isIpAllowed, includes, is_localhost. cbn [existsb].
    assert (str_eqb (js "*") (js "127.0.0.1") = false) as -> by reflexivity.
    assert (str_eqb (js "*") (js "::1") = false) as -> by reflexivity.
    assert (str_eqb (js "*") (js "localhost") = false) as -> by reflexivity.
    cbn [orb].
    destruct (str_eqb ip (js "127.0.0.1")) eqn:E1; [by rewrite orb_true_r|].
    destruct (str_eqb ip (js "::1")) eqn:E2; [reflexivity|].
    destruct (str_eqb ip (js "localhost")) eqn:E3; [reflexivity|].
    cbn [orb]. unfold cidr_match.
    assert (forall a, a ∈ [js "127.0.0.1"; js "::1"; js "localhost"] ->
                      existsb (fun c => c =? chr "/") a = false) as Hno.
    { intros a Ha. repeat (apply elem_of_cons in Ha as [->|Ha]; [reflexivity|]).
      by apply elem_of_nil in Ha. }
    rewrite !Hno by (repeat constructor). reflexivity.
Qed.

Lemma loopback_aliases_interchangeable_witness :
  isIpAllowed (parse_allowed (Some (js "::1, 192.168.1.100"))) (js "localhost")
  = true.
Proof.
  apply (proj1 loopback_aliases_interchangeable _ (js "::1")).
  - apply list_elem_of_In. vm_compute. left. reflexivity.
  - reflexivity.
  - reflexivity.
Defined.

Lemma split_on_sep sep (a b : jsstring) :
  existsb (fun c => c =? sep) a = false ->
  split_on sep (a ++ sep :: b) = a :: split_on sep b.
Proof.
  induction a as [|c a IH]; cbn [app split_on existsb].
  - by rewrite N.eqb_refl.
  - intros [Hc Ha]%orb_false_iff. rewrite Hc, (IH Ha). reflexivity.
Qed.

Lemma split_on_none sep (s : jsstring) :
  existsb (fun c => c =? sep) s = false -> split_on sep s = [s].
Proof.
  induction s as [|c s IH]; cbn [split_on existsb]; [done|].
  intros [Hc Hs]%orb_false_iff. by rewrite Hc, (IH Hs).
Qed.

Lemma startsWith_nil (s : jsstring) : startsWith s [] = true.
Proof. by destruct s. Qed.

(** X3: an entry [network/prefix] whose prefix length is not a number, or is
    under 8 in absolute value, lets in every caller that is not a loopback
    alias: no component of the network is compared. *)
Theorem short_cidr_prefix_allows_all ALLOWED_IPS network prefix ip :
  (network ++ chr "/" :: prefix) ∈ ALLOWED_IPS ->
  existsb (fun c => c =? chr "/") network = false ->
  existsb (fun c => c =? chr "/") prefix = false ->
  match parseInt prefix with
  | Some n => (-8 < n < 8)%Z
  | None => True
  end ->
  is_localhost ip = false ->
  cidr_match ip (network ++ chr "/" :: prefix) = true
  /\ isIpAllowed ALLOWED_IPS ip = true.
Proof.
  intros Hin Hnet Hpre Hn Hip.
  assert (Hc : cidr_match ip (network ++ chr "/" :: prefix) = true).
  { unfold cidr_match. rewrite existsb_app. cbn [existsb].
    rewrite N.eqb_refl, orb_true_r. cbn [andb].
    rewrite (split_on_sep _ _ _ Hnet), (split_on_none _ _ Hpre).
    assert (slice_eighth (split_on (chr ".") network) (parseInt prefix) = []) as ->.
    { destruct (parseInt prefix) as [n|]; [|reflexivity]. unfold slice_eighth.
      assert (Z.quot n 8 = 0)%Z as -> by (apply Z.quot_small_iff; lia).
      reflexivity. }
    apply startsWith_nil. }
  split; [exact Hc|]. apply isIpAllowed_rule. right. right. right.
  split; [exact Hip|]. eauto.
Qed.

Lemma short_cidr_prefix_allows_all_witness :
  isIpAllowed (parse_allowed (Some (js "10.0.0.0/4"))) (js "203.0.113.9") = true
  /\ isIpAllowed (parse_allowed (Some (js "10.0.0.0/x"))) (js "203.0.113.9") = true.
Proof.
  split.
  - apply (short_cidr_prefix_allows_all _ (js "10.0.0.0") (js "4")).
    + apply list_elem_of_In. vm_compute. left. reflexivity.
    + reflexivity.
    + reflexivity.
    + vm_compute. split; reflexivity.
    + reflexivity.
  - apply (short_cidr_prefix_allows_all _ (js "10.0.0.0") (js "x")).
    + apply list_elem_of_In. vm_compute. left. reflexivity.
    + reflexivity.
    + reflexivity.
    + vm_compute. exact I.
    + reflexivity.
Defined.

(** X4: the paths the gate lets through unchecked never reach an API route:
    such a request is left to the static file handlers and the state of the
    server is unchanged, whoever the caller is. *)
Theorem static_exemption_never_reaches_api env cfg ALLOWED_IPS req s :
  always_allowed (req_path req) = true ->
  handle env cfg ALLOWED_IPS req s = (None, s).
Proof.
  intros Hpath.
  assert (Hne : forall endpoint,
             always_allowed endpoint = false ->
             str_eqb (req_path req) endpoint = false).
  { intros endpoint He. destruct (str_eqb (req_path req) endpoint) eqn:E; [|done].
    apply str_eqb_eq in E. congruence. }
  unfold handle, ipAllowListMiddleware. rewrite Hpath.
  destruct (req_method req).
  - rewrite (Hne FEEDS), (Hne STATUS) by reflexivity. reflexivity.
  - rewrite (Hne REFRESH) by reflexivity. reflexivity.
  - rewrite (Hne CACHE) by reflexivity. reflexivity.
  - reflexivity.
Qed.

Lemma static_exemption_never_reaches_api_witness :
  handle (Sample.env (fun _ => FeedNoEntries) Sample.no_article Sample.online)
         feedConfig []
         {| req_method := DELETE; req_path := js "/images/0a1b.png";
            x_forwarded_for := None; x_real_ip := None;
            connection_remoteAddress := Some (js "203.0.113.9");
            socket_remoteAddress := None; req_ip := None |}
         {| world := Sample.populated; running := 0 |}
  = (None, {| world := Sample.populated; running := 0 |}).
Proof.
  apply static_exemption_never_reaches_api. reflexivity.
Defined.

(** ** The request log *)

Lemma logRequest_take env ua req log :
  (length log <= MAX_LOG_ENTRIES)%nat ->
  exists entry,
    logRequest env ua req log = take MAX_LOG_ENTRIES (entry :: log)
    /\ log_path entry = req_path req /\ log_ip entry = getClientIp req
    /\ log_method entry = req_method req /\ log_timestamp entry = now env
    /\ (length (log_userAgent entry) <= 50)%nat.
Proof.
  intros Hlen. unfold logRequest.
  exists {| log_timestamp := now env;
            log_ip := getClientIp req;
            log_method := req_method req;
            log_path := req_path req;
            log_userAgent := substring0 50 (or_default ua (js "Unknown")) |}.
  split; [|split; [reflexivity|split; [reflexivity|split; [reflexivity|split;
          [reflexivity|]]]]].
  - destruct (MAX_LOG_ENTRIES <? length (_ :: log))%nat eqn:E.
    + apply Nat.ltb_lt in E. cbn [length] in E.
      rewrite removelast_firstn_len. cbn [length Nat.pred].
      assert (length log = MAX_LOG_ENTRIES) as -> by lia. reflexivity.
    + apply Nat.ltb_ge in E. symmetry. by apply take_ge.
  - cbn [log_userAgent]. unfold substring0. rewrite length_take. lia.
Qed.

Lemma take_app_take_le {A} (x y : list A) :
  forall m n, (m <= n)%nat -> take m (x ++ take n y) = take m (x ++ y).
Proof.
  induction x as [|a x IH]; intros m n Hmn; cbn [app].
  - rewrite take_take. f_equal. lia.
  - destruct m as [|m]; [reflexivity|]. cbn [take]. f_equal. apply IH. lia.
Qed.

(** X5: the request log never holds more than 100 entries, has the latest
    request first, and drops the oldest ones: after any sequence of requests
    that reach [logRequest] it lists the last 100 of them, newest first, each
    with the caller's address and at most 50 code units of the user agent. *)
Theorem request_log_keeps_last_hundred env reqs :
  (length (log_requests env reqs) <= 100)%nat
  /\ map log_path (log_requests env reqs)
     = take 100 (reverse (map (fun r => req_path (snd r)) reqs))
  /\ map log_ip (log_requests env reqs)
     = take 100 (reverse (map (fun r => getClientIp (snd r)) reqs))
  /\ Forall (fun e => (length (log_userAgent e) <= 50)%nat) (log_requests env reqs).
Proof.
  unfold log_requests.
  assert (H : forall acc,
             (length acc <= 100)%nat ->
             Forall (fun e => (length (log_userAgent e) <= 50)%nat) acc ->
             let out := fold_left (fun log r => logRequest env (fst r) (snd r) log)
                                  reqs acc in
             (length out <= 100)%nat
             /\ map log_path out
                = take 100 (reverse (map (fun r => req_path (snd r)) reqs)
                            ++ map log_path acc)
             /\ map log_ip out
                = take 100 (reverse (map (fun r => getClientIp (snd r)) reqs)
                            ++ map log_ip acc)
             /\ Forall (fun e => (length (log_userAgent e) <= 50)%nat) out).
  { induction reqs as [|[ua req] reqs IH]; intros acc Hacc Hua; cbn [fold_left map].
    - cbn zeta. rewrite !reverse_nil, !app_nil_l.
      rewrite !take_ge by (rewrite length_map; lia). auto.
    - destruct (logRequest_take env ua req acc Hacc)
        as (entry & Hlog & Hp & Hi & _ & _ & Hu).
      cbn [fst snd]. rewrite Hlog.
      destruct (IH (take MAX_LOG_ENTRIES (entry :: acc))) as (H1 & H2 & H3 & H4).
      { rewrite length_take. unfold MAX_LOG_ENTRIES. lia. }
      { apply Forall_take. by constructor. }
      cbn zeta. split; [exact H1|]. split; [|split; [|exact H4]].
      + rewrite H2, !reverse_cons, <- !app_assoc. cbn [app].
        rewrite <- Hp. unfold MAX_LOG_ENTRIES.
        change (log_path entry :: map log_path acc) with (map log_path (entry :: acc)).
        rewrite <- !firstn_map. by apply take_app_take_le.
      + rewrite H3, !reverse_cons, <- !app_assoc. cbn [app].
        rewrite <- Hi. unfold MAX_LOG_ENTRIES.
        change (log_ip entry :: map log_ip acc) with (map log_ip (entry :: acc)).
        rewrite <- !firstn_map. by apply take_app_take_le. }
  assert (H0 : (length (@nil LogEntry) <= 100)%nat) by (cbn; lia).
  assert (HF : Forall (fun e => (length (log_userAgent e) <= 50)%nat) [])
    by constructor.
  destruct (H [] H0 HF) as (H1 & H2 & H3 & H4).
  cbn [map] in H2, H3. rewrite app_nil_r in H2, H3. auto.
Qed.

(** ** The size of the cache directory *)

Lemma FsNode_nested_ind (P : FsNode -> Prop) :
  (forall size, P (FsFile size)) ->
  (forall entries, Forall P entries -> P (FsDir entries)) ->
  P FsUnreadable -> P FsUnstatable ->
  forall n, P n.
Proof.
  intros Hfile Hdir Hunread Hunstat.
  exact (fix F (n : FsNode) : P n :=
           match n with
           | FsFile size => Hfile size
           | FsDir entries =>
               Hdir entries
                    ((fix G (l : list FsNode) : Forall P l :=
                        match l with
                        | [] => @List.Forall_nil FsNode P
                        | e :: rest => @List.Forall_cons FsNode P e rest (F e) (G rest)
                        end) entries)
           | FsUnreadable => Hunread
           | FsUnstatable => Hunstat
           end).
Qed.

Lemma getDirectorySize_cons e rest :
  getDirectorySize (FsDir (e :: rest))
  = match e with
    | FsUnstatable => 0
    | FsFile size => size + getDirectorySize (FsDir rest)
    | d => getDirectorySize d + getDirectorySize (FsDir rest)
    end.
Proof. by destruct e. Qed.

Lemma total_bytes_cons e rest :
  total_bytes (FsDir (e :: rest)) = total_bytes e + total_bytes (FsDir rest).
Proof. reflexivity. Qed.

Lemma fs_healthy_cons e rest :
  fs_healthy (FsDir (e :: rest)) = fs_healthy e && fs_healthy (FsDir rest).
Proof. reflexivity. Qed.

(** X6: [getDirectorySize] never reports more than the bytes of the files
    under the directory, and reports exactly that when every directory can be
    read and every entry examined. *)
Theorem directory_size_bounded entries :
  getDirectorySize (FsDir entries) <= total_bytes (FsDir entries)
  /\ (fs_healthy (FsDir entries) = true ->
      getDirectorySize (FsDir entries) = total_bytes (FsDir entries)).
Proof.
  assert (H : forall n,
             getDirectorySize n <= total_bytes n
             /\ (fs_healthy n = true ->
                 match n with
                 | FsDir _ => getDirectorySize n = total_bytes n
                 | _ => True
                 end)).
  { induction n as [size|l IH| |] using FsNode_nested_ind;
      [cbn; split; [lia|done] | | cbn; split; [lia|done] | cbn; split; [lia|done]].
    induction IH as [|e rest [He1 He2] _ [IH1 IH2]].
    - split; [reflexivity|done].
    - rewrite getDirectorySize_cons, total_bytes_cons, fs_healthy_cons.
      split.
      + destruct e; cbn [total_bytes] in *; lia.
      + intros [Hhe Hhr]%andb_true_iff. specialize (IH2 Hhr). specialize (He2 Hhe).
        destruct e; cbn [total_bytes] in *; try discriminate; lia. }
  destruct (H (FsDir entries)) as [H1 H2]. auto.
Qed.

Lemma directory_size_bounded_witness :
  getDirectorySize
    (FsDir [FsFile 2048; FsDir [FsFile 100; FsFile 24]; FsFile 7])
  = 2179.
Proof.
  rewrite (proj2 (directory_size_bounded
                    [FsFile 2048; FsDir [FsFile 100; FsFile 24]; FsFile 7])
                 eq_refl).
  reflexivity.
Defined.

(** What is lost when an entry cannot be examined: the files listed after it
    and, for a directory that cannot be read, the files under it. *)
Example directory_size_after_failure :
  getDirectorySize (FsDir [FsFile 2048; FsUnstatable; FsFile 7]) = 2048
  /\ getDirectorySize (FsDir [FsFile 2048; FsUnreadable; FsFile 7]) = 2055.
Proof. split; reflexivity. Qed.

(** ** The cached references and the front end *)

Lemma startsWith_app (p f : jsstring) : startsWith (p ++ f) p = true.
Proof.
  induction p as [|c p IH]; [apply startsWith_nil|].
  cbn [app startsWith]. by rewrite N.eqb_refl, IH.
Qed.

Lemma local_reference_is_cached_image (f : jsstring) backend :
  isCachedImage (Some (js "/images/" ++ f)) = true
  /\ getBackendImageUrl backend (Some (js "/images/" ++ f))
     = Some (or_default backend [] ++ js "/images/" ++ f).
Proof.
  unfold isCachedImage, getBackendImageUrl. rewrite startsWith_app.
  change (truthy (js "/images/" ++ f)) with true.
  change (startsWith (js "/images/" ++ f) (js "http://")) with false.
  change (startsWith (js "/images/" ++ f) (js "https://")) with false.
  split; [reflexivity|].
  cbn [negb orb]. unfold or_default.
  destruct backend as [[|c b]|]; reflexivity.
Qed.

(** X7: every reference that [cacheImage] or [cacheFavicon] returns is one the
    front end takes for a cached image, and [getBackendImageUrl] resolves it
    against the configured backend URL (and leaves it as it is without one). *)
Theorem cached_reference_served_by_backend env imageUrl iconUrl feedName w backend :
  (forall ref w',
      cacheImage env imageUrl w = (Ret (Some ref), w') ->
      isCachedImage (Some ref) = true
      /\ getBackendImageUrl backend (Some ref)
         = Some (or_default backend [] ++ ref))
  /\ (forall ref w',
         cacheFavicon env iconUrl feedName w = (Ret (Some ref), w') ->
         isCachedImage (Some ref) = true
         /\ getBackendImageUrl backend (Some ref)
            = Some (or_default backend [] ++ ref)).
Proof.
  split; intros ref w' H.
  - destruct (guarded_download_total env imageUrl (urlToFilename env imageUrl) w)
      as (r & w1 & Hrun & [->| ->]); unfold cacheImage in H; rewrite Hrun in H;
      [discriminate|].
    injection H as <- _. apply local_reference_is_cached_image.
  - destruct (guarded_download_total env iconUrl
                (faviconFilename env iconUrl feedName) w)
      as (r & w1 & Hrun & [->| ->]); unfold cacheFavicon in H; rewrite Hrun in H;
      [discriminate|].
    injection H as <- _. apply local_reference_is_cached_image.
Qed.

Lemma cached_reference_served_by_backend_witness :
  getBackendImageUrl (Some (js "http://soc.example:3003"))
    (Some (js "/images/" ++ Sample.hash (js "https://cdn.example/inline.png")
           ++ js ".png"))
  = Some (js "http://soc.example:3003/images/"
          ++ Sample.hash (js "https://cdn.example/inline.png") ++ js ".png").
Proof.
  destruct (proj1 (cached_reference_served_by_backend
                     (Sample.env (fun _ => FeedNoEntries) Sample.no_article
                                 Sample.online)
                     (js "https://cdn.example/inline.png") [] [] Sample.world
                     (Some (js "http://soc.example:3003")))
                  (js "/images/" ++ Sample.hash (js "https://cdn.example/inline.png")
                   ++ js ".png")
                  (snd (cacheImage (Sample.env (fun _ => FeedNoEntries)
                                      Sample.no_article Sample.online)
                                   (js "https://cdn.example/inline.png")
                                   Sample.world)))
    as [_ H]; [vm_compute; reflexivity|].
  rewrite H. vm_compute. reflexivity.
Defined.

(** ** The shape of stripped text *)

Lemma star_run p s :
  star p s (fun rest => Some (rest, @None jsstring))
  = Some (drop (run_length p s) s, None).
Proof.
  induction s as [|c s IH]; cbn [star run_length]; [reflexivity|].
  destruct (p c); [|reflexivity]. by rewrite IH.
Qed.

Lemma run_length_le p s : (run_length p s <= length s)%nat.
Proof.
  induction s as [|c s IH]; cbn [run_length length]; [lia|].
  destruct (p c); lia.
Qed.

Lemma match_len_plus p c s :
  match_len (plus p) (c :: s)
  = if p c then Some (S (run_length p s)) else None.
Proof.
  unfold match_len, match_at, plus. cbn [bt].
  destruct (p c); [|reflexivity]. rewrite star_run.
  pose proof (run_length_le p s). rewrite length_drop. cbn [length].
  f_equal. lia.
Qed.

Lemma replace_plus_cons p rep c s :
  replace_go (plus p) rep 0 (c :: s)
  = if p c then rep ++ replace_go (plus p) rep (run_length p s) s
    else c :: replace_go (plus p) rep 0 s.
Proof.
  cbn [replace_go]. rewrite match_len_plus. by destruct (p c).
Qed.

Lemma replace_plus_nil p rep n : replace_go (plus p) rep n [] = [].
Proof. by destruct n. Qed.

Lemma collapse_spaces_shape s :
  single_spaced (replace_go re_spaces [SP] 0 s) = true
  /\ single_spaced (replace_go re_spaces [SP] (run_length is_space s) s) = true
  /\ starts_clean (replace_go re_spaces [SP] (run_length is_space s) s).
Proof.
  unfold re_spaces.
  induction s as [|c s (IH1 & IH2 & IH3)].
  - rewrite !replace_plus_nil. cbn. auto.
  - rewrite replace_plus_cons. cbn [run_length].
    destruct (is_space c) eqn:Hc.
    + cbn [replace_go]. split; [|split; [exact IH2|exact IH3]].
      cbn [app single_spaced].
      assert (is_space SP = true) as -> by reflexivity.
      rewrite N.eqb_refl, IH2. cbn [andb].
      destruct (replace_go (plus is_space) [SP] (run_length is_space s) s)
        as [|d t]; [reflexivity|].
      cbn in IH3. by rewrite IH3.
    + assert (Hout : single_spaced (c :: replace_go (plus is_space) [SP] 0 s) = true).
      { cbn [single_spaced]. by rewrite Hc, IH1. }
      rewrite replace_plus_cons, Hc. split; [exact Hout|]. split; [exact Hout|].
      exact Hc.
Qed.

Lemma single_spaced_tail c s : single_spaced (c :: s) = true -> single_spaced s = true.
Proof. cbn [single_spaced]. by intros [_ ?]%andb_true_iff. Qed.

Lemma single_spaced_suffix a b : single_spaced (a ++ b) = true -> single_spaced b = true.
Proof.
  induction a as [|c a IH]; [done|]. intros H%single_spaced_tail. by apply IH.
Qed.

Lemma single_spaced_prefix a b : single_spaced (a ++ b) = true -> single_spaced a = true.
Proof.
  induction a as [|c a IH]; [done|]. cbn [app single_spaced].
  intros [Hc Ht]%andb_true_iff. rewrite (IH Ht), andb_true_r.
  destruct (is_space c); [|done].
  apply andb_true_iff in Hc as [-> Hn]. cbn [andb].
  destruct a as [|d a]; [done|exact Hn].
Qed.

Lemma drop_space_suffix s : exists a, s = a ++ drop_space s.
Proof.
  induction s as [|c s (a & IH)]; [by exists []|]. cbn [drop_space].
  destruct (is_space c); [|by exists []].
  exists (c :: a). cbn [app]. by f_equal.
Qed.

Lemma drop_space_clean s : starts_clean (drop_space s).
Proof.
  induction s as [|c s IH]; [done|]. cbn [drop_space].
  destruct (is_space c) eqn:E; [exact IH|exact E].
Qed.

(** [trim s] is a stretch of [s]. *)
Lemma trim_infix s : exists a b, s = a ++ trim s ++ b.
Proof.
  unfold trim. destruct (drop_space_suffix s) as (a & Ha).
  destruct (drop_space_suffix (reverse (drop_space s))) as (b & Hb).
  exists a, (reverse b). rewrite Ha at 1. f_equal.
  rewrite <- reverse_app, <- Hb. by rewrite reverse_involutive.
Qed.

Lemma trim_is_trimmed s : trimmed (trim s) = true.
Proof.
  unfold trim, trimmed.
  remember (drop_space s) as t eqn:Et.
  remember (drop_space (reverse t)) as u eqn:Eu.
  destruct (reverse u) as [|c r] eqn:Er; [reflexivity|].
  rewrite <- Er, reverse_involutive.
  destruct u as [|d u']; [reflexivity|].
  assert (Hd : is_space d = false).
  { pose proof (drop_space_clean (reverse t)) as H. by rewrite <- Eu in H. }
  assert (Hc : is_space c = false).
  { destruct (drop_space_suffix (reverse t)) as (a & Ha). rewrite <- Eu in Ha.
    apply (f_equal reverse) in Ha.
    rewrite reverse_involutive, reverse_app, Er in Ha.
    pose proof (drop_space_clean s) as H. rewrite <- Et, Ha in H. exact H. }
  by rewrite Hc, Hd.
Qed.

(** X8: the text [stripHtml] returns is on one line and tidy: every
    white-space code unit in it is a single plain space between two other
    code units, and it neither starts nor ends with white space.  So is the
    300-unit description of an item, up to a space at its cut end. *)
Theorem stripHtml_single_spaced html :
  single_spaced (stripHtml html) = true
  /\ trimmed (stripHtml html) = true
  /\ single_spaced (substring0 300 (stripHtml html)) = true
  /\ starts_clean (substring0 300 (stripHtml html))
  /\ (length (substring0 300 (stripHtml html)) <= 300)%nat.
Proof.
  assert (H : single_spaced (stripHtml html) = true /\ trimmed (stripHtml html) = true).
  { unfold stripHtml. destruct html as [h|]; [|by split].
    destruct (truthy h); [|by split]. split; [|apply trim_is_trimmed].
    destruct (trim_infix (replace_all re_spaces [SP] (replace_all re_tag [SP] h)))
      as (a & b & Hab).
    destruct (collapse_spaces_shape (replace_all re_tag [SP] h)) as (Hs & _).
    fold (replace_all re_spaces [SP] (replace_all re_tag [SP] h)) in Hs.
    rewrite Hab in Hs. apply single_spaced_suffix in Hs.
    by apply single_spaced_prefix in Hs. }
  destruct H as [Hs Ht]. split; [exact Hs|]. split; [exact Ht|].
  unfold substring0. split; [|split].
  - rewrite <- (take_drop 300 (stripHtml html)) in Hs.
    by apply single_spaced_prefix in Hs.
  - unfold trimmed in Ht. destruct (stripHtml html) as [|c t]; [done|].
    cbn [take starts_clean].
    destruct (reverse (c :: t)) as [|d r] eqn:E.
    + apply (f_equal (@length N)) in E. rewrite length_reverse in E. discriminate.
    + apply andb_true_iff in Ht as [Hc _]. by apply negb_true_iff in Hc.
  - rewrite length_take. lia.
Qed.

(** The same on text that needs all of it. *)
Example stripHtml_example :
  stripHtml (Some ([TAB] ++ js "<div><p>Patch" ++ [NL; 160] ++ js "now </p>  <b>today</b>" ++ [NL] ++ js "</div>"))
  = js "Patch now today".
Proof. vm_compute. reflexivity. Qed.

(** ** What processing a source leaves alone *)

Lemma only_caches_refl w : only_caches w w.
Proof.
  unfold only_caches. repeat split; [by exists []|].
  by destruct (images_dir w).
Qed.

Lemma only_caches_trans w1 w2 w3 :
  only_caches w1 w2 -> only_caches w2 w3 -> only_caches w1 w3.
Proof.
  unfold only_caches.
  intros (A1 & B1 & C1 & (m1 & D1) & E1) (A2 & B2 & C2 & (m2 & D2) & E2).
  repeat split; try congruence.
  - exists (m2 ++ m1). rewrite D2, D1. by rewrite app_assoc.
  - destruct (images_dir w1), (images_dir w2), (images_dir w3); try done.
    set_solver.
Qed.

Lemma only_caches_log u w : only_caches w (log_request u w).
Proof.
  unfold only_caches. cbn. repeat split; [by exists [u]|].
  by destruct (images_dir w).
Qed.

Lemma guarded_download_frame env u f w :
  only_caches w (snd (try_catch (download env u f) (fun _ => ret None) w)).
Proof.
  unfold try_catch. destruct (cached f w) eqn:Hc.
  - rewrite (download_cached _ _ _ _ Hc). apply only_caches_refl.
  - rewrite (download_fresh _ _ _ _ Hc).
    destruct (net_fetch env u) as [|[] [b|]]; cbn; try apply only_caches_log.
    destruct (images_dir w) as [d|] eqn:Hd; cbn; [|apply only_caches_log].
    destruct (write_ok env f); cbn; [|apply only_caches_log].
    unfold only_caches. cbn. repeat split; [by exists [u]|].
    rewrite Hd. set_solver.
Qed.

Lemma build_item_cases env feed cachedIcon pushed rawItem w :
  exists o w' cachedImageUrl,
    build_item env feed cachedIcon pushed rawItem w = (o, w')
    /\ cache_best env rawItem w = (Ret cachedImageUrl, w')
    /\ only_caches w w'
    /\ match date_parse env (raw_pubDate rawItem) with
       | None => exists e, o = Throw e
       | Some t =>
           exists item,
             o = Ret item
             /\ built_from env feed cachedIcon cachedImageUrl rawItem item
             /\ id_index (id item) = pushed
       end.
Proof.
  unfold build_item, built_from, cache_best, best_image, bind at 1.
  destruct (or_else (ac_image (extractArticleContent env (raw_link rawItem)))
                    (raw_image rawItem)) as [best|].
  - fold (resolve_image env (raw_link rawItem) best).
    set (u := resolve_image env (raw_link rawItem) best).
    unfold bind at 1.
    pose proof (guarded_download_frame env u (urlToFilename env u) w) as Hframe.
    destruct (guarded_download_total env u (urlToFilename env u) w)
      as (r & w1 & Hrun & Hr).
    fold (cacheImage env u) in Hrun, Hframe. rewrite Hrun in Hframe |- *.
    cbn [snd] in Hframe. cbn [ret fst snd].
    unfold bind, date_toISOString.
    destruct (date_parse env (raw_pubDate rawItem)) as [t|]; cbn.
    + eexists _, _, r. split; [reflexivity|]. split; [reflexivity|].
      split; [exact Hframe|].
      eexists. split; [reflexivity|]. cbn. repeat split.
    + eexists _, _, r. split; [reflexivity|]. split; [reflexivity|].
      split; [exact Hframe|]. eauto.
  - cbn [ret fst snd]. unfold bind, date_toISOString.
    destruct (date_parse env (raw_pubDate rawItem)) as [t|]; cbn.
    + eexists _, _, None. split; [reflexivity|]. split; [reflexivity|].
      split; [apply only_caches_refl|].
      eexists. split; [reflexivity|]. cbn. repeat split.
    + eexists _, _, None. split; [reflexivity|]. split; [reflexivity|].
      split; [apply only_caches_refl|]. eauto.
Qed.

Lemma process_items_spec env feed cachedIcon rawItems :
  forall items w,
    exists new w',
      process_items env feed cachedIcon items rawItems w = (Ret (items ++ new), w')
      /\ only_caches w w'
      /\ built_in_turn env feed cachedIcon w (length items) rawItems new w'.
Proof.
  induction rawItems as [|rawItem rest IH]; intros items w; cbn [process_items].
  - exists [], w. rewrite app_nil_r.
    split; [reflexivity|]. split; [apply only_caches_refl|constructor].
  - unfold bind at 1, try_catch, bind at 1.
    destruct (build_item_cases env feed cachedIcon (length items) rawItem w)
      as (o & w1 & c & -> & Hcache & Hf1 & Hcase).
    destruct (date_parse env (raw_pubDate rawItem)) as [t|] eqn:Hdate.
    + destruct Hcase as (item & -> & Hbuilt & Hidx). cbn [ret].
      destruct (IH (items ++ [item]) w1) as (new & w2 & -> & Hf2 & Hturn).
      exists (item :: new), w2. rewrite <- app_assoc. cbn [app].
      split; [reflexivity|]. split; [by eapply only_caches_trans|].
      rewrite length_app, Nat.add_1_r in Hturn.
      by eapply turn_pushed.
    + destruct Hcase as (e & ->). cbn [ret].
      destruct (IH items w1) as (new & w2 & -> & Hf2 & Hturn).
      exists new, w2. split; [reflexivity|].
      split; [by eapply only_caches_trans|].
      by eapply turn_skipped.
Qed.

(** What the loop gives, read without the states: one item for each entry
    whose date parses, in order, at consecutive positions. *)
Lemma built_in_turn_items env feed cachedIcon w pushed rawItems items w' :
  built_in_turn env feed cachedIcon w pushed rawItems items w' ->
  Forall2 (fun rawItem item =>
             exists cachedImageUrl,
               built_from env feed cachedIcon cachedImageUrl rawItem item)
          (List.filter (date_parses env) rawItems) items
  /\ (forall k item, items !! k = Some item ->
                     id_index (id item) = (pushed + k)%nat).
Proof.
  induction 1 as [w pushed
                 |w pushed rawItem rest c w1 item items w2 Hc Hb Hidx _ [IH1 IH2]
                 |w pushed rawItem rest c w1 items w2 Hc Hd _ [IH1 IH2]].
  - split; [constructor|]. intros k item H. by rewrite lookup_nil in H.
  - cbn [List.filter]. unfold date_parses at 1.
    destruct Hb as (B1 & B2 & B3 & B4 & B5 & B6 & B7).
    rewrite B6. split.
    + constructor; [|exact IH1]. exists c. by repeat split; try tauto.
    + intros [|k] it Hk.
      * injection Hk as <-. lia.
      * rewrite (IH2 k it Hk). lia.
  - cbn [List.filter]. unfold date_parses at 1. rewrite Hd. by split.
Qed.

Lemma processFeed_spec env cfg feed w :
  exists r w',
    processFeed env cfg feed w = (Ret r, w')
    /\ only_caches w w'
    /\ res_feedName r = name feed
    /\ match extractFeed env (url feed) with
       | FeedThrows message =>
           r = {| res_success := false; res_feedName := name feed;
                  res_error := Some message; res_items := [] |}
           /\ w' = w
       | other =>
           res_success r = true /\ res_error r = None
           /\ exists cachedIcon w0,
                cacheFavicon env (icon feed) (name feed) w = (Ret cachedIcon, w0)
                /\ (cachedIcon = None
                    \/ cachedIcon
                       = Some (js "/images/"
                               ++ faviconFilename env (icon feed) (name feed)))
                /\ built_in_turn env feed cachedIcon w0 0
                     (take (maxItemsPerFeed cfg)
                           (match other with
                            | FeedOk entries => map (parse_entry env) entries
                            | _ => []
                            end))
                     (res_items r) w'
       end.
Proof.
  unfold processFeed, try_catch, bind at 1, parseFeed.
  assert (Hok : forall rawItems,
    exists r w',
      (let (o, w'0) :=
         (let* cachedIcon := cacheFavicon env (icon feed) (name feed) in
          let* items := process_items env feed cachedIcon []
                          (take (maxItemsPerFeed cfg) rawItems) in
          ret {| res_success := true; res_feedName := name feed;
                 res_error := None; res_items := items |}) w in
       match o with
       | Ret a => (Ret a, w'0)
       | Throw e =>
           ret {| res_success := false; res_feedName := name feed;
                  res_error := Some e; res_items := [] |} w'0
       end) = (Ret r, w')
      /\ only_caches w w' /\ res_feedName r = name feed
      /\ res_success r = true /\ res_error r = None
      /\ exists cachedIcon w0,
           cacheFavicon env (icon feed) (name feed) w = (Ret cachedIcon, w0)
           /\ (cachedIcon = None
               \/ cachedIcon
                  = Some (js "/images/" ++ faviconFilename env (icon feed) (name feed)))
           /\ built_in_turn env feed cachedIcon w0 0
                (take (maxItemsPerFeed cfg) rawItems) (res_items r) w').
  { intros rawItems. unfold bind at 1.
    pose proof (guarded_download_frame env (icon feed)
                  (faviconFilename env (icon feed) (name feed)) w) as Hf1.
    destruct (guarded_download_total env (icon feed)
                (faviconFilename env (icon feed) (name feed)) w)
      as (ic & w1 & Hrun & Hic).
    fold (cacheFavicon env (icon feed) (name feed)) in Hrun, Hf1.
    rewrite Hrun in Hf1 |- *. cbn [snd] in Hf1.
    unfold bind at 1.
    destruct (process_items_spec env feed ic
                (take (maxItemsPerFeed cfg) rawItems) [] w1)
      as (new & w2 & -> & Hf2 & Hturn).
    cbn. eexists _, _. split; [reflexivity|].
    split; [by eapply only_caches_trans|]. cbn.
    split; [reflexivity|]. split; [reflexivity|]. split; [reflexivity|].
    exists ic, w1. auto. }
  destruct (extractFeed env (url feed)) as [message|entries|entries].
  - cbn. eexists _, _. split; [reflexivity|].
    split; [apply only_caches_refl|]. auto.
  - cbn [ret]. destruct (Hok []) as (r & w' & -> & H1 & H2 & H3 & H4 & H5).
    exists r, w'. auto 10.
  - cbn [ret]. destruct (Hok (map (parse_entry env) entries))
      as (r & w' & -> & H1 & H2 & H3 & H4 & H5).
    exists r, w'. auto 10.
Qed.

(** ** Dates the reader could not parse *)

Lemma filter_lookup_kept {A} (f : A -> bool) (l : list A) k x :
  l !! k = Some x -> f x = true ->
  List.filter f l !! length (List.filter f (take k l)) = Some x.
Proof.
  intros Hk Hf.
  assert (E : List.filter f l = List.filter f (take k l ++ x :: drop (S k) l))
    by (by rewrite take_drop_middle).
  rewrite E, List.filter_app. cbn [List.filter]. rewrite Hf.
  by apply list_lookup_middle.
Qed.

(** C1: an entry of the feed whose date is present and is not a date reaches
    [parseFeed] the way the reader delivers it, with an empty [published]
    field; when it is among the first [maxItemsPerFeed] entries its item is
    emitted, at the position that follows the items of the entries before
    it, with the title, link and description of the entry and the time of
    the extraction as [pubDate]. *)
Theorem unparseable_date_defaults_to_now env cfg feed entries k entry dstr w :
  extractFeed env (url feed) = FeedOk entries ->
  entries !! k = Some entry ->
  (k < maxItemsPerFeed cfg)%nat ->
  delivered env (Some dstr) entry ->
  truthy dstr = true ->
  date_parse env dstr = None ->
  date_parse env (toISOString env (now env)) = Some (now env) ->
  exists r w' item,
    processFeed env cfg feed w = (Ret r, w')
    /\ res_success r = true
    /\ res_items r
         !! length (List.filter (date_parses env)
                                (take k (map (parse_entry env) entries)))
       = Some item
    /\ title item = or_default (e_title entry) (js "No title")
    /\ link item = or_default (e_link entry) (js "#")
    /\ description item
       = substring0 300 (stripHtml (Some (or_default (e_description entry) [])))
    /\ pubDate item = now env.
Proof.
  intros Hfeed Hk Hmax [Hpub Hupd] Hpresent Hbad Hnow.
  destruct (processFeed_spec env cfg feed w) as (r & w' & Hrun & _ & _ & Hcase).
  rewrite Hfeed in Hcase.
  destruct Hcase as (Hs & _ & ic & w0 & _ & _ & Hturn).
  destruct (built_in_turn_items _ _ _ _ _ _ _ _ Hturn) as [Hall _].
  assert (Hdate : raw_pubDate (parse_entry env entry) = toISOString env (now env)).
  { cbn [parse_entry raw_pubDate]. rewrite Hpub, Hupd.
    unfold toISODateString. rewrite Hpresent, Hbad. reflexivity. }
  assert (Hraw : take (maxItemsPerFeed cfg) (map (parse_entry env) entries) !! k
                 = Some (parse_entry env entry)).
  { rewrite lookup_take_lt by exact Hmax. by rewrite list_lookup_fmap, Hk. }
  assert (Hkept : date_parses env (parse_entry env entry) = true).
  { unfold date_parses. by rewrite Hdate, Hnow. }
  pose proof (filter_lookup_kept _ _ _ _ Hraw Hkept) as Hpos.
  rewrite take_take, Nat.min_l in Hpos by lia.
  destruct (Forall2_lookup_l _ _ _ _ _ Hall Hpos)
    as (item & Hitem & c & _ & _ & Ht & Hl & Hd & Hp & _).
  exists r, w', item. split; [exact Hrun|]. split; [exact Hs|].
  split; [exact Hitem|]. split; [exact Ht|]. split; [exact Hl|].
  split; [exact Hd|].
  rewrite Hdate, Hnow in Hp. by injection Hp.
Qed.

Lemma unparseable_date_defaults_to_now_witness :
  exists r w' item,
    processFeed
      (Sample.env (fun _ => FeedOk [Sample.entry (Some []) (js "<p>Patch now</p>")])
                  Sample.no_article Sample.online)
      feedConfig Sample.feed Sample.world = (Ret r, w')
    /\ res_items r !! 0%nat = Some item
    /\ pubDate item = Sample.midnight.
Proof.
  destruct (unparseable_date_defaults_to_now
              (Sample.env
                 (fun _ => FeedOk [Sample.entry (Some []) (js "<p>Patch now</p>")])
                 Sample.no_article Sample.online)
              feedConfig Sample.feed
              [Sample.entry (Some []) (js "<p>Patch now</p>")] 0
              (Sample.entry (Some []) (js "<p>Patch now</p>"))
              (js "not a date") Sample.world)
    as (r & w' & item & Hrun & _ & Hitem & _ & _ & _ & Hdate);
    [reflexivity | reflexivity | vm_compute; lia | split; reflexivity
    | reflexivity | reflexivity | reflexivity |].
  exists r, w', item. split; [exact Hrun|]. split; [exact Hitem|exact Hdate].
Defined.

(** ** The items of a source *)

(** X9: when the feed of a source is read, [processFeed] succeeds and emits
    one item for every entry among the first [maxItemsPerFeed] whose date
    parses, in the order of the feed, and nothing else: each item carries the
    title and link of its entry, the stripped description cut at 300, the
    parsed date and the source name; its icon is what [cacheFavicon] returned
    for the source or else the icon URL, and its image is what [cacheImage]
    returned for the image of the entry, called at the turn of the entry in
    the state the earlier turns left, or else the image URL resolved against
    the article. *)
Theorem processFeed_items_built_in_order env cfg feed entries w :
  extractFeed env (url feed) = FeedOk entries ->
  exists r w' cachedIcon w0,
    processFeed env cfg feed w = (Ret r, w')
    /\ res_success r = true /\ res_error r = None
    /\ cacheFavicon env (icon feed) (name feed) w = (Ret cachedIcon, w0)
    /\ (cachedIcon = None
        \/ cachedIcon
           = Some (js "/images/" ++ faviconFilename env (icon feed) (name feed)))
    /\ built_in_turn env feed cachedIcon w0 0
         (take (maxItemsPerFeed cfg) (map (parse_entry env) entries))
         (res_items r) w'
    /\ Forall2 (fun rawItem item =>
                  exists cachedImageUrl,
                    built_from env feed cachedIcon cachedImageUrl rawItem item)
         (List.filter (date_parses env)
                      (take (maxItemsPerFeed cfg) (map (parse_entry env) entries)))
         (res_items r)
    /\ (length (res_items r) <= maxItemsPerFeed cfg)%nat
    /\ (length (res_items r) <= length entries)%nat.
Proof.
  intros Hfeed.
  destruct (processFeed_spec env cfg feed w) as (r & w' & Hrun & _ & _ & Hcase).
  rewrite Hfeed in Hcase.
  destruct Hcase as (Hs & He & ic & w0 & Hicon & Hic & Hturn).
  destruct (built_in_turn_items _ _ _ _ _ _ _ _ Hturn) as [Hall _].
  exists r, w', ic, w0. split; [exact Hrun|]. split; [exact Hs|]. split; [exact He|].
  split; [exact Hicon|]. split; [exact Hic|]. split; [exact Hturn|].
  split; [exact Hall|].
  apply Forall2_length in Hall. rewrite <- Hall.
  pose proof (filter_length_le (date_parses env)
                (take (maxItemsPerFeed cfg) (map (parse_entry env) entries))) as Hle.
  rewrite length_take, length_map in Hle. lia.
Qed.

Lemma processFeed_items_built_in_order_witness :
  exists r w',
    processFeed Fixture.env feedConfig Sample.feed Sample.world = (Ret r, w')
    /\ map (fun i => (description i, pubDate i, image i)) (res_items r)
       = [ (js "one", Sample.midnight, None);
           (js "three", (Sample.midnight - 86400000)%Z, None);
           (js "four", Sample.midnight,
            Some (js "/images/" ++ Sample.hash (js "https://news.example/img/4.png")
                  ++ js ".png"));
           (js "five", (Sample.midnight + 3600000)%Z, None) ].
Proof.
  destruct (processFeed_items_built_in_order Fixture.env feedConfig Sample.feed
              Fixture.six_entries Sample.world eq_refl)
    as (r & w' & ic & w0 & Hrun & _).
  exists r, w'. split; [exact Hrun|].
  vm_compute in Hrun. injection Hrun as <- _. vm_compute. reflexivity.
Defined.

(** ** The sources of a cycle *)

Lemma built_from_names env feed cachedIcon raws items :
  Forall2 (fun rawItem item =>
             exists cachedImageUrl,
               built_from env feed cachedIcon cachedImageUrl rawItem item)
          raws items ->
  Forall (fun item => id_feed (id item) = name feed /\ source item = name feed) items.
Proof.
  induction 1 as [|raw item raws items [c Hb] _ IH]; constructor; [|exact IH].
  unfold built_from in Hb. tauto.
Qed.

Lemma processFeed_result_of env cfg feed w :
  exists r w',
    processFeed env cfg feed w = (Ret r, w')
    /\ only_caches w w' /\ result_of env feed r.
Proof.
  destruct (processFeed_spec env cfg feed w) as (r & w' & Hrun & Hf & Hn & Hcase).
  exists r, w'. split; [exact Hrun|]. split; [exact Hf|].
  unfold result_of. split; [exact Hn|].
  destruct (extractFeed env (url feed)) as [message| |entries].
  - destruct Hcase as [-> _]. cbn. split; [constructor|]. split; [|reflexivity].
    intros k item H. by rewrite lookup_nil in H.
  - destruct Hcase as (Hs & He & ic & w0 & _ & _ & Hturn).
    destruct (built_in_turn_items _ _ _ _ _ _ _ _ Hturn) as [Hall Hpos].
    split; [by eapply built_from_names|]. auto.
  - destruct Hcase as (Hs & He & ic & w0 & _ & _ & Hturn).
    destruct (built_in_turn_items _ _ _ _ _ _ _ _ Hturn) as [Hall Hpos].
    split; [by eapply built_from_names|]. auto.
Qed.

Lemma process_all_spec env cfg l :
  forall w, exists results w',
    process_all env cfg l w = (Ret results, w')
    /\ only_caches w w'
    /\ Forall2 (result_of env) l results.
Proof.
  induction l as [|feed rest IH]; intros w; cbn [process_all].
  - exists [], w. split; [reflexivity|]. split; [apply only_caches_refl|constructor].
  - unfold bind at 1.
    destruct (processFeed_result_of env cfg feed w) as (r & w1 & -> & Hf1 & Hr).
    unfold bind at 1.
    destruct (IH w1) as (rs & w2 & -> & Hf2 & Hrs).
    exists (r :: rs), w2. split; [reflexivity|].
    split; [by eapply only_caches_trans|by constructor].
Qed.

(** X10: while the sources of a cycle are processed the published snapshot,
    the persisted snapshot and the flag stay as they are; processing only adds
    files to the image directory and requests to the log, and never throws. *)
Theorem processing_only_caches env cfg l w :
  exists results w',
    process_all env cfg l w = (Ret results, w')
    /\ cachedFeeds w' = cachedFeeds w
    /\ cache_file w' = cache_file w
    /\ isRefreshing w' = isRefreshing w
    /\ (exists more, requests w' = more ++ requests w)
    /\ (forall d, images_dir w = Some d ->
                  exists d', images_dir w' = Some d' /\ d ⊆ d')
    /\ (images_dir w = None -> images_dir w' = None)
    /\ length results = length l.
Proof.
  destruct (process_all_spec env cfg l w) as (results & w' & Hrun & Hf & Hall).
  exists results, w'. split; [exact Hrun|].
  destruct Hf as (H1 & H2 & H3 & H4 & H5).
  split; [exact H1|]. split; [exact H2|]. split; [exact H3|]. split; [exact H4|].
  split; [|split].
  - intros d Hd. rewrite Hd in H5. destruct (images_dir w') as [d'|]; [eauto|done].
  - intros Hd. rewrite Hd in H5. by destruct (images_dir w').
  - symmetry. by eapply Forall2_length.
Qed.

Lemma merged_cons r rs : merged (r :: rs) = res_items r ++ merged rs.
Proof. reflexivity. Qed.

Lemma ids_of_result env feed r :
  result_of env feed r ->
  NoDup (map id (res_items r))
  /\ Forall (fun i => id_feed i = name feed) (map id (res_items r)).
Proof.
  intros (_ & Hnames & Hpos & _). split.
  - apply NoDup_alt. intros i j x Hi Hj.
    apply list_lookup_fmap_Some in Hi as (a & -> & Ha).
    apply list_lookup_fmap_Some in Hj as (b & Hab & Hb).
    rewrite <- (Hpos i a Ha), <- (Hpos j b Hb). by rewrite Hab.
  - apply Forall_fmap. eapply Forall_impl; [exact Hnames|]. cbn. tauto.
Qed.

Lemma ids_of_results env l results :
  Forall2 (result_of env) l results ->
  NoDup (map name l) ->
  NoDup (map id (merged results))
  /\ Forall (fun i => id_feed i ∈ map name l) (map id (merged results)).
Proof.
  induction 1 as [|feed r l results Hr _ IH]; intros Hnd.
  - split; [constructor|constructor].
  - cbn [map] in Hnd. apply NoDup_cons in Hnd as [Hfresh Hnd].
    destruct (IH Hnd) as [IH1 IH2].
    destruct (ids_of_result env feed r Hr) as [H1 H2].
    rewrite merged_cons, map_app. split.
    + apply NoDup_app. split; [exact H1|]. split; [|exact IH1].
      intros x Hx Hx'.
      rewrite Forall_forall in H2, IH2.
      apply Hfresh. rewrite <- (H2 x Hx). by apply IH2.
    + apply Forall_app. split.
      * eapply Forall_impl; [exact H2|]. cbn. intros i ->. apply list_elem_of_here.
      * eapply Forall_impl; [exact IH2|]. cbn. intros i Hi.
        by apply list_elem_of_further.
Qed.

(** X11: with sources of distinct names the items of the snapshot a cycle
    publishes have distinct identifiers: an identifier holds the name of the
    source and the position of the item in the result of that source. *)
Theorem item_ids_unique_in_cycle env cfg w :
  isRefreshing w = false ->
  NoDup (map name (feeds cfg)) ->
  NoDup (map id (items (cachedFeeds (snd (fetchAllFeeds env cfg w)))))
  /\ Forall (fun item => id_feed (id item) = source item
                         /\ source item ∈ map name (feeds cfg))
            (items (cachedFeeds (snd (fetchAllFeeds env cfg w)))).
Proof.
  intros Hidle Hnames.
  destruct (process_all_spec env cfg (feeds cfg) (set_isRefreshing true w))
    as (results & w1 & Hrun & _ & Hall).
  destruct (cycle_body_run _ _ _ _ _ Hrun)
    as (snap & w' & Hc & Hsnap & _ & _ & Hitems & _).
  unfold fetchAllFeeds. rewrite Hidle, Hc. cbn [snd]. rewrite Hsnap, Hitems.
  destruct (js_sort_spec (merged results)) as (_ & Hperm & _).
  destruct (ids_of_results env _ _ Hall Hnames) as [Hnd _].
  split.
  - assert (Hp : map id (js_sort by_date_desc (merged results))
                 ≡ₚ map id (merged results)) by by apply Permutation_map.
    by rewrite Hp.
  - rewrite Hperm. clear -Hall.
    induction Hall as [|feed r l results Hr _ IH]; [constructor|].
    rewrite merged_cons. apply Forall_app. split.
    + destruct Hr as (_ & Hn & _). eapply Forall_impl; [exact Hn|].
      cbn. intros item [-> ->]. split; [done|apply list_elem_of_here].
    + eapply Forall_impl; [exact IH|]. cbn. intros item [? ?].
      split; [done|by apply list_elem_of_further].
Qed.

Lemma item_ids_unique_in_cycle_witness :
  map id (items (cachedFeeds
                   (snd (fetchAllFeeds Fixture.env Sample.three_sources
                                       Sample.world))))
  <> []
  /\ NoDup (map id (items (cachedFeeds
                             (snd (fetchAllFeeds Fixture.env Sample.three_sources
                                                 Sample.world))))).
Proof.
  split; [vm_compute; discriminate|].
  apply (item_ids_unique_in_cycle Fixture.env Sample.three_sources Sample.world).
  - reflexivity.
  - cbn. repeat (constructor; [vm_compute; set_solver|]). constructor.
Defined.

Lemma processing_only_caches_witness :
  exists results w',
    process_all Fixture.env Sample.three_sources
                (feeds Sample.three_sources) Sample.populated = (Ret results, w')
    /\ cachedFeeds w' = cachedFeeds Sample.populated
    /\ length results = 3%nat
    /\ exists d', images_dir w' = Some d'
                  /\ ({[js "0a1b.png"]} ∪ {[js "favicon-example-feed.ico"]}) ⊆ d'.
Proof.
  destruct (processing_only_caches Fixture.env Sample.three_sources
              (feeds Sample.three_sources) Sample.populated)
    as (results & w' & Hrun & Hsnap & _ & _ & _ & Hdir & _ & Hlen).
  exists results, w'. split; [exact Hrun|]. split; [exact Hsnap|].
  split; [exact Hlen|]. apply Hdir. reflexivity.
Defined.

(** ** The snapshot of a cycle *)

Lemma cycle_body_full env cfg w results w1 :
  process_all env cfg (feeds cfg) w = (Ret results, w1) ->
  cycle_body env cfg w
  = (Ret (cycle_snapshot env results),
     set_isRefreshing false
       (if save_ok env
        then set_cache_file (Some (cycle_snapshot env results))
                            (set_cachedFeeds (cycle_snapshot env results) w1)
        else set_cachedFeeds (cycle_snapshot env results) w1)).
Proof.
  intros H. unfold cycle_body, bind at 1. rewrite H. unfold cycle_snapshot.
  destruct (collect env results) as [[st ts] allItems]. cbn [fst snd].
  unfold bind, save_cache. cbn. by destruct (save_ok env).
Qed.

Lemma collect_lookup env results :
  forall st ts all,
    NoDup (map res_feedName results) ->
    (forall r, r ∈ results ->
       fst (fst (fold_left (collect_step env) results (st, ts, all)))
         !! res_feedName r = Some (status_of r)
       /\ snd (fst (fold_left (collect_step env) results (st, ts, all)))
            !! res_feedName r = Some (now env))
    /\ (forall n, n ∉ map res_feedName results ->
          fst (fst (fold_left (collect_step env) results (st, ts, all))) !! n
            = st !! n
          /\ snd (fst (fold_left (collect_step env) results (st, ts, all))) !! n
             = ts !! n).
Proof.
  induction results as [|r rs IH]; intros st ts all Hnd.
  - split; [intros r Hr; by apply elem_of_nil in Hr|done].
  - cbn [map] in Hnd. apply NoDup_cons in Hnd as [Hfresh Hnd].
    cbn [fold_left collect_step].
    destruct (IH (<[res_feedName r := status_of r]> st)
                 (<[res_feedName r := now env]> ts) (all ++ res_items r) Hnd)
      as [Hin Hout].
    split.
    + intros r' [->|Hr']%elem_of_cons; [|by apply Hin].
      destruct (Hout _ Hfresh) as [-> ->]. by rewrite !lookup_insert_eq.
    + intros n Hn. cbn [map] in Hn. apply not_elem_of_cons in Hn as [Hne Hn].
      destruct (Hout _ Hn) as [-> ->]. by rewrite !lookup_insert_ne.
Qed.

(** X12: after a cycle over sources of distinct names, none of them named
    [__proto__] (the one name under which an assignment to a plain object
    makes no key), the status map and the timestamp map of the snapshot have
    exactly the names of the sources as keys: each source has the status of
    its own result (a source whose read threw is marked failed with no items,
    the others successful with the count of their items) and the time of the
    cycle. *)
Theorem snapshot_status_per_source env cfg w :
  isRefreshing w = false ->
  NoDup (map name (feeds cfg)) ->
  proto_free (map name (feeds cfg)) ->
  exists results,
    Forall2 (result_of env) (feeds cfg) results
    /\ cachedFeeds (snd (fetchAllFeeds env cfg w)) = cycle_snapshot env results
    /\ (forall k feed r,
           feeds cfg !! k = Some feed -> results !! k = Some r ->
           feedStatus (cycle_snapshot env results) !! name feed
             = Some {| success := res_success r;
                       itemCount := length (res_items r);
                       error := or_else (res_error r) None |}
           /\ feedTimestamps (cycle_snapshot env results) !! name feed
              = Some (now env)
           /\ match extractFeed env (url feed) with
              | FeedThrows message =>
                  res_success r = false /\ res_items r = []
                  /\ res_error r = Some message
              | _ => res_success r = true /\ res_error r = None
              end)
    /\ (forall n, n ∉ map name (feeds cfg) ->
                  feedStatus (cycle_snapshot env results) !! n = None
                  /\ feedTimestamps (cycle_snapshot env results) !! n = None).
Proof.
  intros Hidle Hnames _.
  destruct (process_all_spec env cfg (feeds cfg) (set_isRefreshing true w))
    as (results & w1 & Hrun & _ & Hall).
  exists results. split; [exact Hall|].
  assert (Hmap : map res_feedName results = map name (feeds cfg)).
  { clear -Hall. induction Hall as [|feed r l rs (Hn & _) _ IH]; [done|].
    cbn [map]. by rewrite Hn, IH. }
  assert (Hnd : NoDup (map res_feedName results)) by by rewrite Hmap.
  destruct (collect_lookup env results ∅ ∅ [] Hnd) as [Hin Hout].
  fold (collect env results) in Hin, Hout.
  split; [|split].
  - unfold fetchAllFeeds. rewrite Hidle, (cycle_body_full _ _ _ _ _ Hrun).
    cbn [snd]. by destruct (save_ok env).
  - intros k feed r Hk Hr.
    destruct (Forall2_lookup_lr _ _ _ _ _ _ Hall Hk Hr) as (Hn & _ & _ & Hcase).
    rewrite <- Hn. unfold cycle_snapshot. cbn [feedStatus feedTimestamps].
    destruct (Hin r) as [-> ->]; [by eapply list_elem_of_lookup_2|].
    split; [reflexivity|]. split; [reflexivity|].
    destruct (extractFeed env (url feed)); [by rewrite Hcase|exact Hcase|exact Hcase].
  - intros n Hn. rewrite <- Hmap in Hn.
    unfold cycle_snapshot. cbn [feedStatus feedTimestamps].
    destruct (Hout n Hn) as [-> ->]. by rewrite !lookup_empty.
Qed.

Lemma snapshot_status_per_source_witness :
  feedStatus (cachedFeeds
                (snd (fetchAllFeeds
                        (Sample.env Sample.one_down Sample.no_article Sample.online)
                        Sample.three_sources Sample.world)))
    !! js "Down Feed"
  = Some {| success := false; itemCount := 0;
            error := Some (js "Request timed out") |}.
Proof.
  destruct (snapshot_status_per_source
              (Sample.env Sample.one_down Sample.no_article Sample.online)
              Sample.three_sources Sample.world eq_refl)
    as (results & Hall & -> & Hin & _).
  { cbn. repeat (constructor; [vm_compute; set_solver|]). constructor. }
  { vm_compute. reflexivity. }
  destruct results as [|r1 [|r2 rest]];
    try (apply Forall2_length in Hall; discriminate).
  destruct (Hin 1%nat Sample.feed_down r2 eq_refl eq_refl) as (H2 & _ & Hc2).
  change (js "Down Feed") with (name Sample.feed_down). rewrite H2.
  change (extractFeed (Sample.env Sample.one_down Sample.no_article Sample.online)
                      (url Sample.feed_down))
    with (FeedThrows (js "Request timed out")) in Hc2.
  destruct Hc2 as (-> & -> & ->). reflexivity.
Defined.

Lemma process_all_failed env cfg message l w :
  (forall feed, feed ∈ l -> extractFeed env (url feed) = FeedThrows (message feed)) ->
  process_all env cfg l w = (Ret (all_failed message l), w).
Proof.
  induction l as [|feed rest IH]; intros H; [reflexivity|].
  eapply process_all_cons.
  - apply processFeed_reader_throws, H, list_elem_of_here.
  - apply IH. intros f Hf. by apply H, list_elem_of_further.
Qed.

Lemma merged_all_failed message l : merged (all_failed message l) = [].
Proof. induction l as [|feed rest IH]; [reflexivity|exact IH]. Qed.

(** X13: a cycle in which the read of every source throws still publishes a
    snapshot: it has no items and the time of the cycle, whatever the
    snapshot before held, and it is what the cache file holds when the save
    succeeds; the image directory is as it was and nothing was requested. *)
Theorem failed_cycle_publishes_empty_snapshot env cfg message w :
  isRefreshing w = false ->
  (forall feed, feed ∈ feeds cfg ->
                extractFeed env (url feed) = FeedThrows (message feed)) ->
  items (cachedFeeds (snd (fetchAllFeeds env cfg w))) = []
  /\ lastUpdated (cachedFeeds (snd (fetchAllFeeds env cfg w))) = Some (now env)
  /\ stat_articles (getCacheStats env cfg (snd (fetchAllFeeds env cfg w))) = 0%nat
  /\ images_dir (snd (fetchAllFeeds env cfg w)) = images_dir w
  /\ requests (snd (fetchAllFeeds env cfg w)) = requests w
  /\ (save_ok env = true ->
      cache_file (snd (fetchAllFeeds env cfg w))
      = Some (cachedFeeds (snd (fetchAllFeeds env cfg w))))
  /\ startup_fetches env (snd (fetchAllFeeds env cfg w)) = true.
Proof.
  intros Hidle Hall.
  pose proof (process_all_failed env cfg message (feeds cfg)
                (set_isRefreshing true w) Hall) as Hrun.
  unfold fetchAllFeeds. rewrite Hidle, (cycle_body_full _ _ _ _ _ Hrun).
  cbn [snd].
  assert (Hitems : items (cycle_snapshot env (all_failed message (feeds cfg))) = []).
  { unfold cycle_snapshot. cbn [items]. unfold collect.
    rewrite (collect_items env _ ∅ ∅ []), merged_all_failed. reflexivity. }
  assert (Hdate : lastUpdated (cycle_snapshot env (all_failed message (feeds cfg)))
                  = Some (now env)) by reflexivity.
  remember (cycle_snapshot env (all_failed message (feeds cfg))) as snap.
  unfold getCacheStats, startup_fetches.
  destruct (save_ok env); cbn; rewrite Hitems, Hdate; repeat split; discriminate.
Qed.

Lemma failed_cycle_publishes_empty_snapshot_witness :
  length (items (cachedFeeds Sample.populated)) = 1%nat
  /\ items (cachedFeeds
              (snd (fetchAllFeeds Fixture.outage Sample.three_sources
                                  Sample.populated))) = [].
Proof.
  split; [reflexivity|].
  apply (failed_cycle_publishes_empty_snapshot Fixture.outage Sample.three_sources
           (fun _ => js "Request timed out") Sample.populated).
  - reflexivity.
  - intros feed _. reflexivity.
Defined.

(** X14: a cycle started from the idle state always comes to its end: the
    flag is down again, the snapshot returned is the one published, dated at
    the time of the cycle; the cache file holds that snapshot when the save
    succeeds and is left as it was when the save fails, in which case the
    snapshot is published all the same. *)
Theorem cycle_ends_idle_and_persists env cfg w :
  isRefreshing w = false ->
  isRefreshing (snd (fetchAllFeeds env cfg w)) = false
  /\ fst (fetchAllFeeds env cfg w)
     = Ret (cachedFeeds (snd (fetchAllFeeds env cfg w)))
  /\ lastUpdated (cachedFeeds (snd (fetchAllFeeds env cfg w))) = Some (now env)
  /\ cache_file (snd (fetchAllFeeds env cfg w))
     = if save_ok env then Some (cachedFeeds (snd (fetchAllFeeds env cfg w)))
       else cache_file w.
Proof.
  intros Hidle.
  destruct (process_all_spec env cfg (feeds cfg) (set_isRefreshing true w))
    as (results & w1 & Hrun & (_ & Hfile & _) & _).
  unfold fetchAllFeeds. rewrite Hidle, (cycle_body_full _ _ _ _ _ Hrun).
  cbn [fst snd]. destruct (save_ok env); cbn; repeat split; exact Hfile.
Qed.

Lemma cycle_ends_idle_and_persists_witness :
  isRefreshing (snd (fetchAllFeeds (Sample.read_only Fixture.env)
                                   Sample.three_sources Sample.populated)) = false
  /\ cache_file (snd (fetchAllFeeds (Sample.read_only Fixture.env)
                                    Sample.three_sources Sample.populated))
     = cache_file Sample.populated.
Proof.
  destruct (cycle_ends_idle_and_persists (Sample.read_only Fixture.env)
              Sample.three_sources Sample.populated eq_refl)
    as (H1 & _ & _ & H2).
  split; [exact H1 | exact H2].
Defined.

(** ** Restart *)

(** X15: what a cycle saved is what a new process starts with: after a cycle
    whose save succeeded, [loadCache] in a new process restores the published
    snapshot, and the process fetches at once exactly when that snapshot has
    no items or is more than ten minutes old; when the file cannot be read
    the new process has the empty snapshot and fetches. *)
Theorem restart_restores_snapshot env later cfg w :
  isRefreshing w = false ->
  save_ok env = true ->
  cachedFeeds (loadCache true (restart (snd (fetchAllFeeds env cfg w))))
  = cachedFeeds (snd (fetchAllFeeds env cfg w))
  /\ startup_fetches later
       (loadCache true (restart (snd (fetchAllFeeds env cfg w))))
     = (length (items (cachedFeeds (snd (fetchAllFeeds env cfg w)))) =? 0)%nat
       || (600000 <? now later - now env)%Z
  /\ cachedFeeds (loadCache false (restart (snd (fetchAllFeeds env cfg w))))
     = empty_snapshot
  /\ startup_fetches later
       (loadCache false (restart (snd (fetchAllFeeds env cfg w)))) = true.
Proof.
  intros Hidle Hsave.
  destruct (process_all_spec env cfg (feeds cfg) (set_isRefreshing true w))
    as (results & w1 & Hrun & _ & _).
  unfold fetchAllFeeds. rewrite Hidle, (cycle_body_full _ _ _ _ _ Hrun), Hsave.
  cbn [snd]. unfold loadCache, restart, startup_fetches. cbn.
  split; [reflexivity|]. split; [|by split].
  by destruct (length _ =? 0)%nat.
Qed.

Lemma restart_restores_snapshot_witness :
  startup_fetches (Fixture.later 9 Fixture.env)
    (loadCache true
       (restart (snd (fetchAllFeeds Fixture.env Sample.three_sources Sample.world))))
  = false
  /\ startup_fetches (Fixture.later 11 Fixture.env)
       (loadCache true
          (restart (snd (fetchAllFeeds Fixture.env Sample.three_sources
                                       Sample.world))))
     = true.
Proof.
  split.
  - rewrite (proj1 (proj2 (restart_restores_snapshot Fixture.env
                             (Fixture.later 9 Fixture.env) Sample.three_sources
                             Sample.world eq_refl eq_refl))).
    vm_compute. reflexivity.
  - rewrite (proj1 (proj2 (restart_restores_snapshot Fixture.env
                             (Fixture.later 11 Fixture.env) Sample.three_sources
                             Sample.world eq_refl eq_refl))).
    vm_compute. reflexivity.
Defined.

(** ** Refresh requests *)

(** X16: a refresh request to an idle server is accepted and starts one
    cycle; requests that come while it runs are refused; when the cycle
    completes the server is idle again, in the state [fetchAllFeeds] reaches
    when it is run to its end, and the next request is accepted. *)
Theorem refresh_lifecycle env cfg w :
  isRefreshing w = false ->
  let idle := {| world := w; running := 0 |} in
  let busy := snd (route_refresh idle) in
  let after := complete_cycle env cfg busy in
  fst (route_refresh idle)
    = {| status := 200; body := MessageBody (js "Refresh started") |}
  /\ running busy = 1%nat
  /\ cachedFeeds (world busy) = cachedFeeds w
  /\ route_refresh busy
     = ({| status := 409; body := ErrorBody (js "Refresh already in progress") |},
        busy)
  /\ after = {| world := snd (fetchAllFeeds env cfg w); running := 0 |}
  /\ fst (route_refresh after)
     = {| status := 200; body := MessageBody (js "Refresh started") |}.
Proof.
  intros Hidle.
  assert (Hstart : route_refresh {| world := w; running := 0 |}
                   = ({| status := 200; body := MessageBody (js "Refresh started") |},
                      {| world := set_isRefreshing true w; running := 1 |})).
  { unfold route_refresh, enter_cycle. cbn [world running]. by rewrite Hidle. }
  assert (Hafter : complete_cycle env cfg
                     {| world := set_isRefreshing true w; running := 1 |}
                   = {| world := snd (fetchAllFeeds env cfg w); running := 0 |}).
  { unfold complete_cycle, fetchAllFeeds. cbn [running world]. by rewrite Hidle. }
  assert (Hdone : isRefreshing (snd (fetchAllFeeds env cfg w)) = false).
  { unfold fetchAllFeeds. rewrite Hidle. apply cycle_body_idle. }
  cbn zeta. rewrite Hstart. cbn [fst snd]. rewrite Hafter.
  split; [reflexivity|]. split; [reflexivity|]. split; [reflexivity|].
  split; [reflexivity|]. split; [reflexivity|].
  unfold route_refresh. cbn [world]. by rewrite Hdone.
Qed.

Lemma refresh_lifecycle_witness :
  complete_cycle Fixture.env Sample.three_sources
    (snd (route_refresh {| world := Sample.world; running := 0 |}))
  = {| world := snd (fetchAllFeeds Fixture.env Sample.three_sources Sample.world);
       running := 0 |}.
Proof.
  apply (refresh_lifecycle Fixture.env Sample.three_sources Sample.world eq_refl).
Defined.

(** ** Favicons *)

Lemma is_alnum_lower c :
  is_alnum c = true -> is_alnum (to_lower c) = true /\ to_lower (to_lower c) = to_lower c.
Proof.
  unfold is_alnum, to_lower.
  destruct (N.leb_spec 65 c), (N.leb_spec c 90); cbn [andb orb]; intros Hal;
    repeat match goal with
           | |- context [(?a <=? ?b)] => destruct (N.leb_spec a b)
           end; cbn [andb orb] in *; try (split; reflexivity); try lia;
    repeat match goal with
           | Hx : context [(?a <=? ?b)] |- _ => destruct (N.leb_spec a b)
           end; cbn [andb orb] in *; try discriminate; try lia.
Qed.

(** X17: the sanitised name that keys a favicon has the length of the source
    name and holds only lower-case letters, digits and dashes; sanitising is
    idempotent, so names that differ only by case or by which characters
    outside letters and digits they use share one key. *)
Theorem safeName_shape feedName :
  length (safeName feedName) = length feedName
  /\ Forall (fun c => ((97 <=? c) && (c <=? 122) || (48 <=? c) && (c <=? 57)
                       || (c =? chr "-")) = true) (safeName feedName)
  /\ safeName (safeName feedName) = safeName feedName
  /\ safeName (map to_upper feedName) = safeName feedName.
Proof.
  unfold safeName. split; [by rewrite length_map|]. split; [|split].
  - apply Forall_fmap, Forall_forall. intros x _. cbn.
    unfold is_alnum, to_lower. change (chr "-") with 45.
    destruct (N.leb_spec 48 x), (N.leb_spec x 57), (N.leb_spec 65 x),
      (N.leb_spec x 90), (N.leb_spec 97 x), (N.leb_spec x 122);
      cbn [andb orb]; try reflexivity; try lia;
      repeat match goal with
             | |- context [(?a <=? ?b)] => destruct (N.leb_spec a b)
             end; cbn [andb orb] in *; try reflexivity; lia.
  - rewrite map_map. apply map_ext. intros c.
    destruct (is_alnum c) eqn:E.
    + destruct (is_alnum_lower c E) as [-> ->]. reflexivity.
    + reflexivity.
  - rewrite map_map. apply map_ext. intros c. unfold to_upper.
    destruct ((97 <=? c) && (c <=? 122)) eqn:E; [|cbv iota; reflexivity].
    apply andb_true_iff in E as [H1%N.leb_le H2%N.leb_le].
    assert (Hup : (65 <=? c - 32) && (c - 32 <=? 90) = true).
    { apply andb_true_iff. split; apply N.leb_le; lia. }
    assert (Hlow : (97 <=? c) && (c <=? 122) = true).
    { apply andb_true_iff. split; apply N.leb_le; lia. }
    assert (Hnot : (65 <=? c) && (c <=? 90) = false).
    { apply andb_false_iff. right. apply N.leb_gt. lia. }
    unfold is_alnum. rewrite Hup, Hlow, !orb_true_r. cbn [orb].
    unfold to_lower. rewrite Hup, Hnot. cbv iota. lia.
Qed.

(** X18: two sources whose names have the same sanitised form and whose icon
    URLs have the same extension share one favicon file: once the first
    favicon is cached, [cacheFavicon] for the second returns the reference of
    the first and requests nothing. *)
Theorem favicon_slot_is_shared env icon1 name1 icon2 name2 w ref w1 :
  cacheFavicon env icon1 name1 w = (Ret (Some ref), w1) ->
  safeName name2 = safeName name1 ->
  url_ext env icon2 (js ".ico") = url_ext env icon1 (js ".ico") ->
  cacheFavicon env icon2 name2 w1 = (Ret (Some ref), w1)
  /\ requests (snd (cacheFavicon env icon2 name2 w1)) = requests w1.
Proof.
  intros Hfirst Hname Hext.
  assert (Hfile : faviconFilename env icon2 name2 = faviconFilename env icon1 name1).
  { unfold faviconFilename. by rewrite Hname, Hext. }
  unfold cacheFavicon in *. rewrite Hfile. unfold try_catch in *.
  destruct (download env icon1 (faviconFilename env icon1 name1) w)
    as [[r|e] w0] eqn:E; [|discriminate].
  injection Hfirst as -> ->. apply download_some in E as (-> & Hc & _).
  rewrite (download_cached _ _ _ _ Hc). auto.
Qed.

Lemma favicon_slot_is_shared_witness :
  cacheFavicon Fixture.env (js "https://other.example/favicon.ico")
    (js "example feed")
    (snd (cacheFavicon Fixture.env (js "https://news.example/favicon.ico")
                       (js "Example-Feed") Sample.world))
  = (Ret (Some (js "/images/favicon-example-feed.ico")),
     snd (cacheFavicon Fixture.env (js "https://news.example/favicon.ico")
                       (js "Example-Feed") Sample.world)).
Proof.
  apply (favicon_slot_is_shared Fixture.env
           (js "https://news.example/favicon.ico") (js "Example-Feed")
           (js "https://other.example/favicon.ico") (js "example feed")
           Sample.world).
  - vm_compute. reflexivity.
  - vm_compute. reflexivity.
  - vm_compute. reflexivity.
Defined.

(** ** The content extractor *)

Lemma or_else_none_truthy a s : or_else a None = Some s -> truthy s = true.
Proof.
  unfold or_else. destruct a as [t|]; [|discriminate].
  destruct (truthy t) eqn:E; [|discriminate]. by intros [= <-].
Qed.

Lemma truncate_content_length s : (length (truncate_content s) <= 2003)%nat.
Proof.
  unfold truncate_content, substring0.
  destruct (2000 <? length s)%nat eqn:E.
  - rewrite length_app, length_take. cbn [length js map list_ascii_of_string]. lia.
  - apply Nat.ltb_ge in E. lia.
Qed.

Lemma truncate_content_head c s :
  exists t, truncate_content (c :: s) = c :: t.
Proof.
  unfold truncate_content, substring0.
  destruct (2000 <? length (c :: s))%nat; [|eauto].
  cbn [take app]. eauto.
Qed.

(** X19: the fields [extractArticleContent] returns are null or not empty,
    and all null when the extractor throws or finds no article; a full text
    taken from the content of the article has at most 2003 code units and
    starts with a code unit that is not white space. *)
Theorem extracted_fields_bounded env articleUrl :
  (forall t, ac_fullText (extractArticleContent env articleUrl) = Some t ->
             truthy t = true)
  /\ (forall u, ac_image (extractArticleContent env articleUrl) = Some u ->
                truthy u = true)
  /\ (forall a, ac_author (extractArticleContent env articleUrl) = Some a ->
                truthy a = true)
  /\ (forall article,
         extractArticle env articleUrl = ArticleOk article ->
         truthy (normalize_content (or_default (art_content article) [])) = true ->
         exists t,
           ac_fullText (extractArticleContent env articleUrl) = Some t
           /\ t = truncate_content
                    (normalize_content (or_default (art_content article) []))
           /\ (length t <= 2003)%nat
           /\ starts_clean t)
  /\ (extractArticle env articleUrl = ArticleThrows
      \/ extractArticle env articleUrl = ArticleNull ->
      extractArticleContent env articleUrl = no_content).
Proof.
  unfold extractArticleContent.
  destruct (extractArticle env articleUrl) as [| |article] eqn:Hart.
  - repeat split; discriminate.
  - repeat split; discriminate.
  - cbn [ac_fullText ac_image ac_author].
    split; [|split; [|split; [|split]]].
    + intros t. unfold or_else at 1.
      destruct (truthy (truncate_content _)) eqn:E.
      * by intros [= <-].
      * apply or_else_none_truthy.
    + apply or_else_none_truthy.
    + apply or_else_none_truthy.
    + intros article' [= <-] Hn.
      destruct (normalize_content (or_default (art_content article) []))
        as [|c s] eqn:En; [discriminate|].
      destruct (truncate_content_head c s) as (t & Ht).
      exists (truncate_content (c :: s)).
      split; [by rewrite Ht|]. split; [reflexivity|].
      split; [apply truncate_content_length|].
      rewrite Ht. cbn [starts_clean].
      pose proof (trim_is_trimmed
                    (replace_all re_nl3 [NL; NL]
                    (replace_all re_blanks_nl [NL]
                    (replace_all re_nl_blanks [NL]
                    (replace_all re_blanks [SP]
                    (replace_all re_tag [SP]
                    (replace_all re_div_open []
                    (replace_all re_div_close [NL]
                    (replace_all re_br [NL]
                    (replace_all re_p_open []
                    (replace_all re_p_close [NL; NL]
                       (or_default (art_content article) [])))))))))))) as Htr.
      fold (normalize_content (or_default (art_content article) [])) in Htr.
      rewrite En in Htr. unfold trimmed in Htr.
      destruct (reverse (c :: s)) as [|d r] eqn:Er.
      * apply (f_equal (@length N)) in Er. rewrite length_reverse in Er.
        discriminate.
      * apply andb_true_iff in Htr as [Hc _]. by apply negb_true_iff in Hc.
    + intros [?|?]; discriminate.
Qed.

Lemma extracted_fields_bounded_witness :
  exists t,
    ac_fullText
      (extractArticleContent
         (Sample.env (fun _ => FeedNoEntries)
            (fun _ => ArticleOk {| art_content := Some Sample.plain_body;
                                   art_description := None;
                                   art_image := Some [];
                                   art_author := None |})
            Sample.online)
         (js "https://news.example/a/1")) = Some t
    /\ (length t <= 2003)%nat.
Proof.
  destruct (extracted_fields_bounded
              (Sample.env (fun _ => FeedNoEntries)
                 (fun _ => ArticleOk {| art_content := Some Sample.plain_body;
                                        art_description := None;
                                        art_image := Some [];
                                        art_author := None |})
                 Sample.online)
              (js "https://news.example/a/1")) as (_ & _ & _ & H & _).
  destruct (H _ eq_refl) as (t & Ht & _ & Hlen & _); [vm_compute; reflexivity|].
  exists t. split; [exact Ht | exact Hlen].
Defined.

(** ** The count of cached images *)

(** X20: the number of images [getCacheStats] reports follows the cache: a
    call of [cacheImage] adds one when it downloads a file that was not there
    and leaves the number as it was when it returns the cached reference or
    null. *)
Theorem image_count_follows_cache env cfg imageUrl w r w' :
  cacheImage env imageUrl w = (Ret r, w') ->
  readdir_ok env = true ->
  stat_images (getCacheStats env cfg w')
  = (stat_images (getCacheStats env cfg w)
     + match r with
       | Some _ => if cached (urlToFilename env imageUrl) w then 0 else 1
       | None => 0
       end)%nat.
Proof.
  intros Hrun Hdir. unfold cacheImage, try_catch in Hrun.
  unfold getCacheStats. cbn [stat_images]. rewrite Hdir.
  destruct (cached (urlToFilename env imageUrl) w) eqn:Hc.
  - rewrite (download_cached _ _ _ _ Hc) in Hrun. injection Hrun as <- <-. lia.
  - rewrite (download_fresh _ _ _ _ Hc) in Hrun.
    destruct (net_fetch env imageUrl) as [|[] [b|]]; cbn in Hrun;
      try (injection Hrun as <- <-; cbn; lia).
    destruct (images_dir w) as [d|] eqn:Hd; cbn in Hrun;
      [|injection Hrun as <- <-; cbn; rewrite Hd; lia].
    destruct (write_ok env (urlToFilename env imageUrl)); cbn in Hrun;
      injection Hrun as <- <-; cbn; [|rewrite Hd; lia].
    unfold cached in Hc. rewrite Hd in Hc. apply bool_decide_eq_false in Hc.
    rewrite size_union by set_solver. rewrite size_singleton. lia.
Qed.

Lemma image_count_follows_cache_witness :
  stat_images
    (getCacheStats Fixture.env feedConfig
       (snd (cacheImage Fixture.env (js "https://cdn.example/inline.png")
                        Sample.populated)))
  = 3%nat.
Proof.
  rewrite (image_count_follows_cache Fixture.env feedConfig
             (js "https://cdn.example/inline.png") Sample.populated
             (Some (js "/images/" ++ Sample.hash (js "https://cdn.example/inline.png")
                    ++ js ".png"))
             (snd (cacheImage Fixture.env (js "https://cdn.example/inline.png")
                              Sample.populated)));
    [vm_compute; reflexivity | vm_compute; reflexivity | reflexivity].
Defined.

(** ** Fields every item has *)

Lemma or_default_truthy a d : truthy d = true -> truthy (or_default a d) = true.
Proof.
  intros Hd. unfold or_default. destruct a as [s|]; [|exact Hd].
  by destruct (truthy s) eqn:E.
Qed.

Lemma Forall2_transfer {A B} (P : A -> Prop) (R : A -> B -> Prop) (Q : B -> Prop)
    (l : list A) (k : list B) :
  (forall a b, P a -> R a b -> Q b) ->
  Forall P l -> Forall2 R l k -> Forall Q k.
Proof.
  intros H HP HR. induction HR as [|a b l k Hab _ IH]; [constructor|].
  apply Forall_cons in HP as [Ha HP]. constructor; eauto.
Qed.

(** X21: every item [processFeed] emits has a title and a link that are not
    empty (the defaults stand in for what the feed leaves out), the name of
    its source and a description of at most 300 code units. *)
Theorem emitted_items_have_title_and_link env cfg feed w r w' :
  processFeed env cfg feed w = (Ret r, w') ->
  Forall (fun item => truthy (title item) = true /\ truthy (link item) = true
                      /\ source item = name feed
                      /\ (length (description item) <= 300)%nat)
         (res_items r).
Proof.
  intros Hrun.
  destruct (processFeed_spec env cfg feed w) as (r0 & w0 & Hrun0 & _ & _ & Hcase).
  rewrite Hrun in Hrun0. injection Hrun0 as <- <-.
  assert (Hraw : forall entries,
             Forall (fun raw => truthy (raw_title raw) = true
                                /\ truthy (raw_link raw) = true)
                    (List.filter (date_parses env)
                       (take (maxItemsPerFeed cfg) (map (parse_entry env) entries)))).
  { intros entries. apply Forall_forall. intros raw Hin.
    apply list_elem_of_In, filter_In in Hin as [Hin _].
    apply list_elem_of_In, elem_of_take in Hin as (i & Hi & _).
    apply list_elem_of_lookup_2, list_elem_of_In, in_map_iff in Hi as (e & <- & _).
    cbn [parse_entry raw_title raw_link]. split; by apply or_default_truthy. }
  assert (Hstep : forall ic raw item,
             truthy (raw_title raw) = true /\ truthy (raw_link raw) = true ->
             (exists c, built_from env feed ic c raw item) ->
             truthy (title item) = true /\ truthy (link item) = true
             /\ source item = name feed
             /\ (length (description item) <= 300)%nat).
  { intros ic raw item [Ht Hl] (c & _ & _ & -> & -> & -> & _ & -> & _).
    repeat split; auto. unfold substring0. rewrite length_take. lia. }
  destruct (extractFeed env (url feed)) as [message| |entries].
  - destruct Hcase as [-> _]. constructor.
  - destruct Hcase as (_ & _ & ic & w1 & _ & _ & Hturn).
    destruct (built_in_turn_items _ _ _ _ _ _ _ _ Hturn) as [Hall _].
    eapply Forall2_transfer; [apply (Hstep ic) | apply (Hraw []) | exact Hall].
  - destruct Hcase as (_ & _ & ic & w1 & _ & _ & Hturn).
    destruct (built_in_turn_items _ _ _ _ _ _ _ _ Hturn) as [Hall _].
    eapply Forall2_transfer; [apply (Hstep ic) | apply (Hraw entries) | exact Hall].
Qed.

Lemma emitted_items_have_title_and_link_witness :
  Forall (fun item => truthy (title item) = true /\ truthy (link item) = true
                      /\ source item = js "Example Feed"
                      /\ (length (description item) <= 300)%nat)
         (match fst (processFeed
                       (Sample.env
                          (fun _ => FeedOk [ {| e_title := None; e_link := Some [];
                                                e_description := None;
                                                e_content := None;
                                                e_published := None;
                                                e_updated := None |} ])
                          Sample.no_article Sample.online)
                       feedConfig Sample.feed Sample.world) with
          | Ret r => res_items r
          | Throw _ => []
          end).
Proof.
  destruct (processFeed
              (Sample.env
                 (fun _ => FeedOk [ {| e_title := None; e_link := Some [];
                                       e_description := None; e_content := None;
                                       e_published := None; e_updated := None |} ])
                 Sample.no_article Sample.online)
              feedConfig Sample.feed Sample.world) as [[r|e] w'] eqn:E.
  - cbn [fst]. exact (emitted_items_have_title_and_link _ _ _ _ _ _ E).
  - constructor.
Defined.

(** ** A cache clear that fails *)

Lemma unlink_images_frame env files :
  forall w,
    cachedFeeds (snd (unlink_images env files w)) = cachedFeeds w
    /\ cache_file (snd (unlink_images env files w)) = cache_file w
    /\ match images_dir w, images_dir (snd (unlink_images env files w)) with
       | Some d, Some d' => d' ⊆ d
       | None, None => True
       | _, _ => False
       end.
Proof.
  induction files as [|f rest IH]; intros w; cbn [unlink_images].
  - cbn. repeat split. by destruct (images_dir w).
  - unfold bind, unlink_image. destruct (unlink_ok env f).
    + destruct (IH (set_images match images_dir w with
                               | Some d => Some (d ∖ {[f]})
                               | None => None
                               end w)) as (H1 & H2 & H3).
      rewrite H1, H2. split; [reflexivity|]. split; [reflexivity|].
      cbn [images_dir set_images] in H3.
      destruct (images_dir w) as [d|];
        destruct (images_dir (snd (unlink_images env rest _))) as [d'|];
        try done. set_solver.
    + cbn. repeat split. by destruct (images_dir w).
Qed.

(** X22: when [DELETE /api/cache] answers 500 the snapshot in memory is not
    reset: it is the one from before the request, while files of the image
    directory may already be gone (none is ever added), and the persisted
    snapshot is still there. *)
Theorem failed_clear_keeps_snapshot env w resp w' :
  route_delete_cache env w = (Ret resp, w') ->
  status resp = 500%nat ->
  cachedFeeds w' = cachedFeeds w
  /\ cache_file w' = cache_file w
  /\ isRefreshing w' = isRefreshing w
  /\ match images_dir w, images_dir w' with
     | Some d, Some d' => d' ⊆ d
     | None, None => True
     | _, _ => False
     end.
Proof.
  intros Hrun Hstatus.
  pose proof (route_delete_cache_flag env w) as Hflag.
  rewrite Hrun in Hflag. cbn [snd] in Hflag.
  unfold route_delete_cache, try_catch in Hrun.
  destruct (clear_cache env w) as [[r|e] w1] eqn:Hclear.
  { injection Hrun as <- <-. rewrite (clear_cache_answer _ _ _ _ Hclear) in Hstatus.
    discriminate. }
  cbn in Hrun. injection Hrun as _ <-.
  unfold clear_cache, bind at 1 in Hclear.
  assert (Hdir : forall o w2,
             match images_dir w with
             | Some _ => (let* files := readdir_images env in
                          unlink_images env files) w
             | None => (Ret tt, w)
             end = (o, w2) ->
             cachedFeeds w2 = cachedFeeds w /\ cache_file w2 = cache_file w
             /\ match images_dir w, images_dir w2 with
                | Some d, Some d' => d' ⊆ d
                | None, None => True
                | _, _ => False
                end).
  { intros o w2. destruct (images_dir w) as [d|] eqn:Hd.
    - unfold bind, readdir_images. rewrite Hd.
      destruct (readdir_ok env).
      + pose proof (unlink_images_frame env (elements d) w) as Hf.
        rewrite Hd in Hf. intros E. rewrite E in Hf. exact Hf.
      + intros [= _ <-]. rewrite Hd. auto.
    - intros [= _ <-]. rewrite Hd. auto. }
  destruct (match images_dir w with
            | Some _ => _
            | None => _
            end) as [[[]|e1] w2] eqn:E1.
  - destruct (Hdir _ _ eq_refl) as (H1 & H2 & H3).
    unfold bind at 1 in Hclear.
    destruct (cache_file w2) as [c|] eqn:Hc.
    + unfold unlink_cache_file in Hclear.
      destruct (unlink_cache_ok env); cbn in Hclear; [discriminate|].
      injection Hclear as _ <-.
      split; [exact H1|]. split; [by rewrite Hc|].
      split; [exact Hflag|exact H3].
    + cbn in Hclear. discriminate.
  - destruct (Hdir _ _ eq_refl) as (H1 & H2 & H3).
    injection Hclear as _ <-.
    split; [exact H1|]. split; [exact H2|]. split; [exact Hflag|exact H3].
Qed.

Lemma failed_clear_keeps_snapshot_witness :
  cachedFeeds (snd (route_delete_cache (Sample.read_only Fixture.env)
                                       Sample.populated))
  = cachedFeeds Sample.populated.
Proof.
  destruct (route_delete_cache (Sample.read_only Fixture.env) Sample.populated)
    as [[resp|e] w'] eqn:E.
  - apply (failed_clear_keeps_snapshot _ _ _ _ E).
    vm_compute in E. injection E as <- _. reflexivity.
  - vm_compute in E. discriminate.
Defined.
